(** * Receipt print server: raster encoder, ESC/POS framing, compositor
      formatting, route projection, paced transmission and the HTTP handler.

    A shallow embedding of [print-server.js].  JavaScript numbers are IEEE 754
    binary64 values and are modelled by Rocq's primitive floats; integers that
    the program only uses as array lengths, indices, bytes or bit patterns are
    modelled by [Z].  A JavaScript string is a sequence of UTF-16 code units
    and is modelled by [list Z]; the command stream is such a string whose
    code units are written out as bytes. *)

From Stdlib Require Import ZArith List Lia Bool String Ascii.
From Stdlib Require Import PrimFloat FloatOps SpecFloat Uint63 DecimalString.
From Stdlib Require Import QArith Qminmax Qpower Qabs Lqa.
From Stdlib Require FloatAxioms DecimalPos.
From stdpp Require Import base list.
From Equations Require Import Equations.

Set Warnings "-inexact-float,-register-all".
Local Open Scope Z_scope.

(** ** JavaScript strings *)

Abbreviation jsstring := (list Z).

(** An ASCII literal of the source as a sequence of code units. *)
Fixpoint str (s : string) : jsstring :=
  match s with
  | EmptyString => []
  | String c s' => Z.of_N (N_of_ascii c) :: str s'
  end.

(** [String.fromCharCode(n)]: one code unit, [ToUint16 n]. *)
Definition String_fromCharCode (n : Z) : jsstring := [n mod 65536].

(** [' '.repeat(n)] and friends. *)
Definition js_repeat (s : jsstring) (n : Z) : jsstring :=
  concat (replicate (Z.to_nat n) s).

(** The [length] of a string or an array. *)
Definition js_length {A : Type} (s : list A) : Z := Z.of_nat (length s).

(** [s.padStart(n)] and [s.padEnd(n)] with the default filler, a space:
    a string already [n] long or longer is returned unchanged. *)
Definition padStart (s : jsstring) (n : Z) : jsstring :=
  js_repeat (str " ") (n - js_length s) ++ s.

Definition padEnd (s : jsstring) (n : Z) : jsstring :=
  s ++ js_repeat (str " ") (n - js_length s).

(** [for (let i = 0; i < n; i += 1) body], threading the mutated state. *)
Definition for_range {St : Type} (n : Z) (body : Z -> St -> St) (s : St) : St :=
  fold_left (fun acc i => body (Z.of_nat i) acc) (seq 0 (Z.to_nat n)) s.

(** ** Control codes (lines 71-97) *)

Definition ESC : jsstring := [27].
Definition GS : jsstring := [29].
Definition ALIGN_LEFT : jsstring := ESC ++ str "a" ++ String_fromCharCode 0.
Definition ALIGN_CENTER : jsstring := ESC ++ str "a" ++ String_fromCharCode 1.
Definition BOLD_ON : jsstring := ESC ++ str "E" ++ String_fromCharCode 1.
Definition BOLD_OFF : jsstring := ESC ++ str "E" ++ String_fromCharCode 0.
Definition SECTION_BREAK : jsstring := str "<<<SECTION>>>".

(** ** Raster encoder (lines 198-217, repeated at 317-337 and 531-551) *)

(** [image.bitmap]: width, height and the RGBA bytes, four per pixel. *)
Record Bitmap := mkBitmap {
  bm_width : Z;
  bm_height : Z;
  bm_data : list Z
}.

(** An element of the pixel buffer as a number: a byte, or [undefined]
    (which arithmetic turns into NaN) past the end of the buffer. *)
Definition data_at (data : list Z) (i : Z) : float :=
  match data !! Z.to_nat i with
  | Some v => PrimFloat.of_uint63 (Uint63.of_Z v)
  | None => nan
  end.

Definition threshold : float := 0.5%float.

(** Lines 204-210: the ink decision for the pixel at column [x], row [y]. *)
Definition isBlack (width : Z) (data : list Z) (x y : Z) : bool :=
  let idx := (y * width + x) * 4 in
  let r := (data_at data idx / 255)%float in
  let g := (data_at data (idx + 1) / 255)%float in
  let b := (data_at data (idx + 2) / 255)%float in
  let a := (data_at data (idx + 3) / 255)%float in
  let lum := (0.2126 * r + 0.7152 * g + 0.0722 * b)%float in
  (threshold <? 1 - lum)%float && (0.1 <? a)%float.

(** [Math.ceil(a / b)] on integers with [b > 0]. *)
Definition Math_ceil_div (a b : Z) : Z := - ((- a) / b).

(** [raster[i] |= v] on a [Uint8Array]: the stored value is reduced to a
    byte; an index outside the array reads [undefined] and stores nothing. *)
Definition or_assign (raster : list Z) (i v : Z) : list Z :=
  match raster !! Z.to_nat i with
  | Some old => <[Z.to_nat i := Z.lor old v mod 256]> raster
  | None => raster
  end.

Definition bytesPerRow_of (width : Z) : Z := Math_ceil_div width 8.

(** Lines 199-217: allocate the zeroed raster and set one bit per ink pixel. *)
Definition packRaster (width height : Z) (data : list Z) : list Z :=
  let bytesPerRow := bytesPerRow_of width in
  let raster := replicate (Z.to_nat (bytesPerRow * height)) 0 in
  for_range height (fun y raster =>
    for_range width (fun x raster =>
      let byteIndex := y * bytesPerRow + Z.shiftr x 3 in
      let bit := 7 - Z.land x 7 in
      if isBlack width data x y
      then or_assign raster byteIndex (Z.shiftl 1 bit)
      else raster) raster) raster.

(** ** Raster command builder (lines 160-178) *)

(** Lines 160-166: one character per byte. *)
Definition bytesToBinaryString (byteArray : list Z) : jsstring :=
  fold_left (fun result b => result ++ String_fromCharCode b) byteArray [].

(** Storing into a [Uint8Array] keeps the low eight bits. *)
Definition to_uint8 (v : Z) : Z := v mod 256.

(** Lines 168-178.  [n & 0xff] and [(n >> 8) & 0xff] read bits 0-7 and 8-15
    of the 32-bit conversion of [n], which are bits 0-7 and 8-15 of [n]. *)
Definition buildRasterImageCommand
    (bitmapBytesPerRow height : Z) (rasterData : list Z) (mode : Z) : jsstring :=
  let xL := Z.land bitmapBytesPerRow 255 in
  let xH := Z.land (Z.shiftr bitmapBytesPerRow 8) 255 in
  let yL := Z.land height 255 in
  let yH := Z.land (Z.shiftr height 8) 255 in
  let header := [29; 118; 48; mode; xL; xH; yL; yH] in
  let payload := map to_uint8 header ++ map to_uint8 rasterData in
  bytesToBinaryString payload.

(** [Buffer.from(s, 'binary')] (lines 664 and 691): the bytes written to
    the spool file, one per code unit, its low eight bits. *)
Definition Buffer_from_binary (s : jsstring) : list Z := map (fun c => c mod 256) s.

(** Lines 198-218: from the prepared bitmap to the raster command. *)
Definition encodeBitmap (bm : Bitmap) : jsstring :=
  let bytesPerRow := bytesPerRow_of (bm_width bm) in
  let raster := packRaster (bm_width bm) (bm_height bm) (bm_data bm) in
  buildRasterImageCommand bytesPerRow (bm_height bm) raster 0.

(** The two bytes of a 16-bit little-endian field, and the value they hold. *)
Definition le16 (n : Z) : list Z := [n mod 256; (n / 256) mod 256].

Definition le16_value (lo hi : Z) : Z := lo + 256 * hi.

(** The bit that a packed raster holds for pixel column [x] of row [y]:
    byte [y * bytesPerRow + x / 8], counted from the most significant bit. *)
Definition raster_bit (bytesPerRow : Z) (raster : list Z) (x y : Z) : bool :=
  match raster !! Z.to_nat (y * bytesPerRow + x / 8) with
  | Some byte => Z.testbit byte (7 - x mod 8)
  | None => false
  end.

Definition is_byte (b : Z) : Prop := 0 <= b < 256.

(** State of the raster when the pixels selected by [processed] have been
    visited by the loops of [packRaster]. *)
Definition raster_inv (width height : Z) (data : list Z)
    (processed : Z -> Z -> bool) (raster : list Z) : Prop :=
  let bpr := bytesPerRow_of width in
  Z.of_nat (length raster) = bpr * height /\
  Forall is_byte raster /\
  forall x y, 0 <= x < 8 * bpr -> 0 <= y < height ->
    raster_bit bpr raster x y = processed x y && isBlack width data x y.

(** The four bytes of the pixel at column [x], row [y], when the buffer
    holds them. *)
Definition pixel_at (width : Z) (data : list Z) (x y : Z) : option (Z * Z * Z * Z) :=
  let idx := (y * width + x) * 4 in
  match data !! Z.to_nat idx, data !! Z.to_nat (idx + 1),
        data !! Z.to_nat (idx + 2), data !! Z.to_nat (idx + 3) with
  | Some r, Some g, Some b, Some a => Some (r, g, b, a)
  | _, _, _, _ => None
  end.

(** The ink rule in the words of the specification: channel values scaled
    to [0, 1], luminance 0.2126 R + 0.7152 G + 0.0722 B, ink when
    1 - luminance exceeds 0.5 and alpha exceeds 0.1. *)
Definition scaled (v : Z) : float := (PrimFloat.of_uint63 (Uint63.of_Z v) / 255)%float.

Definition luminance (R G B : Z) : float :=
  (0.2126 * scaled R + 0.7152 * scaled G + 0.0722 * scaled B)%float.

Definition ink_rule (R G B A : Z) : bool :=
  (0.5 <? 1 - luminance R G B)%float && (0.1 <? scaled A)%float.

(** A [width] by [height] buffer whose pixels all have the same four bytes. *)
Definition solid_image (width height : Z) (r g b a : Z) : list Z :=
  concat (replicate (Z.to_nat (width * height)) [r; g; b; a]).

(** A 10 by 2 sample: black and white opaque pixels, a mid grey, a
    transparent black pixel. *)
Definition sample_pixels : list Z :=
  concat [ [0;0;0;255]; [255;255;255;255]; [0;0;0;255]; [0;0;0;255]; [127;127;127;255];
           [128;128;128;255]; [0;0;0;0]; [0;0;0;25]; [0;0;0;26]; [255;0;0;255];
           [255;255;255;255]; [255;255;255;255]; [255;255;255;255]; [255;255;255;255];
           [255;255;255;255]; [255;255;255;255]; [255;255;255;255]; [0;0;0;255];
           [0;255;0;255]; [0;0;255;255] ].

(** ** QR payload framer (lines 346-356) *)

(** [Buffer.from(s, 'utf8')]: the UTF-8 bytes of a string given by its
    UTF-16 code units.  A surrogate pair encodes one code point in four
    bytes; a surrogate on its own is replaced by U+FFFD. *)
Definition is_high_surrogate (c : Z) : bool := (55296 <=? c) && (c <=? 56319).
Definition is_low_surrogate (c : Z) : bool := (56320 <=? c) && (c <=? 57343).

Definition utf8_code_point (cp : Z) : list Z :=
  if cp <? 128 then [cp]
  else if cp <? 2048 then
    [Z.lor 192 (Z.shiftr cp 6); Z.lor 128 (Z.land cp 63)]
  else if cp <? 65536 then
    [Z.lor 224 (Z.shiftr cp 12); Z.lor 128 (Z.land (Z.shiftr cp 6) 63);
     Z.lor 128 (Z.land cp 63)]
  else
    [Z.lor 240 (Z.shiftr cp 18); Z.lor 128 (Z.land (Z.shiftr cp 12) 63);
     Z.lor 128 (Z.land (Z.shiftr cp 6) 63); Z.lor 128 (Z.land cp 63)].

Fixpoint utf8 (s : jsstring) : list Z :=
  match s with
  | [] => []
  | c :: rest =>
      if is_high_surrogate c then
        match rest with
        | lo :: rest' =>
            if is_low_surrogate lo
            then utf8_code_point (65536 + Z.shiftl (c - 55296) 10 + (lo - 56320)) ++ utf8 rest'
            else utf8_code_point 65533 ++ utf8 rest
        | [] => utf8_code_point 65533
        end
      else if is_low_surrogate c then utf8_code_point 65533 ++ utf8 rest
      else utf8_code_point c ++ utf8 rest
  end.

(** The five sub-commands, as the local constants of [buildEpsonQR]. *)
Definition qr_model : jsstring := GS ++ str "(k" ++ [4; 0; 49; 65; 50; 0].

Definition qr_size (moduleSize : Z) : jsstring :=
  GS ++ str "(k" ++ [3; 0; 49; 67] ++ String_fromCharCode moduleSize.

Definition qr_ec (ecLevel : jsstring) : jsstring :=
  GS ++ str "(k" ++ [3; 0; 49; 69] ++ ecLevel.

Definition qr_store (payload : jsstring) : jsstring :=
  let pL := String_fromCharCode (Z.land (js_length payload + 3) 255) in
  let pH := String_fromCharCode (Z.land (Z.shiftr (js_length payload + 3) 8) 255) in
  GS ++ str "(k" ++ pL ++ pH ++ [49; 80; 48] ++ payload.

Definition qr_print : jsstring := GS ++ str "(k" ++ [3; 0; 49; 81; 48].

(** Lines 346-356; the defaults are [moduleSize = 5] and [ecLevel = '1']. *)
Definition buildEpsonQR (data : jsstring) (moduleSize : Z) (ecLevel : jsstring) : jsstring :=
  let payload := utf8 data in
  qr_model ++ qr_size moduleSize ++ qr_ec ecLevel ++ qr_store payload ++ qr_print.

(** The 16-bit little-endian length field of a [GS ( k] sub-command: the
    two bytes after the three opcode bytes. *)
Definition length_field (cmd : jsstring) : option Z :=
  match cmd with
  | _ :: _ :: _ :: pL :: pH :: _ => Some (le16_value pL pH)
  | _ => None
  end.

(** A payload of 65533 bytes. *)
Definition long_payload : jsstring := replicate (Z.to_nat 65533) 97.

(** ** Layout helpers (lines 102-117) *)

(** [s.padStart(n, filler)] for a one-character filler. *)
Definition padStart_with (s : jsstring) (n : Z) (filler : jsstring) : jsstring :=
  js_repeat filler (n - js_length s) ++ s.

(** Lines 111-117, with the default widths [[8, 24, 12]]. *)
Definition threeCol_widths : Z * Z * Z := (8, 24, 12).

Definition threeCol (col1 col2 col3 : jsstring) (widths : Z * Z * Z) : jsstring :=
  let '(w1, w2, w3) := widths in
  let c1 := padStart col1 w1 in
  let c2 := padEnd col2 w2 in
  let c3 := padStart col3 w3 in
  c1 ++ str " " ++ c2 ++ str " " ++ c3.

(** ** Numbers of the runtime *)

(** An integer as a number; exact for magnitudes up to 2^53. *)
Definition Z2float (z : Z) : float :=
  if z <? 0 then (- PrimFloat.of_uint63 (Uint63.of_Z (- z)))%float
  else PrimFloat.of_uint63 (Uint63.of_Z z).

(** A number is truthy unless it is 0, -0 or NaN. *)
Definition truthy (x : float) : bool := negb (x =? 0)%float && negb (is_nan x).

(** An optional numeric field is truthy when present and truthy. *)
Definition field_truthy (f : option float) : bool :=
  match f with Some x => truthy x | None => false end.

(** [Math.floor]: the greatest integer not above the exact value. *)
Definition Math_floor (x : float) : float :=
  match Prim2SF x with
  | S754_finite s m e =>
      if 0 <=? e then x
      else Z2float (Z.shiftr (if s then Z.neg m else Z.pos m) (- e))
  | _ => x
  end.

(** The integer nearest to the exact value m * 2^e (or its opposite),
    halves going up. *)
Definition round_half_up (s : bool) (m : positive) (e : Z) : Z :=
  if 0 <=? e then (if s then Z.neg m else Z.pos m) * 2 ^ e
  else Z.shiftr (2 * (if s then Z.neg m else Z.pos m) + 2 ^ (- e)) (1 - e).

(** [Math.round]: the nearest integer, halves towards positive infinity;
    a negative value that rounds to zero gives -0. *)
Definition Math_round (x : float) : float :=
  match Prim2SF x with
  | S754_finite s m e =>
      if 0 <=? e then x
      else let k := round_half_up s m e in
           if (k =? 0) && s then (-0)%float else Z2float k
  | _ => x
  end.

(** Decimal digits of a non-negative integer. *)
Definition digits (n : Z) : jsstring :=
  str (NilZero.string_of_uint (N.to_uint (Z.to_N n))).

(** Conversion of a number to a string, for NaN, the infinities and the
    integers below 2^53 in magnitude, which are printed with all their
    digits, and which is all that the compositor prints this way; [None]
    stands for the other numbers (decimal fractions, and the larger
    numbers, of which the shortest digits that identify them are printed),
    which are not modelled. *)
Definition Number_toString (x : float) : option jsstring :=
  match Prim2SF x with
  | S754_nan => Some (str "NaN")
  | S754_infinity s => Some (if s then str "-Infinity" else str "Infinity")
  | S754_zero _ => Some (str "0")
  | S754_finite s m e =>
      let sign := if s then str "-" else [] in
      if 0 <? e then None
      else if Z.pos m mod 2 ^ (- e) =? 0
      then Some (sign ++ digits (Z.pos m / 2 ^ (- e)))
      else None
  end.

(** [x.toFixed(2)]: the integer n nearest to 100 |x| (the larger one on a
    tie), printed with a point before its last two digits.  [None] stands
    for the numbers from 10^21 upwards, printed in exponent notation. *)
Definition toFixed2 (x : float) : option jsstring :=
  match Prim2SF x with
  | S754_nan => Some (str "NaN")
  | S754_infinity s => Some (if s then str "-Infinity" else str "Infinity")
  | S754_zero _ => Some (str "0.00")
  | S754_finite s m e =>
      if (0 <=? e) && (10 ^ 21 <=? Z.pos m * 2 ^ e) then None
      else
        let n := round_half_up false (m * 100) e in
        let text := padStart_with (digits n) 3 (str "0") in
        let k := (length text - 2)%nat in
        Some ((if s then str "-" else []) ++ take k text ++ str "." ++ drop k text)
  end.

(** ** Numeric formatting of the compositor (lines 142-144, 363, 435-448) *)

Record Activity := mkActivity {
  activity_type : option jsstring;
  distance : option float;
  moving_time : option float;
  elapsed_time : option float;
  total_elevation_gain : option float;
  average_heartrate : option float
}.

Definition metersToMiles (meters : float) : float := (meters * 0.000621371)%float.

(** Line 363. *)
Definition distanceMiles (activity : Activity) : float :=
  match distance activity with
  | Some d => if truthy d then metersToMiles d else 0%float
  | None => 0%float
  end.

(** Lines 435 and 461: the distance column. *)
Definition distanceText (activity : Activity) : option jsstring :=
  toFixed2 (distanceMiles activity).

(** Line 439: [activity.moving_time || activity.elapsed_time]. *)
Definition movingTime (activity : Activity) : option float :=
  if field_truthy (moving_time activity) then moving_time activity
  else elapsed_time activity.

(** Lines 441-444, for a positive distance and a truthy time. *)
Definition paceOf (movingTime distanceMiles : float) : option jsstring :=
  let paceMinutes := (movingTime / 60 / distanceMiles)%float in
  let paceMin := Math_floor paceMinutes in
  let paceSec := Math_round ((paceMinutes - paceMin) * 60)%float in
  match Number_toString paceMin, Number_toString paceSec with
  | Some minutes, Some seconds =>
      Some (minutes ++ str ":" ++ padStart_with seconds 2 (str "0") ++ str " min/mi")
  | _, _ => None
  end.

(** Lines 438-445. *)
Definition paceStr (activity : Activity) : option jsstring :=
  match movingTime activity with
  | Some t =>
      if (0 <? distanceMiles activity)%float && truthy t
      then paceOf t (distanceMiles activity)
      else Some (str "N/A")
  | None => Some (str "N/A")
  end.

(** Line 447. *)
Definition heartRate (activity : Activity) : option jsstring :=
  match average_heartrate activity with
  | Some hr =>
      if truthy hr
      then option_map (fun n => n ++ str " bpm") (Number_toString (Math_round hr))
      else Some (str "N/A")
  | None => Some (str "N/A")
  end.

(** Line 448. *)
Definition elevationGain (activity : Activity) : option jsstring :=
  match total_elevation_gain activity with
  | Some gain =>
      if truthy gain
      then option_map (fun n => n ++ str " ft")
             (Number_toString (Math_round (gain * 3.28084)%float))
      else Some (str "N/A")
  | None => Some (str "N/A")
  end.

Definition is_digit (c : Z) : Prop := 48 <= c <= 57.

(** [p] holds of the [count] integers from [k] on. *)
Fixpoint all_from (count : nat) (k : Z) (p : Z -> bool) : bool :=
  match count with
  | O => true
  | S count' => p k && all_from count' (k + 1) p
  end.

(** [String.prototype.toUpperCase] (line 102).  The string is read as a
    sequence of code points, a surrogate pair being one, and each code
    point is replaced by its upper-case mapping, which does not depend on
    its neighbours.  The ASCII letters a-z map to A-Z and the other ASCII
    characters to themselves; the mapping of the other code points is the
    table of the Unicode character database that the runtime carries:
    [unicode_upper] gives, for the code units of a code point, the code
    units of its mapping.  Nothing is assumed about that table. *)
Class UnicodeCase := unicode_upper : jsstring -> jsstring.

Definition is_ascii (c : Z) : bool := (0 <=? c) && (c <? 128).

Definition upper_ascii (c : Z) : Z :=
  if (97 <=? c) && (c <=? 122) then c - 32 else c.

Fixpoint toUpper {table : UnicodeCase} (s : jsstring) : jsstring :=
  match s with
  | [] => []
  | c :: rest =>
      if is_ascii c then upper_ascii c :: toUpper rest
      else
        match rest with
        | d :: rest' =>
            if (55296 <=? c) && (c <=? 56319) && (56320 <=? d) && (d <=? 57343)
            then unicode_upper [c; d] ++ toUpper rest'
            else unicode_upper [c] ++ toUpper rest
        | [] => unicode_upper [c]
        end
  end.

(** Line 362: [activity.type || "RUN"]. *)
Definition activityType (activity : Activity) : jsstring :=
  match activity_type activity with
  | Some (c :: t) => c :: t
  | _ => str "RUN"
  end.

Definition nameIndent : jsstring := js_repeat (str " ") 9.

Definition newline : jsstring := [10].

(** Lines 434-436: the stat line. *)
Definition statLine {table : UnicodeCase} (activity : Activity) : option jsstring :=
  d ← distanceText activity;
  Some (toUpper (threeCol (str "1") (activityType activity) d threeCol_widths) ++ newline).

(** Lines 451-454: the three detail lines. *)
Definition paceLine {table : UnicodeCase} (activity : Activity) : option jsstring :=
  p ← paceStr activity;
  Some (nameIndent ++ toUpper (str "PACE: " ++ p) ++ newline).

Definition heartRateLine {table : UnicodeCase} (activity : Activity) : option jsstring :=
  h ← heartRate activity;
  Some (nameIndent ++ toUpper (str "AVG HEART RATE: " ++ h) ++ newline).

Definition elevationLine {table : UnicodeCase} (activity : Activity) : option jsstring :=
  g ← elevationGain activity;
  Some (nameIndent ++ toUpper (str "ELEVATION GAIN: " ++ g) ++ newline).

(** Lines 460-462: the totals line. *)
Definition totalsLine {table : UnicodeCase} (activity : Activity) : option jsstring :=
  d ← distanceText activity;
  Some (BOLD_ON ++ toUpper (threeCol [] (str "TOTAL MILES") d threeCol_widths)
        ++ BOLD_OFF ++ newline).

(** A number printed with exactly two decimals. *)
Definition two_decimals (s : jsstring) : Prop :=
  exists sign whole frac,
    s = sign ++ whole ++ str "." ++ frac /\
    (sign = [] \/ sign = str "-") /\
    whole <> [] /\ Forall is_digit whole /\
    length frac = 2%nat /\ Forall is_digit frac.




(** A run of one mile in six and a half minutes with 100 m of climbing. *)
Definition sample_activity : Activity :=
  mkActivity (Some (str "Run")) (Some 1609.34%float) (Some 390%float) None
             (Some 100%float) (Some 152.5%float).

(** ** Route renderer (lines 225-344) *)

(** [Math.min] and [Math.max] on numbers: NaN if an argument is NaN, and
    -0 below +0. *)
Definition Math_min (a b : float) : float :=
  if is_nan a || is_nan b then nan
  else if (a <? b)%float then a
  else if (b <? a)%float then b
  else if get_sign a then a else b.

Definition Math_max (a b : float) : float :=
  if is_nan a || is_nan b then nan
  else if (a <? b)%float then b
  else if (b <? a)%float then a
  else if get_sign a then b else a.

Record RoutePoint (num : Type) := mkPoint { lat : num; lng : num }.
Arguments mkPoint {num} _ _.
Arguments lat {num} _.
Arguments lng {num} _.

Record Box (num : Type) := mkBox { minLat : num; maxLat : num; minLng : num; maxLng : num }.
Arguments mkBox {num} _ _ _ _.
Arguments minLat {num} _.
Arguments maxLat {num} _.
Arguments minLng {num} _.
Arguments maxLng {num} _.

Definition svgWidth : Z := 400.
Definition svgHeight : Z := 300.

(** Lines 247-257: the box starts at [route[0]] and grows over every
    point of the route.  The arithmetic is that of binary64 numbers. *)
Definition boundingBox (first : RoutePoint float) (route : list (RoutePoint float))
    : Box float :=
  fold_left
    (fun box point =>
       mkBox (Math_min (minLat box) (lat point)) (Math_max (maxLat box) (lat point))
             (Math_min (minLng box) (lng point)) (Math_max (maxLng box) (lng point)))
    route
    (mkBox (lat first) (lat first) (lng first) (lng first)).

(** Lines 259-261. *)
Definition padding (box : Box float) : float :=
  let latRange := (maxLat box - minLat box)%float in
  let lngRange := (maxLng box - minLng box)%float in
  (Math_max latRange lngRange * 0.1)%float.

(** Lines 263-266. *)
Definition paddedBox (box : Box float) : Box float :=
  let padding := padding box in
  mkBox (minLat box - padding)%float (maxLat box + padding)%float
        (minLng box - padding)%float (maxLng box + padding)%float.

(** Lines 273-274. *)
Definition project_x (box : Box float) (point : RoutePoint float) : float :=
  ((lng point - minLng box) / (maxLng box - minLng box) * Z2float svgWidth)%float.

Definition project_y (box : Box float) (point : RoutePoint float) : float :=
  (Z2float svgHeight
   - (lat point - minLat box) / (maxLat box - minLat box) * Z2float svgHeight)%float.

(** The box the points are projected into. *)
Definition routeBox (route : list (RoutePoint float)) : option (Box float) :=
  match route with
  | [] => None
  | first :: _ => Some (paddedBox (boundingBox first route))
  end.

(** Lines 271-276: the coordinates of the path, the first point after
    [M] and the others after [L]. *)
Definition routePath (route : list (RoutePoint float)) : list (float * float) :=
  match routeBox route with
  | None => []
  | Some box => map (fun point => (project_x box point, project_y box point)) route
  end.

(** The SVG document handed to the rasterizer (lines 278-281): a white
    rectangle of the canvas size under the black path. *)
Record SvgDoc := mkSvg {
  svg_width : Z;
  svg_height : Z;
  svg_path : list (float * float)
}.

Definition route_placeholder : list jsstring :=
  [ALIGN_CENTER; str "[Route visualization]" ++ newline].

Section Renderer.
(** The image libraries are outside the program.  [sharp_render svg] is
    the PNG that [sharp] makes of the SVG file, or [None] when writing the
    file or rendering it throws; [jimp_prepare png maxWidth] is the
    bitmap after Jimp has read the PNG, resized it to at most [maxWidth],
    and applied greyscale and contrast, or [None] when a step throws. *)
Context {Png : Type}.
Variable sharpModule jimpModule : bool.
Variable sharp_render : SvgDoc -> option Png.
Variable jimp_prepare : Png -> Z -> option Bitmap.

(** Lines 225-344.  A route is an array of points with numeric [lat] and
    [lng]; the caught exceptions give the empty string. *)
Definition buildGPSRouteRasterString (route : list (RoutePoint float)) (maxWidth : Z)
    : jsstring :=
  if js_length route <? 2 then []
  else if negb (sharpModule && jimpModule) then []
  else
    let svg := mkSvg svgWidth svgHeight (routePath route) in
    match sharp_render svg with
    | None => []
    | Some pngBuffer =>
        match jimp_prepare pngBuffer maxWidth with
        | None => []
        | Some bitmap => encodeBitmap bitmap
        end
    end.

(** Lines 482-496: what the compositor appends for the route; [None] is
    a missing route. *)
Definition routeBlock (route : option (list (RoutePoint float))) : list jsstring :=
  match route with
  | Some points =>
      if 1 <? js_length points then
        let routeRaster := buildGPSRouteRasterString points 512 in
        if 0 <? js_length routeRaster
        then [ALIGN_CENTER; routeRaster; ALIGN_LEFT; newline]
        else route_placeholder
      else route_placeholder
  | None => route_placeholder
  end.
End Renderer.

(** A rasterizer that paints the white background and strokes nothing, as
    for a path without drawable segments; Jimp keeps a white canvas that is
    not wider than the maximum as it is. *)
Definition white_canvas (svg : SvgDoc) : option Bitmap :=
  Some (mkBitmap (svg_width svg) (svg_height svg)
          (solid_image (svg_width svg) (svg_height svg) 255 255 255 255)).

Definition keep_bitmap (png : Bitmap) (maxWidth : Z) : option Bitmap := Some png.

(** Two points at the same place, and two points a hundred degrees of
    longitude and 1e-17 degrees of latitude apart. *)
Definition same_place : list (RoutePoint float) :=
  [mkPoint 40.7128%float (-74.006)%float; mkPoint 40.7128%float (-74.006)%float].

Definition south_point : RoutePoint float := mkPoint 0%float 0%float.
Definition north_point : RoutePoint float := mkPoint 1e-17%float 100%float.
Definition flat_route : list (RoutePoint float) := [south_point; north_point].

(** ** Transmission scheduler (lines 20-27, 610-718) *)

Inductive PrintMode := mode_off | mode_fast | mode_medium | mode_slow.

(** Lines 22-27. *)
Definition SLOW_PRINT_DELAYS (mode : PrintMode) : Z :=
  match mode with
  | mode_off => 0
  | mode_fast => 50
  | mode_medium => 150
  | mode_slow => 300
  end.

(** Line 20: the mode the program is configured with. *)
Definition SLOW_PRINT_MODE : PrintMode := mode_slow.

Fixpoint starts_with (sep s : jsstring) : bool :=
  match sep, s with
  | [], _ => true
  | a :: sep', b :: s' => (a =? b) && starts_with sep' s'
  | _ :: _, [] => false
  end.

(** [s.split(sep)] for a non-empty separator: the pieces between the
    occurrences of [sep], found from left to right without overlap.
    [skip] counts the characters of a separator still to pass over and
    [piece] is the piece being read. *)
Fixpoint split_go (sep s : jsstring) (skip : nat) (piece : jsstring) : list jsstring :=
  match s with
  | [] => [piece]
  | c :: rest =>
      match skip with
      | S k => split_go sep rest k piece
      | O =>
          if starts_with sep s
          then piece :: split_go sep rest (length sep - 1) []
          else split_go sep rest 0 (piece ++ [c])
      end
  end.

Definition js_split (s sep : jsstring) : list jsstring := split_go sep s 0 [].

(** Line 611. *)
Definition sectionsOf (fullContent : jsstring) : list jsstring :=
  filter (fun s => 0 < js_length s) (js_split fullContent SECTION_BREAK).

(** Line 689: the content with every break removed. *)
Definition cleanContent (fullContent : jsstring) : jsstring :=
  concat (js_split fullContent SECTION_BREAK).

(** Lines 627-633. *)
Definition possiblePrinters : list jsstring :=
  [str "EPSON_TM_T20III"; str "Epson_TM_T20III"; str "TM-T20III"; str "TM-T20"; str "Epson"].

(** What the scheduler does to the outside, with the time in milliseconds
    at which it does it.  [Submit] is the call of [exec] on the [lp]
    command for a spool file with the given content. *)
Inductive event :=
| Submit (index : nat) (printer : option jsstring) (content : jsstring)
| LogSectionError (section : nat)
| LogSectionSent (section : nat)
| LogAllPrinted
| LogPrintError
| LogReceiptSent.

Section Scheduler.
(** The outside of the scheduler: which printer names [lpstat] resolves,
    whether the [lp] command for the submission with a given index fails
    and how long it takes to call back, and how late after its delay the
    timer of that submission fires. *)
Variable lpstat : jsstring -> bool.
Variable exec_error : nat -> bool.
Variable exec_duration : nat -> nat.
Variable timer_lag : nat -> nat.

(** Lines 635-645: the first candidate that resolves. *)
Definition printerName : option jsstring := List.find lpstat possiblePrinters.

Variable sections : list jsstring.
Variable printDelay : Z.

(** Lines 654-683.  The call for [index] writes the spool file and
    submits it; the callback of the submission logs the outcome and sets
    the timer that makes the call for [index + 1].  Writing the spool
    file is taken to succeed, and the removal of the file a second after
    the callback is left out. *)
Equations? printSection (index : nat) (time : Z) : list (Z * event)
    by wf (length sections - index)%nat lt :=
  printSection index time with le_lt_dec (length sections) index => {
    | left _ := [(time, LogAllPrinted)];
    | right _ :=
        let sectionContent := default [] (sections !! index) in
        let called_back := time + Z.of_nat (exec_duration index) in
        (time, Submit index printerName sectionContent)
        :: (called_back,
            if exec_error index then LogSectionError (index + 1)
            else LogSectionSent (index + 1))
        :: printSection (S index)
             (called_back + printDelay + Z.of_nat (timer_lag index)) }.
Proof. lia. Qed.
End Scheduler.

(** Lines 610-718 after composition: paced transmission when the delay
    is positive and there is more than one section, a single submission of
    the whole content otherwise. *)
Definition transmit (lpstat : jsstring -> bool) (exec_error : nat -> bool)
    (exec_duration timer_lag : nat -> nat) (mode : PrintMode) (fullContent : jsstring)
    : list (Z * event) :=
  let sections := sectionsOf fullContent in
  let printDelay := SLOW_PRINT_DELAYS mode in
  if (0 <? printDelay) && (1 <? js_length sections) then
    printSection lpstat exec_error exec_duration timer_lag sections printDelay 0%nat 0
  else
    [(0, Submit 0 (printerName lpstat) (cleanContent fullContent));
     (Z.of_nat (exec_duration 0%nat),
      if exec_error 0%nat then LogPrintError else LogReceiptSent)].

(** The submissions of a trace, in the order of the trace. *)
Fixpoint submissions (trace : list (Z * event)) : list (Z * nat * jsstring) :=
  match trace with
  | [] => []
  | (t, Submit index _ content) :: rest => (t, index, content) :: submissions rest
  | _ :: rest => submissions rest
  end.

(** Consecutive times are at least [gap] apart. *)
Fixpoint spaced (gap : Z) (times : list Z) : Prop :=
  match times with
  | t1 :: ((t2 :: _) as rest) => t1 + gap <= t2 /\ spaced gap rest
  | _ => True
  end.

(** The sections with their indices from [start] on. *)
Fixpoint indexed (start : nat) (sections : list jsstring) : list (nat * jsstring) :=
  match sections with
  | [] => []
  | s :: rest => (start, s) :: indexed (S start) rest
  end.

(** The number of section breaks in a stream. *)
Definition section_breaks (fullContent : jsstring) : Z :=
  js_length (js_split fullContent SECTION_BREAK) - 1.

Definition three_breaks : jsstring :=
  str "A" ++ SECTION_BREAK ++ str "B" ++ SECTION_BREAK ++ str "C" ++ SECTION_BREAK ++ str "D".

Definition two_breaks : jsstring :=
  str "A" ++ SECTION_BREAK ++ str "B" ++ SECTION_BREAK ++ str "C".

(** ** Print service (lines 358-359, 720-723, 727-779) *)

(** The values of the JSON data model. *)
Inductive json :=
| JNull
| JBool (b : bool)
| JNumber (x : float)
| JString (s : jsstring)
| JArray (items : list json)
| JObject (fields : list (jsstring * json)).

(** The outcome of a statement that may throw. *)
Inductive result (A : Type) :=
| Returned (a : A)
| Thrown (message : jsstring).
Arguments Returned {A} _.
Arguments Thrown {A} _.

Definition result_bind {A B : Type} (r : result A) (k : A -> result B) : result B :=
  match r with
  | Returned a => k a
  | Thrown message => Thrown message
  end.

(** [data.key]: the value of the last member named [key] of an object;
    [None] is [undefined], which is what every other value gives for the
    keys read here. *)
Definition get_field (key : jsstring) (data : json) : option json :=
  match data with
  | JObject fields =>
      option_map snd (List.find (fun member => bool_decide (member.1 = key)) (rev fields))
  | _ => None
  end.

(** Truthiness of a value read from the request. *)
Definition js_truthy (v : option json) : bool :=
  match v with
  | None => false
  | Some JNull => false
  | Some (JBool b) => b
  | Some (JNumber x) => truthy x
  | Some (JString s) => 0 <? js_length s
  | Some (JArray _) => true
  | Some (JObject _) => true
  end.

(** [v || null]. *)
Definition or_null (v : option json) : json :=
  match v with
  | Some x => if js_truthy v then x else JNull
  | None => JNull
  end.

Inductive ResponseBody :=
| NoBody
| StatusReady (port : Z)
| PrintJobSent
| ErrorBody (error : jsstring).

Record Response := mkResponse { status : Z; body : ResponseBody }.

Inductive Method := GET | POST | OPTIONS | OtherMethod.

Definition PRINT_SERVER_PORT : Z := 3001.

(** Whether converting a value to a string throws.  The conversion of an
    object calls its [toString] and then its [valueOf]; an object made by
    [JSON.parse] inherits both, and the inherited [toString] returns a
    string, but a member named [toString] hides it, is not callable, as no
    JSON value is, and what [valueOf] returns is not a primitive: a
    TypeError is thrown.  An array is converted by joining the conversions
    of its elements, null apart, and the other values never throw. *)
Fixpoint toString_throws (v : json) : bool :=
  match v with
  | JObject fields => existsb (fun member => bool_decide (member.1 = str "toString")) fields
  | JArray items => existsb toString_throws items
  | _ => false
  end.

(** [activity.name || activity.id] of line 763; [None] is [undefined]. *)
Definition activityLabel (activity : json) : option json :=
  if js_truthy (get_field (str "name") activity)
  then get_field (str "name") activity
  else get_field (str "id") activity.

Definition label_throws (activity : json) : bool :=
  match activityLabel activity with
  | Some label => toString_throws label
  | None => false
  end.

(** Line 763: the template literal converts the label to a string before
    it is logged; the text only goes to the log. *)
Definition announce (activity : json) : result unit :=
  if label_throws activity
  then Thrown (str "Cannot convert object to primitive value")
  else Returned tt.

Section PrintService.
(** The statements between [try] and [catch] of
    [createAndPrintActivityReceipt] (lines 360-719): composition, image
    work, printer discovery and the start of transmission.  They may
    throw at any point; nothing is assumed about them. *)
Variable receipt_statements : json -> json -> json -> result unit.

(** Lines 358-359 and 720-723: whatever the statements throw is caught
    and logged. *)
Definition createAndPrintActivityReceipt (activity route photos : json) : result unit :=
  match receipt_statements activity route photos with
  | Returned _ => Returned tt
  | Thrown _ => Returned tt
  end.

(** Line 755: destructuring throws on [null]. *)
Definition destructure (data : json) : result (option json * option json * option json) :=
  match data with
  | JNull => Thrown (str "Cannot destructure property 'activity' of 'data' as it is null.")
  | _ => Returned (get_field (str "activity") data, get_field (str "route") data,
                   get_field (str "photos") data)
  end.

(** Lines 752-773: [parsed] is the outcome of [JSON.parse(body)]. *)
Definition handlePrint (parsed : result json) : Response :=
  let outcome :=
    result_bind parsed (fun data =>
    result_bind (destructure data) (fun '(activity, route, photos) =>
      if negb (js_truthy activity)
      then Returned (mkResponse 400 (ErrorBody (str "Activity data is required")))
      else
        result_bind (announce (or_null activity)) (fun _ =>
        result_bind
          (createAndPrintActivityReceipt (or_null activity) (or_null route) (or_null photos))
          (fun _ => Returned (mkResponse 200 PrintJobSent))))) in
  match outcome with
  | Returned response => response
  | Thrown message => mkResponse 500 (ErrorBody message)
  end.

(** Lines 728-779: the routes of the server. *)
Definition handleRequest (method : Method) (url : jsstring) (parsed : result json) : Response :=
  match method with
  | OPTIONS => mkResponse 200 NoBody
  | GET =>
      if bool_decide (url = str "/status")
      then mkResponse 200 (StatusReady PRINT_SERVER_PORT)
      else mkResponse 404 (ErrorBody (str "Not found"))
  | POST =>
      if bool_decide (url = str "/print")
      then handlePrint parsed
      else mkResponse 404 (ErrorBody (str "Not found"))
  | OtherMethod => mkResponse 404 (ErrorBody (str "Not found"))
  end.
End PrintService.

(** Receipt statements that always fail, as when no printer and no image
    library is there, and a request for activity 7. *)
Definition failing_statements (activity route photos : json) : result unit :=
  Thrown (str "lp: error").

Definition sample_request : json :=
  JObject [(str "activity", JObject [(str "id", JNumber 7%float); (str "name", JString (str "Run"))])].

Definition null_activity_request : json := JObject [(str "activity", JNull)].

(** Requests whose activity has an object with a member [toString] as its
    name, an array holding such an object as its id, and a plain object as
    its name. *)
Definition unprintable_name_request : json :=
  JObject [(str "activity", JObject [(str "name", JObject [(str "toString", JNumber 1%float)])])].

Definition unprintable_id_request : json :=
  JObject [(str "activity",
            JObject [(str "id", JArray [JNumber 7%float; JObject [(str "toString", JNull)]])])].

Definition object_name_request : json :=
  JObject [(str "activity", JObject [(str "name", JObject [(str "first", JString (str "Run"))])])].

(** ** Text helpers (lines 95, 99-109 and 119-140) *)

Definition LINE_WIDTH : Z := 48.

(** Line 95, for an integer count; the default is 3. *)
Definition FEED (n : Z) : jsstring :=
  ESC ++ str "d" ++ String_fromCharCode (Z.max 0 (Z.min 255 n)).

(** Lines 104-109, for an integer [total]; the default is [LINE_WIDTH]. *)
Definition twoCol (left right : jsstring) (total : Z) : jsstring :=
  let l := left in
  let r := right in
  let space := Z.max 1 (total - js_length l - js_length r) in
  l ++ js_repeat (str " ") space ++ r.

(** The code units that [\s] matches: the white space and the line
    terminators of the language. *)
Definition is_space (c : Z) : bool :=
  ((9 <=? c) && (c <=? 13)) || (c =? 32) || (c =? 160) || (c =? 5760)
  || ((8192 <=? c) && (c <=? 8202)) || (c =? 8232) || (c =? 8233)
  || (c =? 8239) || (c =? 8287) || (c =? 12288) || (c =? 65279).

(** [s.split(/\s+/)]: the pieces between the maximal runs of white space;
    a run at the start or at the end of the string leaves an empty piece
    there.  [in_run] tells that the character before was white space. *)
Fixpoint split_spaces_go (s : jsstring) (piece : jsstring) (in_run : bool) : list jsstring :=
  match s with
  | [] => [piece]
  | c :: rest =>
      if is_space c
      then (if in_run then split_spaces_go rest piece true
            else piece :: split_spaces_go rest [] true)
      else split_spaces_go rest (piece ++ [c]) false
  end.

Definition split_spaces (s : jsstring) : list jsstring := split_spaces_go s [] false.

(** [s.slice(start, end)]; a negative position counts from the end. *)
Definition js_slice (s : jsstring) (start finish : Z) : jsstring :=
  let len := js_length s in
  let from := if start <? 0 then Z.max (len + start) 0 else Z.min start len in
  let to := if finish <? 0 then Z.max (len + finish) 0 else Z.min finish len in
  take (Z.to_nat (to - from)) (drop (Z.to_nat from) s).

(** Lines 129-131: [for (let i = 0; i < w.length; i += width)] from the
    state where the counter is [i].  [fuel] bounds the number of
    iterations; [None] is a loop that has not ended within them. *)
Fixpoint push_slices (fuel : nat) (w : jsstring) (width i : Z) (lines : list jsstring)
    : option (list jsstring) :=
  if i <? js_length w then
    match fuel with
    | O => None
    | S fuel' => push_slices fuel' w width (i + width) (lines ++ [js_slice w i (i + width)])
    end
  else Some lines.

(** Lines 124-136: the body of the loop over the words, on the pair of
    [lines] and [line]. *)
Definition wrap_word (fuel : nat) (width : Z)
    (state : option (list jsstring * jsstring)) (w : jsstring)
    : option (list jsstring * jsstring) :=
  '(lines, line) ← state;
  let sep := if 0 <? js_length line then str " " else [] in
  if js_length (line ++ sep ++ w) <=? width then Some (lines, line ++ sep ++ w)
  else
    let lines := if 0 <? js_length line then lines ++ [line] else lines in
    if width <? js_length w then
      lines ← push_slices fuel w width 0 lines;
      Some (lines, [])
    else Some (lines, w).

(** Lines 119-140, for an integer [width]; the default is [LINE_WIDTH]. *)
Definition wrapText (fuel : nat) (text : jsstring) (width : Z) : option (list jsstring) :=
  let words := split_spaces text in
  '(lines, line) ← fold_left (wrap_word fuel width) words (Some ([], []));
  Some (if 0 <? js_length line then lines ++ [line] else lines).

(** The characters of a text that are not white space. *)
Definition visible (s : jsstring) : jsstring := List.filter (fun c => negb (is_space c)) s.

(** What the loop over the words keeps true: the lines pushed so far are
    not empty and fit, the line being filled fits, and the two hold the
    visible characters of the words read. *)
Definition wrap_inv (width : Z) (done : list jsstring) (state : list jsstring * jsstring) : Prop :=
  Forall (fun l => 1 <= js_length l <= width) state.1 /\
  js_length state.2 <= width /\
  visible (concat state.1 ++ state.2) = concat done.

(** ** Number helpers (lines 146-158) *)

(** [n % d] on numbers: the exact remainder of the division truncated
    towards zero, with the sign of the dividend. *)
Definition js_rem (n d : float) : float :=
  match Prim2SF n, Prim2SF d with
  | S754_nan, _ => nan
  | _, S754_nan => nan
  | S754_infinity _, _ => nan
  | _, S754_zero _ => nan
  | S754_zero _, _ => n
  | S754_finite _ _ _, S754_infinity _ => n
  | S754_finite sn mn en, S754_finite _ md ed =>
      let e := Z.min en ed in
      let r := Z.rem (Z.pos mn * 2 ^ (en - e)) (Z.pos md * 2 ^ (ed - e)) in
      if r =? 0 then (if sn then (-0)%float else 0%float)
      else Z.ldexp (Z2float (if sn then - r else r)) e
  end.

(** Lines 146-154. *)
Definition formatTime (seconds : float) : option jsstring :=
  if negb (truthy seconds) then Some (str "N/A")
  else
    let hours := Math_floor (seconds / 3600)%float in
    let minutes := Math_floor (js_rem seconds 3600 / 60)%float in
    if (0 <? hours)%float then
      h ← Number_toString hours;
      m ← Number_toString minutes;
      Some (h ++ str "h " ++ m ++ str "m")
    else
      m ← Number_toString minutes;
      Some (m ++ str "m").

(** The numbers that [formatTime] computes for [s] whole seconds are the
    integer quotients. *)
Definition formatTime_parts (s : Z) : bool :=
  let seconds := Z2float s in
  let hours := Math_floor (seconds / 3600)%float in
  truthy seconds
  && Leibniz.eqb hours (Z2float (s / 3600))
  && Leibniz.eqb (Math_floor (js_rem seconds 3600 / 60)%float) (Z2float (s mod 3600 / 60))
  && Bool.eqb (0 <? hours)%float (3600 <=? s).

Definition is_digit_char (c : Z) : bool := (48 <=? c) && (c <=? 57).

(** The characters that [\w] matches. *)
Definition is_word_char (c : Z) : bool :=
  is_digit_char c || ((65 <=? c) && (c <=? 90)) || ((97 <=? c) && (c <=? 122)) || (c =? 95).

(** [(\d{3})+(?!\d)] matches at the start of [s]: three digits, and then
    either no digit or the same again. *)
Fixpoint groups_of_three (s : jsstring) : bool :=
  match s with
  | d1 :: d2 :: d3 :: rest =>
      is_digit_char d1 && is_digit_char d2 && is_digit_char d3
      && (negb (match rest with c :: _ => is_digit_char c | [] => false end)
          || groups_of_three rest)
  | _ => false
  end.

(** [\B] between two characters, [None] being an end of the string. *)
Definition not_word_boundary (before after : option Z) : bool :=
  Bool.eqb (from_option is_word_char false before) (from_option is_word_char false after).

(** [s.replace(/\B(?=(\d{3})+(?!\d))/g, ',')]: the pattern matches the
    empty string, at every position where the assertions hold; [before] is
    the character to the left of [s]. *)
Fixpoint replace_with_commas (before : option Z) (s : jsstring) : jsstring :=
  (if not_word_boundary before (head s) && groups_of_three s then str "," else [])
  ++ match s with
     | [] => []
     | c :: rest => c :: replace_with_commas (Some c) rest
     end.

(** Lines 156-158. *)
Definition formatNumber (num : float) : option jsstring :=
  option_map (replace_with_commas None) (Number_toString num).

(** The digits in groups of three counted from the right, a comma
    between two groups: a comma follows a digit when the digits after it
    are a positive multiple of three. *)
Fixpoint thousands (ds : jsstring) : jsstring :=
  match ds with
  | [] => []
  | d :: rest =>
      d :: (if (0 <? js_length rest) && (js_length rest mod 3 =? 0) then str "," else [])
        ++ thousands rest
  end.

(** ** Strings and the stream *)

(** A code unit of a string. *)
Definition is_code_unit (c : Z) : Prop := 0 <= c < 65536.

(** [pieces.join(sep)] (line 610 joins the fragments with the empty
    string). *)
Fixpoint js_join (pieces : list jsstring) (sep : jsstring) : jsstring :=
  match pieces with
  | [] => []
  | p :: rest => p ++ match rest with [] => [] | _ :: _ => sep ++ js_join rest sep end
  end.

(** The text [sep] occurs in [s]. *)
Definition occurs_in (sep s : jsstring) : Prop :=
  exists before after, s = before ++ sep ++ after.

(** No occurrence of the separator begins inside the piece being read. *)
Definition piece_clear (sep piece s : jsstring) : Prop :=
  forall i, (i < length piece)%nat -> starts_with sep (drop i (piece ++ s)) = false.

(** ** Photo block (lines 502-572) *)

(** A photo of the request, taken to be an object: the two sizes of
    [urls] and [unique_id], each a string when present. *)
Record Photo := mkPhoto {
  urls_600 : option jsstring;
  urls_100 : option jsstring;
  unique_id : option jsstring
}.

(** Truthiness of an optional string. *)
Definition string_truthy (s : option jsstring) : bool :=
  match s with
  | Some text => 0 <? js_length text
  | None => false
  end.

(** Line 515: [photo.urls?.['600'] || photo.urls?.['100'] || photo.unique_id]. *)
Definition photoUrl (photo : Photo) : option jsstring :=
  if string_truthy (urls_600 photo) then urls_600 photo
  else if string_truthy (urls_100 photo) then urls_100 photo
  else unique_id photo.

Section Photos.
(** [fetch_bitmap url] is the bitmap that Jimp holds after the response
    to [fetch(url)] was ok and its body was read, resized to at most 400
    pixels of width, greyscaled and contrasted; [None] when the response
    is not ok or one of these steps throws. *)
Variable jimpModule : bool.
Variable fetch_bitmap : jsstring -> option Bitmap.

(** Lines 514-560: what one photo appends. *)
Definition photoFragments (photo : Photo) : list jsstring :=
  match photoUrl photo with
  | Some url =>
      if string_truthy (Some url) && jimpModule then
        match fetch_bitmap url with
        | Some bitmap => [ALIGN_CENTER; encodeBitmap bitmap; ALIGN_LEFT; newline; FEED 1]
        | None => []
        end
      else []
  | None => []
  end.

(** Lines 502-572; [None] is a missing [photos] or one that is no array.
    The heading is in capitals already. *)
Definition photosBlock (photos : option (list Photo)) : list jsstring :=
  match photos with
  | Some (first :: others) =>
      let photos := first :: others in
      let maxPhotos := Z.min (js_length photos) 3 in
      [ALIGN_CENTER; BOLD_ON; str "ACTIVITY PHOTOS" ++ newline; BOLD_OFF; FEED 1]
      ++ concat (map photoFragments (take (Z.to_nat maxPhotos) photos))
      ++ (if maxPhotos <? js_length photos then
            [ALIGN_CENTER;
             str "(+" ++ digits (js_length photos - maxPhotos) ++ str " more photo"
             ++ (if 1 <? js_length photos - maxPhotos then str "s" else [])
             ++ str " on Strava)" ++ newline;
             ALIGN_LEFT]
          else [])
      ++ [FEED 1]
  | _ => []
  end.
End Photos.

(** A fragment that is a raster command: it starts with [GS v 0]. *)
Definition is_raster_command (fragment : jsstring) : bool :=
  starts_with [29; 118; 48] fragment.

(** Four photos, the last without any address, and a photo server that
    answers no request. *)
Definition sample_photos : list Photo :=
  [mkPhoto (Some (str "https://p/1-600")) (Some (str "https://p/1-100")) (Some (str "u1"));
   mkPhoto None (Some (str "https://p/2-100")) (Some (str "u2"));
   mkPhoto (Some []) None (Some (str "u3"));
   mkPhoto None None None].

Definition no_photo_server (url : jsstring) : option Bitmap := None.

(** ** Compositor (lines 32-34, 73-93, 180-223 and 358-610) *)

Definition INIT : jsstring := ESC ++ str "@".
Definition NORMAL_SIZE : jsstring := ESC ++ str "!" ++ String_fromCharCode 0.
Definition ALIGN_RIGHT : jsstring := ESC ++ str "a" ++ String_fromCharCode 2.
Definition FONT_A : jsstring := ESC ++ str "M" ++ String_fromCharCode 0.
Definition FULL_CUT_N3 : jsstring := GS ++ str "V" ++ String_fromCharCode 66 ++ [3].

Definition ENABLE_LOGO : bool := true.
Definition LOGO_MAX_WIDTH : Z := 512.

(** The texts of the activity object: [name], [title], [location_city]
    and [location_country], each a string when present, and [id] as the
    template literal of line 366 prints it. *)
Record ActivityTexts := mkActivityTexts {
  activity_name : option jsstring;
  activity_title : option jsstring;
  location_city : option jsstring;
  location_country : option jsstring;
  activity_id : jsstring
}.

(** [a || b || literal] on optional strings. *)
Definition first_truthy (a b : option jsstring) (literal : jsstring) : jsstring :=
  match a, b with
  | Some (c :: text), _ => c :: text
  | _, Some (c :: text) => c :: text
  | _, _ => literal
  end.

(** Line 360. *)
Definition activityName (texts : ActivityTexts) : jsstring :=
  first_truthy (activity_name texts) (activity_title texts) (str "Untitled Activity").

(** Line 364. *)
Definition location (texts : ActivityTexts) : jsstring :=
  first_truthy (location_city texts) (location_country texts) (str "NEW YORK, NEW YORK").

(** Line 366. *)
Definition activityUrl (texts : ActivityTexts) : jsstring :=
  str "https://www.strava.com/activities/" ++ activity_id texts.

Section Compositor.
(** The outside of the compositor: the image libraries and the
    rasterizer as for the route renderer, whether the logo file exists,
    the logo bitmap after Jimp has read the file, resized it to at most
    the given width, and applied greyscale and contrast ([None] when a
    step throws), and the photo server as for the photo block. *)
Context {Png : Type} {table : UnicodeCase}.
Variable sharpModule jimpModule : bool.
Variable sharp_render : SvgDoc -> option Png.
Variable jimp_prepare : Png -> Z -> option Bitmap.
Variable logo_exists : bool.
Variable jimp_prepare_logo : Z -> option Bitmap.
Variable fetch_bitmap : jsstring -> option Bitmap.

(** Lines 180-223; the caught exceptions give the empty string. *)
Definition buildLogoRasterString (maxWidth : Z) : jsstring :=
  if negb jimpModule then []
  else if negb logo_exists then []
  else
    match jimp_prepare_logo maxWidth with
    | Some bitmap => encodeBitmap bitmap
    | None => []
    end.

(** Lines 370-388: the part before the first break. *)
Definition headerPart : list jsstring :=
  [INIT; ESC ++ str "2"; ALIGN_LEFT; FONT_A; NORMAL_SIZE; FEED 2]
  ++ (if ENABLE_LOGO then
        let logoStr := buildLogoRasterString LOGO_MAX_WIDTH in
        if 0 <? js_length logoStr then [ALIGN_CENTER; logoStr; ALIGN_LEFT; newline] else []
      else []).

(** Lines 392-398. *)
Definition titlePart (texts : ActivityTexts) : list jsstring :=
  [ALIGN_CENTER; BOLD_ON; toUpper (activityName texts) ++ newline; BOLD_OFF; FEED 1].

(** Lines 402-423; [localeDate] is what [toLocaleDateString] returns for
    the start of the activity. *)
Definition placePart (texts : ActivityTexts) (localeDate : jsstring) : list jsstring :=
  let dateTimeStr := toUpper localeDate in
  [ALIGN_CENTER; toUpper (location texts) ++ newline; FEED 1;
   ALIGN_CENTER; toUpper dateTimeStr ++ newline; FEED 1].

(** Lines 427-470; the literals are in capitals already. *)
Definition statsPart (activity : Activity) : option (list jsstring) :=
  let heading :=
    toUpper (threeCol (str "COUNT") (str "TYPE") (str "NO. MILES") threeCol_widths) in
  stat ← statLine activity;
  pace ← paceLine activity;
  heart ← heartRateLine activity;
  elevation ← elevationLine activity;
  totals ← totalsLine activity;
  Some [ALIGN_CENTER; js_repeat (str "-") LINE_WIDTH ++ newline; ALIGN_LEFT; FEED 1;
        BOLD_ON ++ heading ++ BOLD_OFF ++ newline; FEED 1;
        stat;
        pace; heart; elevation; FEED 1;
        ALIGN_CENTER; js_repeat (str "-") LINE_WIDTH ++ newline; ALIGN_LEFT; FEED 1;
        totals; FEED 1;
        ALIGN_RIGHT; str "(STRAVA TAX INCL.)" ++ newline; ALIGN_LEFT; FEED 2].

(** Lines 474-498. *)
Definition routePart (route : option (list (RoutePoint float))) : list jsstring :=
  [ALIGN_CENTER; BOLD_ON; str "RUN ROUTE" ++ newline; BOLD_OFF; FEED 1]
  ++ routeBlock sharpModule jimpModule sharp_render jimp_prepare route
  ++ [FEED 2].

(** Lines 576-585. *)
Definition gratuityPart : list jsstring :=
  [ALIGN_CENTER; BOLD_ON ++ str "SUGGESTED GRATUITY" ++ BOLD_OFF ++ newline; FEED 1;
   ALIGN_LEFT;
   str "          " ++ str "[ ] GIVE SOME KUDOS" ++ newline;
   str "          " ++ str "[ ] SHARE WITH A FRIEND" ++ newline;
   str "          " ++ str "[ ] FOLLOW & TAG @_RE_PETE" ++ newline;
   FEED 2].

(** Lines 589-598. *)
Definition qrPart (texts : ActivityTexts) : list jsstring :=
  [ALIGN_CENTER; str "VIEW ON STRAVA" ++ newline; FEED 1;
   buildEpsonQR (activityUrl texts) 5 (str "1");
   ALIGN_LEFT; FEED 1; ALIGN_CENTER; FEED 2].

(** Lines 602-608. *)
Definition footerPart : list jsstring :=
  [ALIGN_CENTER; str "<< ATHLETE COPY >>" ++ newline; FEED 2;
   FEED 2; INIT; FULL_CUT_N3].

(** The nine parts of the receipt, in the order of the pushes; [None]
    when a number of the statistics is outside what the number formatting
    is modelled for. *)
Definition receiptParts (activity : Activity) (texts : ActivityTexts) (localeDate : jsstring)
    (route : option (list (RoutePoint float))) (photos : option (list Photo))
    : option (list (list jsstring)) :=
  stats ← statsPart activity;
  Some [headerPart; titlePart texts; placePart texts localeDate; stats; routePart route;
        photosBlock jimpModule fetch_bitmap photos; gratuityPart; qrPart texts; footerPart].

(** Lines 368-608: the array [lines], with the breaks pushed at lines
    390, 400, 425, 472, 500, 574, 587 and 600. *)
Definition receiptLines (activity : Activity) (texts : ActivityTexts) (localeDate : jsstring)
    (route : option (list (RoutePoint float))) (photos : option (list Photo))
    : option (list jsstring) :=
  stats ← statsPart activity;
  Some (headerPart ++ [SECTION_BREAK]
        ++ titlePart texts ++ [SECTION_BREAK]
        ++ placePart texts localeDate ++ [SECTION_BREAK]
        ++ stats ++ [SECTION_BREAK]
        ++ routePart route ++ [SECTION_BREAK]
        ++ photosBlock jimpModule fetch_bitmap photos ++ [SECTION_BREAK]
        ++ gratuityPart ++ [SECTION_BREAK]
        ++ qrPart texts ++ [SECTION_BREAK]
        ++ footerPart).
End Compositor.

(** Whether [sep] occurs in [s], by trying every position. *)
Fixpoint occurs_in_b (sep s : jsstring) : bool :=
  starts_with sep s
  || match s with
     | [] => false
     | _ :: rest => occurs_in_b sep rest
     end.

(** The texts of a morning run, and an outside without image libraries,
    logo and photo server. *)
Definition sample_texts : ActivityTexts :=
  mkActivityTexts (Some (str "Morning Run")) None None (Some (str "USA")) (str "7").

Definition no_rasterizer (svg : SvgDoc) : option Bitmap := None.
Definition no_logo (maxWidth : Z) : option Bitmap := None.

(** ** Exact values of binary64 numbers *)

(** Powers of two as rationals. *)
Definition pow2 (e : Z) : Q := Qpower 2 e.

(** The position of an exact value [u] against the integer [shr_m mrs] and
    the round and sticky bits of a shift record: on the integer, below the
    half, on the half, or above it. *)
Definition located (u : Q) (mrs : shr_record) : Prop :=
  let m := inject_Z (shr_m mrs) in
  match shr_r mrs, shr_s mrs with
  | false, false => (u == m)%Q
  | false, true => (m < u /\ u < m + (1 # 2))%Q
  | true, false => (u == m + (1 # 2))%Q
  | true, true => (m + (1 # 2) < u /\ u < m + 1)%Q
  end.

(** The same for a value [v] counted in units of 2^e. *)
Definition loc (v : Q) (mrs : shr_record) (e : Z) : Prop :=
  located (v * pow2 (- e))%Q mrs.


(** The end of [binary_round_aux]: the rounded integer [k] at exponent [E]
    is brought back to 53 digits and packed, or overflows to infinity. *)
Definition pack (k E : Z) : spec_float :=
  let '(mrs, e) := shr_fexp prec emax k E loc_Exact in
  match shr_m mrs with
  | Z0 => S754_zero false
  | Zpos m => if e <=? emax - prec then S754_finite false m e else S754_infinity false
  | Zneg _ => S754_nan
  end.

(** [r] is the binary64 number that round-to-nearest-even gives for the
    exact value [v >= 0]: [v] lies at the recorded position in units of
    2^E, where E is the exponent of the format for the magnitude of [v]. *)
Definition rounds_to (v : Q) (r : spec_float) : Prop :=
  exists mrs E,
    -1074 <= E /\ 0 <= shr_m mrs < 2 ^ 53 /\ (-1074 < E -> 2 ^ 52 <= shr_m mrs) /\
    loc v mrs E /\
    r = pack (round_nearest_even (shr_m mrs) (loc_of_shr_record mrs)) E.

(** The same for a value of either sign; an exact zero gives a zero. *)
Definition srounds_to (v : Q) (r : spec_float) : Prop :=
  ((v == 0)%Q /\ exists s, r = S754_zero s) \/
  ((0 < v)%Q /\ rounds_to v r) \/
  ((v < 0)%Q /\ rounds_to (- v)%Q (SFopp r)).

(** The exact value of a finite number. *)
Definition SF2Q (x : spec_float) : Q :=
  match x with
  | S754_finite s m e => (inject_Z (cond_Zopp s (Z.pos m)) * pow2 e)%Q
  | _ => 0%Q
  end.

Definition is_finite_SF (x : spec_float) : bool :=
  match x with
  | S754_finite _ _ _ | S754_zero _ => true
  | _ => false
  end.

(** The exact value of a number of the program, and the numbers that
    round-to-nearest-even may give for an exact value. *)
Definition exact (x : float) : Q := SF2Q (Prim2SF x).

Definition rounded (v : Q) (x : float) : Prop := srounds_to v (Prim2SF x).

(** Coordinates of magnitude at most 1e300: every geographic coordinate,
    and every other number the projection cannot overflow on. *)
Definition coordinate_bound : float := 1e300.

Definition in_range (x : float) : bool :=
  (- coordinate_bound <=? x)%float && (x <=? coordinate_bound)%float.

Definition point_in_range (p : RoutePoint float) : bool :=
  in_range (lat p) && in_range (lng p).

(** A case table for the examples: e with an acute accent goes to its
    capital, every other code point to itself. *)
Definition sample_case : UnicodeCase :=
  fun code_point => match code_point with [233] => [201] | _ => code_point end.

(** A run named "Cafe run" with the accent and a runner emoji, in Zurich. *)
Definition accented_texts : ActivityTexts :=
  mkActivityTexts (Some (str "Caf" ++ [233] ++ str " run " ++ [55356; 57283])) None
                  (Some (str "Z" ++ [252] ++ str "rich")) None (str "7").

(** ** Proof tools *)

(** Comparisons of the program as facts of arithmetic. *)
Ltac compare_to_Z :=
  repeat match goal with
  | H : (_ <? _) = true |- _ => apply Z.ltb_lt in H
  | H : (_ <? _) = false |- _ => apply Z.ltb_ge in H
  | H : (_ <=? _) = true |- _ => apply Z.leb_le in H
  | H : (_ <=? _) = false |- _ => apply Z.leb_gt in H
  | H : (_ =? _) = true |- _ => apply Z.eqb_eq in H
  | H : (_ =? _) = false |- _ => apply Z.eqb_neq in H
  end.

(** Membership in a list that is written out. *)
Ltac in_list := cbn; repeat first [apply list_elem_of_here | apply list_elem_of_further].

(** An inequality between rationals that are written out. *)
Ltac closed_Qle := apply Qle_bool_iff; vm_compute; reflexivity.

(* ================================================================== *)
(** * Properties *)
(* ================================================================== *)

(** ** Binary64 arithmetic

    The operations of the program round the exact result to the nearest
    binary64 number, ties to even.  This part derives, from the algorithms
    of the library that specify them, that each operation rounds the exact
    value of its result, and that rounding keeps the order. *)

(** *** Powers of two *)

Local Open Scope Q_scope.

Lemma pow2_pos (e : Z) : 0 < pow2 e.
Proof. apply Qpower_0_lt. reflexivity. Qed.

Lemma pow2_add (a b : Z) : pow2 (a + b) == pow2 a * pow2 b.
Proof. apply Qpower_plus. discriminate. Qed.

Lemma pow2_0 : pow2 0 == 1.
Proof. reflexivity. Qed.

Lemma pow2_1 : pow2 1 == 2.
Proof. reflexivity. Qed.

Lemma pow2_m1 : pow2 (-1) == 1 # 2.
Proof. reflexivity. Qed.

Lemma pow2_succ (e : Z) : pow2 (e + 1) == 2 * pow2 e.
Proof. rewrite pow2_add, pow2_1. ring. Qed.

Lemma pow2_pred (e : Z) : pow2 (e - 1) == (1 # 2) * pow2 e.
Proof. unfold Z.sub. rewrite pow2_add, pow2_m1. ring. Qed.

Lemma pow2_opp (e : Z) : pow2 e * pow2 (- e) == 1.
Proof. rewrite <- pow2_add. replace (e + - e)%Z with 0%Z by lia. reflexivity. Qed.

Lemma pow2_le (a b : Z) : (a <= b)%Z -> pow2 a <= pow2 b.
Proof. intros H. apply Qpower_le_compat_l; [exact H|]. discriminate. Qed.

Lemma pow2_lt (a b : Z) : (a < b)%Z -> pow2 a < pow2 b.
Proof.
  intros H. replace b with ((b - a - 1) + (a + 1))%Z by lia.
  rewrite pow2_add, pow2_succ.
  assert (1 <= pow2 (b - a - 1)) by (rewrite <- pow2_0; apply pow2_le; lia).
  pose proof (pow2_pos a). nra.
Qed.

Lemma pow2_inject (e : Z) : (0 <= e)%Z -> pow2 e == inject_Z (2 ^ e).
Proof.
  intros He. pattern e. apply natlike_ind; [reflexivity| |exact He].
  intros x Hx IH. rewrite Z.pow_succ_r by lia. unfold Z.succ.
  rewrite pow2_succ, IH, inject_Z_mult. reflexivity.
Qed.

Local Close Scope Q_scope.

(** *** Digits *)

Local Open Scope Z_scope.

Lemma digits2_pos_bounds (p : positive) :
  2 ^ (Z.pos (digits2_pos p) - 1) <= Z.pos p < 2 ^ Z.pos (digits2_pos p).
Proof.
  induction p as [p IH|p IH|]; cbn [digits2_pos]; [| |cbn; lia];
    rewrite Pos2Z.inj_succ;
    replace (Z.succ (Z.pos (digits2_pos p)) - 1) with (Z.succ (Z.pos (digits2_pos p) - 1)) by lia;
    rewrite !Z.pow_succ_r by lia; lia.
Qed.

Lemma Zdigits2_bounds (m : Z) : 0 < m -> 2 ^ (Zdigits2 m - 1) <= m < 2 ^ Zdigits2 m.
Proof. destruct m as [|p|p]; try lia. intros _. apply digits2_pos_bounds. Qed.

Lemma Zdigits2_nonneg (m : Z) : 0 <= Zdigits2 m.
Proof. destruct m; simpl; lia. Qed.

Lemma Zdigits2_pos (m : Z) : 0 < m -> 0 < Zdigits2 m.
Proof. destruct m; simpl; lia. Qed.

Lemma Zdigits2_le (m d : Z) : 0 <= m -> 0 <= d -> m < 2 ^ d -> Zdigits2 m <= d.
Proof.
  intros Hm Hd Hlt. destruct (Z.eq_dec m 0) as [->|Hnz]; [simpl; lia|].
  destruct (Zdigits2_bounds m ltac:(lia)) as [Hlo _].
  destruct (Z.le_gt_cases (Zdigits2 m) d) as [|Hgt]; [assumption|].
  assert (2 ^ d <= 2 ^ (Zdigits2 m - 1)) by (apply Z.pow_le_mono_r; lia). lia.
Qed.

Lemma Zdigits2_gt (m d : Z) : 0 <= d -> 2 ^ d <= m -> d < Zdigits2 m.
Proof.
  intros Hd Hle. assert (0 < 2 ^ d) by (apply Z.pow_pos_nonneg; lia).
  destruct (Zdigits2_bounds m ltac:(lia)) as [_ Hhi].
  destruct (Z.lt_ge_cases d (Zdigits2 m)) as [|Hge]; [assumption|].
  assert (2 ^ Zdigits2 m <= 2 ^ d) by (apply Z.pow_le_mono_r; lia). lia.
Qed.

(** *** Shifting to the right keeps the position of the exact value *)

Lemma located_ext (u u' : Q) (mrs : shr_record) :
  (u == u')%Q -> located u mrs -> located u' mrs.
Proof.
  intros Hu. unfold located. destruct (shr_r mrs), (shr_s mrs); cbv zeta; rewrite Hu; auto.
Qed.

Lemma located_bounds (u : Q) (mrs : shr_record) :
  located u mrs -> (inject_Z (shr_m mrs) <= u /\ u < inject_Z (shr_m mrs) + 1)%Q.
Proof. unfold located. destruct (shr_r mrs), (shr_s mrs); cbv zeta; lra. Qed.

Lemma located_half (u : Q) (mrs : shr_record) :
  0 <= shr_m mrs -> located u mrs ->
  located (u * (1 # 2))%Q (shr_1 mrs) /\ shr_m (shr_1 mrs) = shr_m mrs / 2.
Proof.
  destruct mrs as [m r s]. cbn [shr_m]. intros Hm.
  destruct m as [|p|p]; [| |lia].
  - destruct r, s; unfold located; cbn [shr_1 shr_m shr_r shr_s orb]; cbv zeta;
      change (inject_Z 0) with 0%Q; intros H; (split; [lra|reflexivity]).
  - destruct p as [p|p|].
    + assert (Hdiv : Z.pos p~1 / 2 = Z.pos p)
        by (symmetry; apply (Z.div_unique _ _ _ 1); lia).
      assert (Hval : (inject_Z (Z.pos p~1) == 2 * inject_Z (Z.pos p) + 1)%Q).
      { rewrite Pos2Z.inj_xI, inject_Z_plus, inject_Z_mult. reflexivity. }
      destruct r, s; unfold located; cbn [shr_1 shr_m shr_r shr_s orb]; cbv zeta;
        rewrite Hval; intros H; (split; [lra|exact (eq_sym Hdiv)]).
    + assert (Hdiv : Z.pos p~0 / 2 = Z.pos p)
        by (symmetry; apply (Z.div_unique _ _ _ 0); lia).
      assert (Hval : (inject_Z (Z.pos p~0) == 2 * inject_Z (Z.pos p))%Q).
      { rewrite Pos2Z.inj_xO, inject_Z_mult. reflexivity. }
      destruct r, s; unfold located; cbn [shr_1 shr_m shr_r shr_s orb]; cbv zeta;
        rewrite Hval; intros H; (split; [lra|exact (eq_sym Hdiv)]).
    + destruct r, s; unfold located; cbn [shr_1 shr_m shr_r shr_s orb]; cbv zeta;
        change (inject_Z 0) with 0%Q; change (inject_Z 1) with 1%Q;
        intros H; (split; [lra|reflexivity]).
Qed.

Lemma shr_1_loc (v : Q) (mrs : shr_record) (e : Z) :
  0 <= shr_m mrs -> loc v mrs e ->
  loc v (shr_1 mrs) (e + 1) /\ shr_m (shr_1 mrs) = shr_m mrs / 2.
Proof.
  intros Hm Hloc. destruct (located_half _ _ Hm Hloc) as [Hl Hs]. split; [|exact Hs].
  unfold loc. eapply located_ext; [|exact Hl].
  replace (- (e + 1)) with (- e - 1) by lia. rewrite pow2_pred. ring.
Qed.

Lemma iter_shr_loc (v : Q) (p : positive) :
  forall mrs e, 0 <= shr_m mrs -> loc v mrs e ->
  loc v (@SpecFloat.iter_pos _ shr_1 p mrs) (e + Z.pos p) /\
  shr_m (@SpecFloat.iter_pos _ shr_1 p mrs) = shr_m mrs / 2 ^ Z.pos p.
Proof.
  induction p as [p IH|p IH|]; intros mrs e Hm Hloc; cbn [SpecFloat.iter_pos].
  - destruct (shr_1_loc v mrs e Hm Hloc) as [H1 E1].
    assert (Hm1 : 0 <= shr_m (shr_1 mrs)) by (rewrite E1; apply Z.div_pos; lia).
    destruct (IH _ _ Hm1 H1) as [H2 E2].
    assert (Hp : 0 < 2 ^ Z.pos p) by (apply Z.pow_pos_nonneg; lia).
    assert (Hm2 : 0 <= shr_m (@SpecFloat.iter_pos _ shr_1 p (shr_1 mrs))) by (rewrite E2; apply Z.div_pos; lia).
    destruct (IH _ _ Hm2 H2) as [H3 E3].
    split.
    + replace (e + Z.pos p~1) with (e + 1 + Z.pos p + Z.pos p) by lia. exact H3.
    + rewrite E3, E2, E1, !Z.div_div by lia. f_equal.
      rewrite <- Z.pow_add_r, <- Z.pow_succ_r by lia. f_equal. lia.
  - destruct (IH _ _ Hm Hloc) as [H2 E2].
    assert (Hp : 0 < 2 ^ Z.pos p) by (apply Z.pow_pos_nonneg; lia).
    assert (Hm2 : 0 <= shr_m (@SpecFloat.iter_pos _ shr_1 p mrs)) by (rewrite E2; apply Z.div_pos; lia).
    destruct (IH _ _ Hm2 H2) as [H3 E3].
    split.
    + replace (e + Z.pos p~0) with (e + Z.pos p + Z.pos p) by lia. exact H3.
    + rewrite E3, E2, !Z.div_div by lia. f_equal.
      rewrite <- Z.pow_add_r by lia. f_equal. lia.
  - destruct (shr_1_loc v mrs e Hm Hloc) as [H1 E1]. split; [exact H1|]. rewrite E1. reflexivity.
Qed.

Lemma shr_loc (v : Q) (mrs : shr_record) (e n : Z) :
  0 <= shr_m mrs -> 0 <= n -> loc v mrs e ->
  snd (shr mrs e n) = e + n /\ loc v (fst (shr mrs e n)) (e + n) /\
  shr_m (fst (shr mrs e n)) = shr_m mrs / 2 ^ n.
Proof.
  intros Hm Hn Hloc. destruct n as [|p|p]; [| |lia]; cbn [shr fst snd].
  - rewrite Z.add_0_r, Z.div_1_r. auto.
  - destruct (iter_shr_loc v p mrs e Hm Hloc) as [H1 E1]. auto.
Qed.

(** *** Rounding to nearest even *)

Lemma fexp_eq (e : Z) : fexp prec emax e = Z.max (e - 53) (-1074).
Proof. reflexivity. Qed.

Lemma shr_m_of_loc (m : Z) (l : SpecFloat.location) : shr_m (shr_record_of_loc m l) = m.
Proof. destruct l as [|[]]; reflexivity. Qed.

Lemma loc_of_record_of_loc (m : Z) (l : SpecFloat.location) :
  loc_of_shr_record (shr_record_of_loc m l) = l.
Proof. destruct l as [|[]]; reflexivity. Qed.

Lemma shr_nonpos (mrs : shr_record) (e n : Z) : n <= 0 -> shr mrs e n = (mrs, e).
Proof. destruct n; try reflexivity. lia. Qed.

Lemma binary_round_aux_sign (m e : Z) (l : SpecFloat.location) :
  binary_round_aux prec emax true m e l = SFopp (binary_round_aux prec emax false m e l).
Proof.
  unfold binary_round_aux. destruct (shr_fexp prec emax m e l) as [mrs' e'].
  destruct (shr_fexp prec emax _ e' loc_Exact) as [mrs'' e''].
  destruct (shr_m mrs''); [reflexivity| |reflexivity].
  destruct (e'' <=? emax - prec); reflexivity.
Qed.

Lemma binary_round_aux_pack (m e : Z) (l : SpecFloat.location) :
  binary_round_aux prec emax false m e l
  = pack (round_nearest_even (shr_m (fst (shr_fexp prec emax m e l)))
            (loc_of_shr_record (fst (shr_fexp prec emax m e l))))
         (snd (shr_fexp prec emax m e l)).
Proof.
  unfold binary_round_aux, pack. destruct (shr_fexp prec emax m e l) as [mrs' e'].
  reflexivity.
Qed.

(** The algorithm of the library rounds as [rounds_to] says, when the
    mantissa it is given has at least the digits of the format. *)
Lemma binary_round_aux_rounds (v : Q) (m e : Z) (l : SpecFloat.location) :
  0 <= m -> e <= fexp prec emax (Zdigits2 m + e) ->
  loc v (shr_record_of_loc m l) e ->
  rounds_to v (binary_round_aux prec emax false m e l).
Proof.
  intros Hm Hpre Hloc. rewrite binary_round_aux_pack. unfold shr_fexp.
  set (d := Zdigits2 m) in *. rewrite fexp_eq in *.
  set (n := Z.max (d + e - 53) (-1074) - e).
  assert (Hn : 0 <= n) by (unfold n; lia).
  pose proof (Zdigits2_nonneg m) as Hd. fold d in Hd.
  destruct (shr_loc v (shr_record_of_loc m l) e n) as (He' & Hloc' & Hm').
  { rewrite shr_m_of_loc. exact Hm. } { exact Hn. } { exact Hloc. }
  rewrite shr_m_of_loc in Hm'.
  set (res := shr (shr_record_of_loc m l) e n) in *.
  exists (fst res), (snd res). rewrite He'.
  assert (Hpn : 0 < 2 ^ n) by (apply Z.pow_pos_nonneg; lia).
  split; [unfold n; lia|]. split; [|split; [|split; [exact Hloc'|reflexivity]]].
  - rewrite Hm'. split; [apply Z.div_pos; lia|].
    apply Z.div_lt_upper_bound; [exact Hpn|].
    destruct (Z.eq_dec m 0) as [->|Hnz]; [lia|].
    destruct (Zdigits2_bounds m ltac:(lia)) as [_ Hhi]. fold d in Hhi.
    rewrite <- Z.pow_add_r by lia.
    assert (2 ^ d <= 2 ^ (n + 53)) by (apply Z.pow_le_mono_r; unfold n; lia). lia.
  - intros HE. rewrite Hm'.
    assert (Hdn : n = d - 53) by (unfold n in *; lia).
    assert (Hmpos : 0 < m).
    { destruct (Z.eq_dec m 0) as [Hz|Hnz]; [|lia]. subst m. unfold d in *. simpl in *. lia. }
    destruct (Zdigits2_bounds m Hmpos) as [Hlo _]. fold d in Hlo.
    apply Z.div_le_lower_bound; [exact Hpn|].
    rewrite <- Z.pow_add_r by lia. replace (n + 52) with (d - 1) by lia. exact Hlo.
Qed.

Lemma round_nearest_even_bounds (mrs : shr_record) :
  shr_m mrs <= round_nearest_even (shr_m mrs) (loc_of_shr_record mrs) <= shr_m mrs + 1.
Proof.
  destruct mrs as [m r s]. destruct r, s; cbn; try lia. destruct (Z.even m); lia.
Qed.

Lemma round_nearest_even_mono (u1 u2 : Q) (mrs1 mrs2 : shr_record) :
  located u1 mrs1 -> located u2 mrs2 -> (u1 <= u2)%Q ->
  round_nearest_even (shr_m mrs1) (loc_of_shr_record mrs1)
  <= round_nearest_even (shr_m mrs2) (loc_of_shr_record mrs2).
Proof.
  intros H1 H2 Hu.
  pose proof (located_bounds _ _ H1) as [L1 U1]. pose proof (located_bounds _ _ H2) as [L2 U2].
  pose proof (round_nearest_even_bounds mrs1) as B1.
  pose proof (round_nearest_even_bounds mrs2) as B2.
  assert (Hle : shr_m mrs1 <= shr_m mrs2).
  { assert (Hlt : shr_m mrs1 < shr_m mrs2 + 1); [|lia].
    rewrite Zlt_Qlt, inject_Z_plus. change (inject_Z 1) with 1%Q. lra. }
  destruct (Z.eq_dec (shr_m mrs1) (shr_m mrs2)) as [Heq|Hne]; [|lia].
  destruct mrs1 as [m1 r1 s1], mrs2 as [m2 r2 s2]. cbn [shr_m] in *. subst m2.
  unfold located in H1, H2. cbn [shr_m shr_r shr_s] in H1, H2.
  destruct r1, s1, r2, s2; cbn [loc_of_shr_record round_nearest_even];
    try lia; try (exfalso; lra); destruct (Z.even m1); lia.
Qed.

(** *** The packed result *)

Lemma pack_spec (k E : Z) :
  -1074 <= E -> 0 <= k <= 2 ^ 53 -> (-1074 < E -> 2 ^ 52 <= k) ->
  (k = 0 /\ pack k E = S754_zero false) \/
  (exists p E', Z.pos p < 2 ^ 53 /\ (-1074 < E' -> 2 ^ 52 <= Z.pos p) /\ -1074 <= E' /\
     ((k = 2 ^ 53 /\ Z.pos p = 2 ^ 52 /\ E' = E + 1) \/ (Z.pos p = k /\ k < 2 ^ 53 /\ E' = E)) /\
     pack k E = if E' <=? 971 then S754_finite false p E' else S754_infinity false).
Proof.
  intros HE Hk Hnorm. unfold pack, shr_fexp. rewrite fexp_eq.
  change (emax - prec) with 971.
  destruct (Z.eq_dec k 0) as [->|Hnz].
  { left. split; [reflexivity|]. cbn [Zdigits2 shr_record_of_loc].
    rewrite shr_nonpos by lia. reflexivity. }
  right. destruct (Z.eq_dec k (2 ^ 53)) as [->|Hne].
  - exists (Z.to_pos (2 ^ 52)), (E + 1).
    split; [reflexivity|]. split; [intros _; cbn; lia|]. split; [lia|].
    split; [left; repeat split|].
    change (Zdigits2 (2 ^ 53)) with 54.
    replace (Z.max (54 + E - 53) (-1074) - E) with 1 by lia.
    reflexivity.
  - destruct k as [|p|p]; [lia| |lia].
    exists p, E. split; [lia|]. split; [exact Hnorm|]. split; [exact HE|].
    split; [right; repeat split; lia|].
    assert (Hd : Zdigits2 (Z.pos p) <= 53) by (apply Zdigits2_le; lia).
    pose proof (Zdigits2_pos (Z.pos p) ltac:(lia)) as Hdpos.
    assert (Hn : Z.max (Zdigits2 (Z.pos p) + E - 53) (-1074) - E <= 0).
    { destruct (Z.eq_dec E (-1074)) as [->|HEne]; [lia|].
      assert (52 < Zdigits2 (Z.pos p)) by (apply Zdigits2_gt; [lia|apply Hnorm; lia]). lia. }
    rewrite shr_nonpos by exact Hn. reflexivity.
Qed.

Lemma SFleb_finite_pos (p1 p2 : positive) (e1 e2 : Z) :
  e1 < e2 \/ (e1 = e2 /\ Z.pos p1 <= Z.pos p2) ->
  SFleb (S754_finite false p1 e1) (S754_finite false p2 e2) = true.
Proof.
  intros H. unfold SFleb, SFcompare.
  destruct (Z.compare_spec e1 e2) as [Heq|Hlt|Hgt]; [|reflexivity|lia].
  fold (Pos.compare p1 p2). destruct (Pos.compare_spec p1 p2); try reflexivity. lia.
Qed.

(** A value at least as large rounds to a number at least as large. *)
Lemma rounds_to_mono (v1 v2 : Q) (r1 r2 : spec_float) :
  rounds_to v1 r1 -> rounds_to v2 r2 -> (v1 <= v2)%Q -> SFleb r1 r2 = true.
Proof.
  intros (mrs1 & E1 & HE1 & Hm1 & Hn1 & Hloc1 & ->) (mrs2 & E2 & HE2 & Hm2 & Hn2 & Hloc2 & ->) Hv.
  unfold loc in Hloc1, Hloc2.
  pose proof (located_bounds _ _ Hloc1) as [L1 U1].
  pose proof (located_bounds _ _ Hloc2) as [L2 U2].
  pose proof (pow2_pos (- E1)) as Pa. pose proof (pow2_pos (- E2)) as Pb.
  assert (Hv2 : (0 <= v2)%Q).
  { assert (0 <= inject_Z (shr_m mrs2))%Q
      by (change 0%Q with (inject_Z 0); rewrite <- Zle_Qle; lia).
    destruct (Qlt_le_dec v2 0) as [Hneg|]; [|assumption]. exfalso.
    assert (v2 * pow2 (- E2) < 0)%Q by nra. lra. }
  assert (HE : E1 <= E2).
  { destruct (Z.le_gt_cases E1 E2) as [|Hgt]; [assumption|]. exfalso.
    assert (Hbig : (inject_Z (2 ^ 52) <= inject_Z (shr_m mrs1))%Q) by (rewrite <- Zle_Qle; lia).
    assert (Hsmall : (inject_Z (shr_m mrs2) + 1 <= inject_Z (2 ^ 53))%Q).
    { change 1%Q with (inject_Z 1). rewrite <- inject_Z_plus, <- Zle_Qle. lia. }
    assert (Hab : (pow2 (- E1) <= (1 # 2) * pow2 (- E2))%Q).
    { rewrite <- pow2_pred. apply pow2_le. lia. }
    change (inject_Z (2 ^ 52)) with 4503599627370496%Q in Hbig.
    change (inject_Z (2 ^ 53)) with 9007199254740992%Q in Hsmall.
    assert (v1 * pow2 (- E1) <= v2 * pow2 (- E1))%Q by (apply Qmult_le_compat_r; lra).
    assert (v2 * pow2 (- E1) <= v2 * ((1 # 2) * pow2 (- E2)))%Q.
    { rewrite !(Qmult_comm v2). apply Qmult_le_compat_r; assumption. }
    lra. }
  set (k1 := round_nearest_even (shr_m mrs1) (loc_of_shr_record mrs1)).
  set (k2 := round_nearest_even (shr_m mrs2) (loc_of_shr_record mrs2)).
  pose proof (round_nearest_even_bounds mrs1) as B1. fold k1 in B1.
  pose proof (round_nearest_even_bounds mrs2) as B2. fold k2 in B2.
  assert (Hk : E1 = E2 -> k1 <= k2).
  { intros Heq. subst E2. apply (round_nearest_even_mono _ _ _ _ Hloc1 Hloc2).
    apply Qmult_le_compat_r; lra. }
  destruct (pack_spec k1 E1 HE1 ltac:(lia) ltac:(lia)) as [[Hz1 ->]|(p1 & E1' & Hp1 & Hq1 & Hr1 & Hc1 & ->)];
    destruct (pack_spec k2 E2 HE2 ltac:(lia) ltac:(lia)) as [[Hz2 ->]|(p2 & E2' & Hp2 & Hq2 & Hr2 & Hc2 & ->)].
  - reflexivity.
  - destruct (E2' <=? 971); reflexivity.
  - exfalso. lia.
  - destruct (Z.leb_spec E1' 971), (Z.leb_spec E2' 971).
    + apply SFleb_finite_pos. lia.
    + reflexivity.
    + exfalso. lia.
    + reflexivity.
Qed.

(** *** Valid numbers and their exact values *)

Lemma valid_finite_inv (s : bool) (m : positive) (e : Z) :
  valid_binary prec emax (S754_finite s m e) = true ->
  -1074 <= e <= 971 /\ Z.pos m < 2 ^ 53 /\ (-1074 < e -> 2 ^ 52 <= Z.pos m).
Proof.
  cbn [valid_binary]. unfold bounded, canonical_mantissa. rewrite fexp_eq.
  change (emax - prec) with 971. intros H. apply andb_prop in H as [Hc He].
  apply Z.eqb_eq in Hc. apply Z.leb_le in He.
  split; [lia|].
  pose proof (digits2_pos_bounds m) as [Hlo Hhi]. split.
  - assert (2 ^ Z.pos (digits2_pos m) <= 2 ^ 53) by (apply Z.pow_le_mono_r; lia). lia.
  - intros Hn. assert (Z.pos (digits2_pos m) = 53) as Hd by lia.
    rewrite Hd in Hlo. exact Hlo.
Qed.

Lemma value_at_exponent (m e : Z) : (inject_Z m * pow2 e * pow2 (- e) == inject_Z m)%Q.
Proof. rewrite <- Qmult_assoc, pow2_opp. ring. Qed.

(** A valid number is the rounding of its own exact value. *)
Lemma exact_rounds (m : positive) (e : Z) :
  valid_binary prec emax (S754_finite false m e) = true ->
  rounds_to (inject_Z (Z.pos m) * pow2 e)%Q (S754_finite false m e).
Proof.
  intros Hv. destruct (valid_finite_inv _ _ _ Hv) as (He & Hm & Hn).
  exists (Build_shr_record (Z.pos m) false false), e. cbn [shr_m loc_of_shr_record round_nearest_even].
  split; [lia|]. split; [lia|]. split; [exact Hn|]. split.
  - unfold loc, located. cbn [shr_m shr_r shr_s]. apply value_at_exponent.
  - destruct (pack_spec (Z.pos m) e ltac:(lia) ltac:(lia) Hn)
      as [[Hz _]|(p & E' & _ & _ & _ & [(Hk & _)|(Hp & _ & ->)] & ->)]; try lia.
    destruct (Z.leb_spec e 971); [|lia]. f_equal. lia.
Qed.

Lemma rounds_to_shape (v : Q) (r : spec_float) :
  rounds_to v r ->
  r = S754_zero false \/ (exists p e, r = S754_finite false p e) \/ r = S754_infinity false.
Proof.
  intros (mrs & E & HE & Hm & Hn & _ & ->).
  pose proof (round_nearest_even_bounds mrs) as B.
  destruct (pack_spec (round_nearest_even (shr_m mrs) (loc_of_shr_record mrs)) E HE
              ltac:(lia) ltac:(lia)) as [[_ ->]|(p & E' & _ & _ & _ & _ & ->)];
    [auto|]. destruct (E' <=? 971); eauto.
Qed.

(** *** The order of the numbers *)

Lemma SFcompare_antisym (a b : spec_float) :
  SFcompare b a = option_map CompOpp (SFcompare a b).
Proof.
  destruct a as [[]|[]| |[] ma ea], b as [[]|[]| |[] mb eb]; try reflexivity;
    cbn [SFcompare option_map]; rewrite (Z.compare_antisym ea eb);
    destruct (ea ?= eb); cbn [CompOpp]; try reflexivity;
    change (Pos.compare_cont Eq mb ma) with (Pos.compare mb ma);
    change (Pos.compare_cont Eq ma mb) with (Pos.compare ma mb);
    rewrite (Pos.compare_antisym ma mb); destruct (ma ?= mb)%positive; reflexivity.
Qed.

Lemma SFcompare_opp (a b : spec_float) :
  SFcompare (SFopp a) (SFopp b) = SFcompare b a.
Proof.
  destruct a as [[]|[]| |[] ma ea], b as [[]|[]| |[] mb eb]; try reflexivity;
    cbn [SFcompare SFopp negb]; rewrite (Z.compare_antisym ea eb);
    destruct (ea ?= eb); cbn [CompOpp]; try reflexivity;
    change (Pos.compare_cont Eq mb ma) with (Pos.compare mb ma);
    change (Pos.compare_cont Eq ma mb) with (Pos.compare ma mb);
    rewrite (Pos.compare_antisym ma mb); destruct (ma ?= mb)%positive; reflexivity.
Qed.

Lemma SFleb_opp (a b : spec_float) : SFleb (SFopp a) (SFopp b) = SFleb b a.
Proof. unfold SFleb. rewrite SFcompare_opp. reflexivity. Qed.

Lemma SFopp_involutive (a : spec_float) : SFopp (SFopp a) = a.
Proof. destruct a as [[]|[]| |[] m e]; reflexivity. Qed.

Lemma SFleb_finite_pos_inv (p1 p2 : positive) (e1 e2 : Z) :
  SFleb (S754_finite false p1 e1) (S754_finite false p2 e2) = true ->
  e1 < e2 \/ (e1 = e2 /\ Z.pos p1 <= Z.pos p2).
Proof.
  unfold SFleb, SFcompare.
  destruct (Z.compare_spec e1 e2) as [Heq|Hlt|Hgt]; [|lia|discriminate].
  fold (Pos.compare p1 p2). destruct (Pos.compare_spec p1 p2); try discriminate; lia.
Qed.

Lemma srounds_to_mono (v1 v2 : Q) (r1 r2 : spec_float) :
  srounds_to v1 r1 -> srounds_to v2 r2 -> (v1 <= v2)%Q -> SFleb r1 r2 = true.
Proof.
  intros [(Hz1 & s1 & ->)|[(Hp1 & H1)|(Hn1 & H1)]] [(Hz2 & s2 & ->)|[(Hp2 & H2)|(Hn2 & H2)]] Hv;
    try (exfalso; lra).
  - reflexivity.
  - destruct (rounds_to_shape _ _ H2) as [->|[(p & e & ->)| ->]]; reflexivity.
  - apply (rounds_to_mono _ _ _ _ H1 H2 Hv).
  - destruct (rounds_to_shape _ _ H1) as [E|[(p & e & E)|E]];
      apply (f_equal SFopp) in E; rewrite SFopp_involutive in E; subst r1; reflexivity.
  - destruct (rounds_to_shape _ _ H1) as [E|[(p & e & E)|E]];
      apply (f_equal SFopp) in E; rewrite SFopp_involutive in E; subst r1;
      destruct (rounds_to_shape _ _ H2) as [->|[(p' & e' & ->)| ->]]; reflexivity.
  - rewrite <- SFleb_opp. apply (rounds_to_mono _ _ _ _ H2 H1). lra.
Qed.

Lemma rounds_to_ext (v v' : Q) (r : spec_float) :
  (v == v')%Q -> rounds_to v r -> rounds_to v' r.
Proof.
  intros Hv (mrs & E & HE & Hm & Hn & Hloc & ->). exists mrs, E.
  repeat (split; [assumption|]). split; [|reflexivity].
  unfold loc in *. eapply located_ext; [|exact Hloc]. rewrite Hv. reflexivity.
Qed.

Lemma srounds_to_ext (v v' : Q) (r : spec_float) :
  (v == v')%Q -> srounds_to v r -> srounds_to v' r.
Proof.
  intros Hv [(Hz & Hs)|[(Hp & Hr)|(Hn & Hr)]].
  - left. split; [lra|exact Hs].
  - right; left. split; [lra|]. apply (rounds_to_ext v); assumption.
  - right; right. split; [lra|]. apply (rounds_to_ext (- v)%Q); [lra|assumption].
Qed.

Lemma mantissa_value_pos (m : positive) (e : Z) : (0 < inject_Z (Z.pos m) * pow2 e)%Q.
Proof.
  apply Qmult_lt_0_compat; [|apply pow2_pos].
  change 0%Q with (inject_Z 0). rewrite <- Zlt_Qlt. lia.
Qed.

Lemma SF2Q_neg (m : positive) (e : Z) :
  (SF2Q (S754_finite true m e) == - (inject_Z (Z.pos m) * pow2 e))%Q.
Proof.
  cbn [SF2Q cond_Zopp]. change (inject_Z (- Z.pos m)) with (- inject_Z (Z.pos m))%Q. ring.
Qed.

Lemma SF2Q_opp (x : spec_float) : (SF2Q (SFopp x) == - SF2Q x)%Q.
Proof.
  destruct x as [s|s| |s m e]; try reflexivity.
  destruct s; cbn [SFopp negb]; [rewrite SF2Q_neg; cbn [SF2Q cond_Zopp]; ring|].
  rewrite SF2Q_neg. reflexivity.
Qed.

(** A valid finite number or zero is the rounding of its exact value. *)
Lemma exact_srounds (x : spec_float) :
  valid_binary prec emax x = true -> is_finite_SF x = true -> srounds_to (SF2Q x) x.
Proof.
  intros Hv Hf. destruct x as [s|s| |s m e]; try discriminate.
  - left. split; [reflexivity|eauto].
  - pose proof (mantissa_value_pos m e) as Hpos. destruct s.
    + pose proof (SF2Q_neg m e) as Hneg. right; right. split; [lra|].
      cbn [SFopp negb]. apply (rounds_to_ext (inject_Z (Z.pos m) * pow2 e)%Q); [lra|].
      apply exact_rounds, Hv.
    + right; left. split; [exact Hpos|]. apply exact_rounds, Hv.
Qed.

Lemma SFcompare_Eq_value (a b : spec_float) :
  SFcompare a b = Some Eq -> is_finite_SF a = true -> is_finite_SF b = true ->
  SF2Q a = SF2Q b.
Proof.
  destruct a as [sa|sa| |sa ma ea], b as [sb|sb| |sb mb eb]; try discriminate;
    try reflexivity; cbn [SFcompare]; intros H _ _.
  - destruct sb; discriminate.
  - destruct sa; discriminate.
  - destruct sa, sb; try discriminate;
      destruct (Z.compare_spec ea eb); try discriminate; subst;
      change (Pos.compare_cont Eq ma mb) with (Pos.compare ma mb) in H;
      destruct (Pos.compare_spec ma mb); try discriminate; subst; reflexivity.
Qed.

(** For valid finite numbers the order is the order of the exact values. *)
Lemma SFleb_value (a b : spec_float) :
  valid_binary prec emax a = true -> valid_binary prec emax b = true ->
  is_finite_SF a = true -> is_finite_SF b = true ->
  (SFleb a b = true <-> (SF2Q a <= SF2Q b)%Q).
Proof.
  intros Hva Hvb Hfa Hfb.
  assert (Hback : forall x y, valid_binary prec emax x = true -> valid_binary prec emax y = true ->
            is_finite_SF x = true -> is_finite_SF y = true ->
            (SF2Q x <= SF2Q y)%Q -> SFleb x y = true).
  { intros x y Hx Hy Hfx Hfy Hle.
    apply (srounds_to_mono (SF2Q x) (SF2Q y)); [apply exact_srounds; assumption..|exact Hle]. }
  split; [|apply Hback; assumption].
  intros Hle. destruct (Qlt_le_dec (SF2Q b) (SF2Q a)) as [Hlt|]; [|assumption]. exfalso.
  assert (Hba : SFleb b a = true) by (apply Hback; try assumption; lra).
  unfold SFleb in Hle, Hba. rewrite (SFcompare_antisym a b) in Hba.
  destruct (SFcompare a b) as [[]|] eqn:Hc; try discriminate.
  rewrite (SFcompare_Eq_value a b Hc Hfa Hfb) in Hlt. lra.
Qed.

(** *** The operations round the exact result *)

Lemma pos_iter_xO (d m : positive) : Z.pos (Pos.iter xO m d) = Z.pos m * 2 ^ Z.pos d.
Proof.
  induction d as [|d IH] using Pos.peano_ind.
  - cbn [Pos.iter]. lia.
  - rewrite Pos.iter_succ, Pos2Z.inj_xO, IH, Pos2Z.inj_succ, Z.pow_succ_r by lia. lia.
Qed.

Lemma shl_align_spec (m : positive) (e e' : Z) :
  snd (shl_align m e e') = Z.min e e' /\
  Z.pos (fst (shl_align m e e')) = Z.pos m * 2 ^ (e - Z.min e e').
Proof.
  unfold shl_align. destruct (e' - e) as [|d|d] eqn:Hd; cbn [fst snd].
  - split; [lia|]. replace (e - Z.min e e') with 0 by lia. lia.
  - split; [lia|]. replace (e - Z.min e e') with 0 by lia. lia.
  - split; [lia|]. rewrite pos_iter_xO. f_equal. f_equal. lia.
Qed.

Lemma Zdigits2_shift (m k : Z) : 0 < m -> 0 <= k -> Zdigits2 (m * 2 ^ k) = Zdigits2 m + k.
Proof.
  intros Hm Hk. destruct (Zdigits2_bounds m Hm) as [Hlo Hhi].
  pose proof (Zdigits2_pos m Hm) as Hd.
  assert (Hp : 0 < 2 ^ k) by (apply Z.pow_pos_nonneg; lia).
  assert (H1 : Zdigits2 (m * 2 ^ k) <= Zdigits2 m + k).
  { apply Zdigits2_le; [nia|lia|]. rewrite Z.pow_add_r by lia. nia. }
  assert (H2 : Zdigits2 m - 1 + k < Zdigits2 (m * 2 ^ k)).
  { apply Zdigits2_gt; [lia|]. rewrite Z.pow_add_r by lia. nia. }
  lia.
Qed.

Lemma shifted_value (m e k : Z) :
  0 <= k -> (inject_Z (m * 2 ^ k) * pow2 (e - k) == inject_Z m * pow2 e)%Q.
Proof.
  intros Hk. rewrite inject_Z_mult, <- (pow2_inject k Hk).
  rewrite <- Qmult_assoc, <- pow2_add. replace (k + (e - k)) with e by lia. reflexivity.
Qed.

Lemma binary_round_sign (m : positive) (e : Z) :
  binary_round prec emax true m e = SFopp (binary_round prec emax false m e).
Proof.
  unfold binary_round. destruct (shl_align m e _) as [mz ez]. apply binary_round_aux_sign.
Qed.

Lemma binary_round_rounds (m : positive) (e : Z) :
  rounds_to (inject_Z (Z.pos m) * pow2 e)%Q (binary_round prec emax false m e).
Proof.
  unfold binary_round.
  set (F := fexp prec emax (Z.pos (digits2_pos m) + e)).
  assert (HF : F = Z.max (Z.pos (digits2_pos m) + e - 53) (-1074)) by reflexivity.
  destruct (shl_align_spec m e F) as [Hs Hm].
  destruct (shl_align m e F) as [mz ez]. cbn [fst snd] in Hs, Hm. rewrite <- Hs in Hm.
  assert (Hk : 0 <= e - ez) by lia.
  apply binary_round_aux_rounds; [lia| |].
  - rewrite Hm, Zdigits2_shift by lia. rewrite fexp_eq.
    change (Zdigits2 (Z.pos m)) with (Z.pos (digits2_pos m)). lia.
  - unfold loc, located. cbn [shr_record_of_loc shr_m shr_r shr_s].
    rewrite Hm. rewrite <- (shifted_value (Z.pos m) e (e - ez) Hk).
    replace (e - (e - ez)) with ez by lia. apply value_at_exponent.
Qed.

Lemma binary_normalize_rounds (M e : Z) :
  srounds_to (inject_Z M * pow2 e)%Q (binary_normalize prec emax M e false).
Proof.
  destruct M as [|p|p]; cbn [binary_normalize].
  - left. split; [change (inject_Z 0) with 0%Q; ring|eauto].
  - right; left. split; [apply mantissa_value_pos|apply binary_round_rounds].
  - pose proof (mantissa_value_pos p e) as Hpos.
    assert (Hneg : (inject_Z (Z.neg p) * pow2 e == - (inject_Z (Z.pos p) * pow2 e))%Q).
    { change (inject_Z (Z.neg p)) with (- inject_Z (Z.pos p))%Q. ring. }
    right; right. split; [lra|].
    rewrite binary_round_sign, SFopp_involutive.
    apply (rounds_to_ext (inject_Z (Z.pos p) * pow2 e)%Q); [lra|apply binary_round_rounds].
Qed.

Lemma aligned_value (s : bool) (m : positive) (e ez : Z) :
  ez <= e ->
  (inject_Z (cond_Zopp s (Z.pos (fst (shl_align m e ez)))) * pow2 ez
   == SF2Q (S754_finite s m e))%Q.
Proof.
  intros Hle. destruct (shl_align_spec m e ez) as [_ Hm]. rewrite Hm.
  replace (Z.min e ez) with ez by lia.
  assert (Hk : 0 <= e - ez) by lia.
  pose proof (shifted_value (Z.pos m) e (e - ez) Hk) as Hv.
  replace (e - (e - ez)) with ez in Hv by lia.
  destruct s; cbn [cond_Zopp SF2Q]; [|exact Hv].
  rewrite !inject_Z_opp. lra.
Qed.

Lemma valid_opp (x : spec_float) : valid_binary prec emax (SFopp x) = valid_binary prec emax x.
Proof. destruct x; reflexivity. Qed.

Lemma finite_opp (x : spec_float) : is_finite_SF (SFopp x) = is_finite_SF x.
Proof. destruct x; reflexivity. Qed.

(** Subtraction and addition of finite numbers. *)
Lemma SFsub_rounds (x y : spec_float) :
  valid_binary prec emax x = true -> valid_binary prec emax y = true ->
  is_finite_SF x = true -> is_finite_SF y = true ->
  srounds_to (SF2Q x - SF2Q y)%Q (SFsub prec emax x y).
Proof.
  intros Hvx Hvy Hfx Hfy.
  destruct x as [sx|sx| |sx mx ex], y as [sy|sy| |sy my ey]; try discriminate.
  - left. split; [cbn [SF2Q]; ring|]. destruct sx, sy; cbn; eauto.
  - change (SFsub prec emax (S754_zero sx) (S754_finite sy my ey))
      with (SFopp (S754_finite sy my ey)).
    apply (srounds_to_ext (SF2Q (SFopp (S754_finite sy my ey)))).
    + rewrite SF2Q_opp. cbn [SF2Q]. ring.
    + apply exact_srounds; [rewrite valid_opp; exact Hvy|reflexivity].
  - change (SFsub prec emax (S754_finite sx mx ex) (S754_zero sy)) with (S754_finite sx mx ex).
    apply (srounds_to_ext (SF2Q (S754_finite sx mx ex))); [cbn [SF2Q]; ring|].
    apply exact_srounds; [exact Hvx|reflexivity].
  - cbn [SFsub]. cbv zeta. eapply srounds_to_ext; [|apply binary_normalize_rounds].
    unfold Z.sub at 1. rewrite inject_Z_plus, inject_Z_opp.
    pose proof (aligned_value sx mx ex (Z.min ex ey) ltac:(lia)) as Hx.
    pose proof (aligned_value sy my ey (Z.min ex ey) ltac:(lia)) as Hy.
    rewrite <- Hx, <- Hy. ring.
Qed.

Lemma SFadd_rounds (x y : spec_float) :
  valid_binary prec emax x = true -> valid_binary prec emax y = true ->
  is_finite_SF x = true -> is_finite_SF y = true ->
  srounds_to (SF2Q x + SF2Q y)%Q (SFadd prec emax x y).
Proof.
  intros Hvx Hvy Hfx Hfy.
  destruct x as [sx|sx| |sx mx ex], y as [sy|sy| |sy my ey]; try discriminate.
  - left. split; [cbn [SF2Q]; ring|]. destruct sx, sy; cbn; eauto.
  - change (SFadd prec emax (S754_zero sx) (S754_finite sy my ey)) with (S754_finite sy my ey).
    apply (srounds_to_ext (SF2Q (S754_finite sy my ey))); [cbn [SF2Q]; ring|].
    apply exact_srounds; [exact Hvy|reflexivity].
  - change (SFadd prec emax (S754_finite sx mx ex) (S754_zero sy)) with (S754_finite sx mx ex).
    apply (srounds_to_ext (SF2Q (S754_finite sx mx ex))); [cbn [SF2Q]; ring|].
    apply exact_srounds; [exact Hvx|reflexivity].
  - cbn [SFadd]. cbv zeta. eapply srounds_to_ext; [|apply binary_normalize_rounds].
    rewrite inject_Z_plus.
    pose proof (aligned_value sx mx ex (Z.min ex ey) ltac:(lia)) as Hx.
    pose proof (aligned_value sy my ey (Z.min ex ey) ltac:(lia)) as Hy.
    rewrite <- Hx, <- Hy. ring.
Qed.

Lemma canonical_digits (s : bool) (m : positive) (e : Z) :
  valid_binary prec emax (S754_finite s m e) = true ->
  e = Z.max (Zdigits2 (Z.pos m) + e - 53) (-1074).
Proof.
  cbn [valid_binary]. unfold bounded, canonical_mantissa. rewrite fexp_eq.
  intros H. apply andb_prop in H as [Hc _]. apply Z.eqb_eq in Hc. symmetry. exact Hc.
Qed.

Lemma Zdigits2_mul (a b : Z) : 0 < a -> 0 < b -> Zdigits2 a + Zdigits2 b - 1 <= Zdigits2 (a * b).
Proof.
  intros Ha Hb. destruct (Zdigits2_bounds a Ha) as [La _]. destruct (Zdigits2_bounds b Hb) as [Lb _].
  pose proof (Zdigits2_pos a Ha). pose proof (Zdigits2_pos b Hb).
  assert (Zdigits2 a - 1 + (Zdigits2 b - 1) < Zdigits2 (a * b)); [|lia].
  apply Zdigits2_gt; [lia|]. rewrite Z.pow_add_r by lia.
  assert (0 < 2 ^ (Zdigits2 a - 1)) by (apply Z.pow_pos_nonneg; lia).
  assert (0 < 2 ^ (Zdigits2 b - 1)) by (apply Z.pow_pos_nonneg; lia). nia.
Qed.

(** A rounded positive value with the sign [s]. *)
Lemma signed_rounds (s : bool) (v : Q) (m e : Z) (l : SpecFloat.location) :
  (0 < v)%Q -> 0 <= m -> e <= fexp prec emax (Zdigits2 m + e) ->
  loc v (shr_record_of_loc m l) e ->
  srounds_to (if s then - v else v)%Q (binary_round_aux prec emax s m e l).
Proof.
  intros Hv Hm Hpre Hloc. pose proof (binary_round_aux_rounds v m e l Hm Hpre Hloc) as Hr.
  destruct s.
  - right; right. split; [lra|]. rewrite binary_round_aux_sign, SFopp_involutive.
    apply (rounds_to_ext v); [lra|exact Hr].
  - right; left. split; assumption.
Qed.

Lemma SFmul_rounds (x y : spec_float) :
  valid_binary prec emax x = true -> valid_binary prec emax y = true ->
  is_finite_SF x = true -> is_finite_SF y = true ->
  srounds_to (SF2Q x * SF2Q y)%Q (SFmul prec emax x y).
Proof.
  intros Hvx Hvy Hfx Hfy.
  destruct x as [sx|sx| |sx mx ex], y as [sy|sy| |sy my ey]; try discriminate;
    try (left; split; [cbn [SF2Q]; ring|cbn; eauto]).
  cbn [SFmul].
  pose proof (mantissa_value_pos (mx * my) (ex + ey)) as Hpos.
  eapply srounds_to_ext; [|apply (signed_rounds (xorb sx sy) _ _ _ _ Hpos)].
  - rewrite Pos2Z.inj_mul, inject_Z_mult.
    destruct sx, sy; cbn [xorb SF2Q cond_Zopp]; rewrite ?inject_Z_opp, pow2_add; ring.
  - lia.
  - pose proof (canonical_digits _ _ _ Hvx) as Hcx. pose proof (canonical_digits _ _ _ Hvy) as Hcy.
    pose proof (Zdigits2_mul (Z.pos mx) (Z.pos my) ltac:(lia) ltac:(lia)) as Hd.
    pose proof (Zdigits2_pos (Z.pos mx) ltac:(lia)). pose proof (Zdigits2_pos (Z.pos my) ltac:(lia)).
    rewrite fexp_eq, Pos2Z.inj_mul. lia.
  - unfold loc, located. cbn [shr_record_of_loc shr_m shr_r shr_s]. apply value_at_exponent.
Qed.

(** The position of a quotient between two integers. *)
Lemma new_location_located (q r m2 : Z) :
  0 <= r < m2 ->
  located (inject_Z q + inject_Z r / inject_Z m2)%Q (shr_record_of_loc q (new_location m2 r)).
Proof.
  intros Hr.
  assert (HM : (0 < inject_Z m2)%Q) by (change 0%Q with (inject_Z 0); rewrite <- Zlt_Qlt; lia).
  set (f := (inject_Z r / inject_Z m2)%Q).
  assert (Hf : (f * inject_Z m2 == inject_Z r)%Q) by (unfold f; field; lra).
  assert (H0 : r = 0 -> (f == 0)%Q).
  { intros ->. unfold f. change (inject_Z 0) with 0%Q. field. lra. }
  assert (Hlt : 2 * r < m2 -> (f < 1 # 2)%Q).
  { intros H. rewrite Zlt_Qlt, inject_Z_mult in H. change (inject_Z 2) with 2%Q in H. nra. }
  assert (Heq : 2 * r = m2 -> (f == 1 # 2)%Q).
  { intros H. apply (f_equal inject_Z) in H. rewrite inject_Z_mult in H.
    change (inject_Z 2) with 2%Q in H. rewrite <- H in Hf.
    assert (0 < inject_Z r)%Q by (rewrite <- H in HM; lra). nra. }
  assert (Hgt : m2 < 2 * r -> (1 # 2 < f)%Q /\ (f < 1)%Q).
  { intros H. rewrite Zlt_Qlt, inject_Z_mult in H. change (inject_Z 2) with 2%Q in H.
    assert (inject_Z r < inject_Z m2)%Q by (rewrite <- Zlt_Qlt; lia). split; nra. }
  assert (Hfpos : 0 < r -> (0 < f)%Q).
  { intros Hp. rewrite Zlt_Qlt in Hp. change (inject_Z 0) with 0%Q in Hp. nra. }
  unfold new_location. destruct (Z.even m2) eqn:Hev.
  - unfold new_location_even. destruct (Z.eqb_spec r 0) as [Hz|Hnz].
    { unfold located; cbn [shr_record_of_loc shr_m shr_r shr_s]. rewrite (H0 Hz). ring. }
    destruct (Z.compare_spec (2 * r) m2) as [H|H|H]; unfold located;
      cbn [shr_record_of_loc shr_m shr_r shr_s].
    + rewrite (Heq H). reflexivity.
    + pose proof (Hlt H) as H2. specialize (Hfpos ltac:(lia)). lra.
    + destruct (Hgt H). lra.
  - unfold new_location_odd. destruct (Z.eqb_spec r 0) as [Hz|Hnz].
    { unfold located; cbn [shr_record_of_loc shr_m shr_r shr_s]. rewrite (H0 Hz). ring. }
    assert (Hodd : 2 * r <> m2).
    { intros H. rewrite <- H, Z.even_mul in Hev. discriminate. }
    destruct (Z.compare_spec (2 * r + 1) m2) as [H|H|H]; unfold located;
      cbn [shr_record_of_loc shr_m shr_r shr_s].
    + pose proof (Hlt ltac:(lia)) as H2. specialize (Hfpos ltac:(lia)). lra.
    + pose proof (Hlt ltac:(lia)) as H2. specialize (Hfpos ltac:(lia)). lra.
    + destruct (Hgt ltac:(lia)). lra.
Qed.

Lemma SFdiv_core_spec (m1 m2 : positive) (e1 e2 : Z) :
  let '(q, e', l) := SFdiv_core_binary prec emax (Z.pos m1) e1 (Z.pos m2) e2 in
  0 <= q /\ e' <= fexp prec emax (Zdigits2 q + e') /\
  loc (inject_Z (Z.pos m1) * pow2 e1 / (inject_Z (Z.pos m2) * pow2 e2))%Q
      (shr_record_of_loc q l) e'.
Proof.
  unfold SFdiv_core_binary. rewrite !fexp_eq.
  set (d1 := Zdigits2 (Z.pos m1)). set (d2 := Zdigits2 (Z.pos m2)).
  set (e' := Z.min (Z.max (d1 + e1 - (d2 + e2) - 53) (-1074)) (e1 - e2)).
  set (s := e1 - e2 - e').
  assert (Hs : 0 <= s) by (unfold s, e'; lia).
  set (m' := match s with Z.pos _ => Z.shiftl (Z.pos m1) s | 0 => Z.pos m1 | Z.neg _ => 0 end).
  assert (Hm' : m' = Z.pos m1 * 2 ^ s).
  { unfold m'. destruct s as [|p|p]; [lia|apply Z.shiftl_mul_pow2; lia|lia]. }
  clearbody m'.
  pose proof (Z_div_mod m' (Z.pos m2) ltac:(lia)) as Hdm.
  destruct (Z.div_eucl m' (Z.pos m2)) as [q r]. destruct Hdm as [Hq Hr].
  assert (Hps : 0 < 2 ^ s) by (apply Z.pow_pos_nonneg; lia).
  assert (Hq0 : 0 <= q) by nia.
  split; [exact Hq0|]. split.
  - rewrite fexp_eq.
    destruct (Zdigits2_bounds (Z.pos m1) ltac:(lia)) as [L1 _]. fold d1 in L1.
    destruct (Zdigits2_bounds (Z.pos m2) ltac:(lia)) as [_ U2]. fold d2 in U2.
    pose proof (Zdigits2_pos (Z.pos m1) ltac:(lia)) as P1. fold d1 in P1.
    pose proof (Zdigits2_pos (Z.pos m2) ltac:(lia)) as P2. fold d2 in P2.
    pose proof (Zdigits2_nonneg q) as Pq.
    assert (Hdq : d1 + s - d2 <= Zdigits2 q).
    { destruct (Z.le_gt_cases (d1 + s - d2) 0) as [|Hbig]; [lia|].
      assert (d1 + s - d2 - 1 < Zdigits2 q); [|lia].
      apply Zdigits2_gt; [lia|].
      assert (Hpow : 2 ^ (d1 + s - d2 - 1) * 2 ^ d2 = 2 ^ (d1 - 1) * 2 ^ s).
      { rewrite <- !Z.pow_add_r by lia. f_equal. lia. }
      assert (0 < 2 ^ (d1 + s - d2 - 1)) by (apply Z.pow_pos_nonneg; lia).
      assert (0 < 2 ^ (d1 - 1)) by (apply Z.pow_pos_nonneg; lia).
      destruct (Z.le_gt_cases (2 ^ (d1 + s - d2 - 1)) q) as [|Hlt]; [assumption|exfalso].
      assert (Z.pos m2 * (q + 1) <= Z.pos m2 * 2 ^ (d1 + s - d2 - 1)) by nia.
      assert (Z.pos m2 * 2 ^ (d1 + s - d2 - 1) < 2 ^ (d1 - 1) * 2 ^ s) by nia.
      nia. }
    unfold s in Hdq. unfold e' at 1. lia.
  - unfold loc. eapply located_ext; [|apply (new_location_located q r (Z.pos m2) Hr)].
    assert (HM : (0 < inject_Z (Z.pos m2))%Q)
      by (change 0%Q with (inject_Z 0); rewrite <- Zlt_Qlt; lia).
    pose proof (pow2_pos e2) as P2. pose proof (pow2_pos (- e')) as P3.
    assert (Hval : (inject_Z m' == inject_Z (Z.pos m2) * inject_Z q + inject_Z r)%Q).
    { rewrite <- inject_Z_mult, <- inject_Z_plus, Hq. reflexivity. }
    assert (Hsh : (inject_Z m' == inject_Z (Z.pos m1) * pow2 s)%Q).
    { rewrite Hm', inject_Z_mult, pow2_inject by lia. reflexivity. }
    assert (Hpw : (pow2 e1 * pow2 (- e') == pow2 s * pow2 e2)%Q).
    { rewrite <- !pow2_add. replace (e1 + - e') with (s + e2) by (unfold s; lia). reflexivity. }
    assert (Hfrac : (inject_Z q + inject_Z r / inject_Z (Z.pos m2)
                     == inject_Z m' / inject_Z (Z.pos m2))%Q).
    { rewrite Hval. field. lra. }
    rewrite Hfrac, Hsh.
    transitivity (inject_Z (Z.pos m1) * (pow2 s * pow2 e2) / (inject_Z (Z.pos m2) * pow2 e2))%Q.
    + field. split; lra.
    + rewrite <- Hpw. field. split; lra.
Qed.

Lemma SFdiv_rounds (x y : spec_float) :
  valid_binary prec emax x = true -> valid_binary prec emax y = true ->
  is_finite_SF x = true ->
  (exists my ey, y = S754_finite false my ey) ->
  srounds_to (SF2Q x / SF2Q y)%Q (SFdiv prec emax x y).
Proof.
  intros Hvx Hvy Hfx (my & ey & ->).
  destruct x as [sx|sx| |sx mx ex]; try discriminate.
  - left. split; [|cbn; eauto]. cbn [SF2Q]. unfold Qdiv. ring.
  - cbn [SFdiv]. pose proof (SFdiv_core_spec mx my ex ey) as Hcore.
    destruct (SFdiv_core_binary prec emax (Z.pos mx) ex (Z.pos my) ey) as [[q e'] l].
    destruct Hcore as (Hq & Hpre & Hloc).
    pose proof (mantissa_value_pos mx ex) as Px. pose proof (mantissa_value_pos my ey) as Py.
    assert (Hpos : (0 < inject_Z (Z.pos mx) * pow2 ex / (inject_Z (Z.pos my) * pow2 ey))%Q).
    { apply Qlt_shift_div_l; [exact Py|]. lra. }
    eapply srounds_to_ext; [|apply (signed_rounds (xorb sx false) _ _ _ _ Hpos Hq Hpre Hloc)].
    destruct sx; cbn [xorb]; [|reflexivity].
    pose proof (pow2_pos ey) as Pe.
    assert (Pm : (0 < inject_Z (Z.pos my))%Q)
      by (change 0%Q with (inject_Z 0); rewrite <- Zlt_Qlt; lia).
    rewrite SF2Q_neg. cbn [SF2Q cond_Zopp]. field. split; lra.
Qed.

(** *** The numbers of the program *)

Lemma SFcompare_refl (x : spec_float) : x <> S754_nan -> SFcompare x x = Some Eq.
Proof.
  destruct x as [[]|[]| |[] m e]; try reflexivity; try congruence; intros _;
    cbn [SFcompare]; rewrite Z.compare_refl;
    change (Pos.compare_cont Eq m m) with (Pos.compare m m); rewrite Pos.compare_refl; reflexivity.
Qed.

Lemma is_nan_spec (x : float) : is_nan x = true <-> Prim2SF x = S754_nan.
Proof.
  unfold is_nan. rewrite FloatAxioms.eqb_spec. unfold SFeqb. split.
  - intros H. destruct (Prim2SF x) as [s|s| |s m e] eqn:E; [| |reflexivity|];
      rewrite SFcompare_refl in H by discriminate; discriminate.
  - intros ->. reflexivity.
Qed.

Lemma is_finite_spec (x : float) : is_finite x = is_finite_SF (Prim2SF x).
Proof.
  unfold is_finite, is_nan, is_infinity.
  rewrite !FloatAxioms.eqb_spec, FloatAxioms.abs_spec.
  change (Prim2SF infinity) with (S754_infinity false). unfold SFeqb.
  destruct (Prim2SF x) as [s|s| |s m e] eqn:E; try reflexivity.
  - destruct s; reflexivity.
  - rewrite SFcompare_refl by discriminate. reflexivity.
Qed.

Lemma rounded_exact (x : float) : is_finite x = true -> rounded (exact x) x.
Proof.
  rewrite is_finite_spec. intros Hf. apply exact_srounds; [apply FloatAxioms.Prim2SF_valid|exact Hf].
Qed.

Lemma rounded_sub (a b : float) :
  is_finite a = true -> is_finite b = true -> rounded (exact a - exact b)%Q (a - b)%float.
Proof.
  rewrite !is_finite_spec. intros Ha Hb. unfold rounded. rewrite FloatAxioms.sub_spec.
  apply SFsub_rounds; try assumption; apply FloatAxioms.Prim2SF_valid.
Qed.

Lemma rounded_add (a b : float) :
  is_finite a = true -> is_finite b = true -> rounded (exact a + exact b)%Q (a + b)%float.
Proof.
  rewrite !is_finite_spec. intros Ha Hb. unfold rounded. rewrite FloatAxioms.add_spec.
  apply SFadd_rounds; try assumption; apply FloatAxioms.Prim2SF_valid.
Qed.

Lemma rounded_mul (a b : float) :
  is_finite a = true -> is_finite b = true -> rounded (exact a * exact b)%Q (a * b)%float.
Proof.
  rewrite !is_finite_spec. intros Ha Hb. unfold rounded. rewrite FloatAxioms.mul_spec.
  apply SFmul_rounds; try assumption; apply FloatAxioms.Prim2SF_valid.
Qed.

Lemma rounded_div (a d : float) :
  is_finite a = true -> is_finite d = true -> (0 < exact d)%Q ->
  rounded (exact a / exact d)%Q (a / d)%float.
Proof.
  rewrite !is_finite_spec. intros Ha Hd Hpos. unfold rounded. rewrite FloatAxioms.div_spec.
  apply SFdiv_rounds; try assumption; try apply FloatAxioms.Prim2SF_valid.
  unfold exact in Hpos. destruct (Prim2SF d) as [s|s| |s m e]; try discriminate Hd.
  - exfalso. cbn [SF2Q] in Hpos. lra.
  - destruct s; [|eauto]. exfalso.
    pose proof (SF2Q_neg m e). pose proof (mantissa_value_pos m e). lra.
Qed.

Lemma rounded_mono (v1 v2 : Q) (x y : float) :
  rounded v1 x -> rounded v2 y -> (v1 <= v2)%Q -> (x <=? y)%float = true.
Proof. intros H1 H2 Hv. rewrite FloatAxioms.leb_spec. apply (srounds_to_mono v1 v2); assumption. Qed.

Lemma fle_exact (a b : float) :
  is_finite a = true -> is_finite b = true ->
  ((a <=? b)%float = true <-> (exact a <= exact b)%Q).
Proof.
  rewrite !is_finite_spec, FloatAxioms.leb_spec. intros Ha Hb.
  apply SFleb_value; try assumption; apply FloatAxioms.Prim2SF_valid.
Qed.

Lemma SFltb_not_leb (a b : spec_float) :
  a <> S754_nan -> b <> S754_nan -> SFltb a b = negb (SFleb b a).
Proof.
  intros Ha Hb. unfold SFltb, SFleb. rewrite (SFcompare_antisym a b).
  destruct a as [[]|[]| |[] ma ea], b as [[]|[]| |[] mb eb]; try congruence; try reflexivity;
    cbn [SFcompare option_map]; destruct (ea ?= eb); try reflexivity;
    destruct (Pos.compare_cont Eq ma mb); reflexivity.
Qed.

Lemma finite_not_nan (x : spec_float) : is_finite_SF x = true -> x <> S754_nan.
Proof. destruct x; discriminate. Qed.

Lemma flt_exact (a b : float) :
  is_finite a = true -> is_finite b = true ->
  ((a <? b)%float = true <-> (exact a < exact b)%Q).
Proof.
  intros Ha Hb. pose proof (fle_exact b a Hb Ha) as Hle.
  rewrite !is_finite_spec in *. rewrite FloatAxioms.ltb_spec.
  rewrite SFltb_not_leb by (apply finite_not_nan; assumption).
  rewrite FloatAxioms.leb_spec in Hle.
  destruct (SFleb (Prim2SF b) (Prim2SF a)); cbn [negb]; split; intros H; try discriminate.
  - exfalso. apply (Qlt_not_le _ _ H). apply Hle. reflexivity.
  - apply Qnot_le_lt. intros Hc. apply Hle in Hc. discriminate.
  - reflexivity.
Qed.

Lemma SF_between_finite (lo x hi : spec_float) :
  is_finite_SF lo = true -> is_finite_SF hi = true ->
  SFleb lo x = true -> SFleb x hi = true -> is_finite_SF x = true.
Proof.
  destruct lo as [[]|[]| |[] ml el], hi as [[]|[]| |[] mh eh], x as [[]|[]| |[] m e];
    try discriminate; reflexivity.
Qed.

(** A result whose exact value lies between two finite numbers is finite
    and lies between them. *)
Lemma rounded_between (v : Q) (x lo hi : float) :
  rounded v x -> is_finite lo = true -> is_finite hi = true ->
  (exact lo <= v)%Q -> (v <= exact hi)%Q ->
  is_finite x = true /\ (exact lo <= exact x)%Q /\ (exact x <= exact hi)%Q.
Proof.
  intros Hr Hlo Hhi Hl Hh.
  pose proof (rounded_mono _ _ _ _ (rounded_exact lo Hlo) Hr Hl) as H1.
  pose proof (rounded_mono _ _ _ _ Hr (rounded_exact hi Hhi) Hh) as H2.
  assert (Hx : is_finite x = true).
  { rewrite is_finite_spec in *. rewrite FloatAxioms.leb_spec in H1, H2.
    apply (SF_between_finite _ _ _ Hlo Hhi H1 H2). }
  split; [exact Hx|]. split; [apply fle_exact|apply fle_exact]; assumption.
Qed.

Lemma exact_zero : exact 0 = 0%Q.
Proof. reflexivity. Qed.

Lemma finite_not_nan_float (x : float) : is_finite x = true -> is_nan x = false.
Proof. unfold is_finite. destruct (is_nan x); [discriminate|reflexivity]. Qed.

(** ** Loops *)

Lemma for_range_ind {St : Type} (Inv : Z -> St -> Prop) (n : Z) body (s : St) :
  Inv 0 s ->
  (forall i acc, 0 <= i < n -> Inv i acc -> Inv (i + 1) (body i acc)) ->
  Inv (Z.max 0 n) (for_range n body s).
Proof.
  intros H0 Hstep. unfold for_range.
  assert (Hgen : forall k, (k <= Z.to_nat n)%nat ->
            Inv (Z.of_nat k) (fold_left (fun acc i => body (Z.of_nat i) acc) (seq 0 k) s)).
  { induction k as [|k IH]; intros Hk; [exact H0|].
    rewrite seq_S, fold_left_app. simpl.
    replace (Z.of_nat (S k)) with (Z.of_nat k + 1) by lia.
    apply Hstep; [lia|]. apply IH. lia. }
  replace (Z.max 0 n) with (Z.of_nat (Z.to_nat n)) by lia.
  apply Hgen. lia.
Qed.

(** ** Raster encoder *)

Lemma bytesPerRow_of_bounds (width : Z) :
  8 * (bytesPerRow_of width - 1) < width <= 8 * bytesPerRow_of width.
Proof.
  unfold bytesPerRow_of, Math_ceil_div.
  pose proof (Z.div_mod (- width) 8 ltac:(lia)).
  pose proof (Z.mod_pos_bound (- width) 8 ltac:(lia)). lia.
Qed.

Lemma byte_index_inj (bpr x y x' y' : Z) :
  0 <= x < 8 * bpr -> 0 <= x' < 8 * bpr -> 0 <= y -> 0 <= y' ->
  y * bpr + x / 8 = y' * bpr + x' / 8 -> y = y' /\ x / 8 = x' / 8.
Proof.
  intros Hx Hx' Hy Hy' Heq.
  assert (0 <= x / 8 < bpr) by (split; [apply Z.div_pos; lia | apply Z.div_lt_upper_bound; lia]).
  assert (0 <= x' / 8 < bpr) by (split; [apply Z.div_pos; lia | apply Z.div_lt_upper_bound; lia]).
  assert (y = y') by nia. subst. lia.
Qed.

Lemma testbit_set_bit (old b b' : Z) :
  0 <= b -> 0 <= b' < 8 ->
  Z.testbit (Z.lor old (Z.shiftl 1 b) mod 256) b' = Z.testbit old b' || (b =? b').
Proof.
  intros Hb Hb'. change 256 with (2 ^ 8).
  rewrite Z.mod_pow2_bits_low by lia.
  rewrite Z.lor_spec, Z.shiftl_1_l, Z.pow2_bits_eqb by lia. reflexivity.
Qed.

Lemma or_assign_length raster i v : length (or_assign raster i v) = length raster.
Proof. unfold or_assign. destruct (raster !! Z.to_nat i); [apply length_insert|reflexivity]. Qed.

Lemma or_assign_bytes raster i v : Forall is_byte raster -> Forall is_byte (or_assign raster i v).
Proof.
  intros H. unfold or_assign. destruct (raster !! Z.to_nat i); [|exact H].
  apply Forall_insert; [exact H|]. unfold is_byte. apply Z.mod_pos_bound. lia.
Qed.

(** Setting the bit of pixel [(x, y)] changes that pixel's bit and no other. *)
Lemma raster_bit_or_assign (bpr : Z) (raster : list Z) (x y x' y' : Z) :
  0 <= x < 8 * bpr -> 0 <= x' < 8 * bpr -> 0 <= y -> 0 <= y' ->
  y * bpr + x / 8 < Z.of_nat (length raster) ->
  raster_bit bpr (or_assign raster (y * bpr + Z.shiftr x 3) (Z.shiftl 1 (7 - Z.land x 7))) x' y'
  = raster_bit bpr raster x' y' || ((x' =? x) && (y' =? y)).
Proof.
  intros Hx Hx' Hy Hy' Hlen.
  rewrite (Z.shiftr_div_pow2 x 3) by lia. change (2 ^ 3) with 8.
  change 7 with (Z.ones 3) at 2. rewrite Z.land_ones by lia. change (2 ^ 3) with 8.
  pose proof (Z.mod_pos_bound x 8 ltac:(lia)) as Hm.
  pose proof (Z.mod_pos_bound x' 8 ltac:(lia)) as Hm'.
  assert (0 <= x / 8) by (apply Z.div_pos; lia).
  assert (0 <= x' / 8) by (apply Z.div_pos; lia).
  unfold raster_bit, or_assign.
  destruct (raster !! Z.to_nat (y * bpr + x / 8)) as [old|] eqn:Hold.
  2:{ apply lookup_ge_None in Hold. nia. }
  destruct (decide (y' * bpr + x' / 8 = y * bpr + x / 8)) as [Heq|Hne].
  - rewrite Heq, list_lookup_insert_eq by (apply lookup_lt_Some in Hold; exact Hold).
    rewrite Hold. rewrite testbit_set_bit by lia. f_equal.
    apply byte_index_inj in Heq; [|lia..]. destruct Heq as [-> Hdiv].
    rewrite Z.eqb_refl, andb_true_r.
    pose proof (Z.div_mod x 8 ltac:(lia)). pose proof (Z.div_mod x' 8 ltac:(lia)).
    destruct (Z.eqb_spec (7 - x mod 8) (7 - x' mod 8)), (Z.eqb_spec x' x); try reflexivity; lia.
  - rewrite list_lookup_insert_ne by nia.
    destruct (Z.eqb_spec x' x), (Z.eqb_spec y' y); subst; try congruence;
      simpl; rewrite ?orb_false_r; reflexivity.
Qed.

Lemma raster_inv_ext width height data (p q : Z -> Z -> bool) raster :
  (forall x y, 0 <= x < 8 * bytesPerRow_of width -> 0 <= y < height -> p x y = q x y) ->
  raster_inv width height data p raster -> raster_inv width height data q raster.
Proof.
  intros Hpq (Hlen & Hbytes & Hbits). repeat split; try assumption.
  intros x y Hx Hy. rewrite <- Hpq by assumption. apply Hbits; assumption.
Qed.

Lemma raster_inv_init width height data :
  0 <= width -> 0 <= height ->
  raster_inv width height data (fun _ _ => false)
    (replicate (Z.to_nat (bytesPerRow_of width * height)) 0).
Proof.
  intros Hw Hh. pose proof (bytesPerRow_of_bounds width) as Hb.
  repeat split.
  - rewrite length_replicate. nia.
  - apply Forall_replicate. unfold is_byte. lia.
  - intros x y _ _. unfold raster_bit. simpl.
    destruct (replicate _ 0 !! _) as [b|] eqn:E; [|reflexivity].
    apply lookup_replicate in E as [-> _]. apply Z.bits_0.
Qed.

(** One iteration of the inner loop, at pixel [(x0, y0)]. *)
Lemma raster_inv_step width height data (p : Z -> Z -> bool) raster x0 y0 :
  0 <= x0 < width -> 0 <= y0 < height ->
  raster_inv width height data p raster ->
  raster_inv width height data (fun x y => p x y || ((x =? x0) && (y =? y0)))
    (if isBlack width data x0 y0
     then or_assign raster (y0 * bytesPerRow_of width + Z.shiftr x0 3)
            (Z.shiftl 1 (7 - Z.land x0 7))
     else raster).
Proof.
  intros Hx0 Hy0 (Hlen & Hbytes & Hbits).
  pose proof (bytesPerRow_of_bounds width) as Hb.
  destruct (isBlack width data x0 y0) eqn:Hink.
  - repeat split.
    + rewrite or_assign_length. exact Hlen.
    + apply or_assign_bytes, Hbytes.
    + intros x y Hx Hy.
      assert (0 <= x0 / 8 < bytesPerRow_of width)
        by (split; [apply Z.div_pos; lia | apply Z.div_lt_upper_bound; lia]).
      rewrite raster_bit_or_assign by (try lia; nia).
      rewrite Hbits by assumption.
      destruct (Z.eqb_spec x x0), (Z.eqb_spec y y0); subst; simpl;
        rewrite ?orb_false_r, ?Hink, ?orb_true_r; reflexivity.
  - repeat split; try assumption.
    intros x y Hx Hy. rewrite Hbits by assumption.
    destruct (Z.eqb_spec x x0), (Z.eqb_spec y y0); subst; simpl;
      rewrite ?orb_false_r, ?Hink, ?andb_false_r; reflexivity.
Qed.

(** The packed raster once both loops have run. *)
Lemma packRaster_inv width height data :
  0 <= width -> 0 <= height ->
  raster_inv width height data (fun x _ => x <? width) (packRaster width height data).
Proof.
  intros Hw Hh. unfold packRaster.
  set (bpr := bytesPerRow_of width).
  pose (outer := fun (y0 : Z) (r : list Z) =>
    raster_inv width height data (fun x y => (y <? y0) && (x <? width)) r).
  assert (Hout : outer (Z.max 0 height)
    (for_range height (fun y raster =>
       for_range width (fun x raster =>
         if isBlack width data x y
         then or_assign raster (y * bpr + Z.shiftr x 3) (Z.shiftl 1 (7 - Z.land x 7))
         else raster) raster)
       (replicate (Z.to_nat (bpr * height)) 0))).
  { apply for_range_ind.
    - unfold outer. eapply raster_inv_ext; [|apply raster_inv_init; assumption].
      intros x y _ Hy. simpl. destruct (Z.ltb_spec y 0); [lia|reflexivity].
    - intros y0 acc Hy0 Hacc. unfold outer in *.
      pose (inner := fun (x0 : Z) (r : list Z) =>
        raster_inv width height data
          (fun x y => ((y <? y0) && (x <? width)) || ((y =? y0) && (x <? x0))) r).
      assert (Hin : inner (Z.max 0 width)
        (for_range width (fun x raster =>
           if isBlack width data x y0
           then or_assign raster (y0 * bpr + Z.shiftr x 3) (Z.shiftl 1 (7 - Z.land x 7))
           else raster) acc)).
      { apply for_range_ind.
        - unfold inner. eapply raster_inv_ext; [|exact Hacc].
          intros x y Hx Hy. simpl.
          destruct (Z.ltb_spec x 0); [lia|]. rewrite andb_false_r, orb_false_r. reflexivity.
        - intros x0 r Hx0 Hr. unfold inner in *.
          eapply raster_inv_ext; [|apply raster_inv_step; [exact Hx0|exact Hy0|exact Hr]].
          intros x y Hx Hy. simpl.
          destruct (Z.ltb_spec y y0), (Z.ltb_spec x width), (Z.eqb_spec y y0),
            (Z.ltb_spec x x0), (Z.eqb_spec x x0), (Z.ltb_spec x (x0 + 1));
            simpl; try reflexivity; lia. }
      unfold inner in Hin. eapply raster_inv_ext; [|exact Hin].
      intros x y Hx Hy. simpl.
      destruct (Z.ltb_spec y y0), (Z.ltb_spec x width), (Z.eqb_spec y y0),
        (Z.ltb_spec x (Z.max 0 width)), (Z.ltb_spec y (y0 + 1));
        simpl; try reflexivity; lia. }
  unfold outer in Hout. eapply raster_inv_ext; [|exact Hout].
  intros x y Hx Hy. simpl. destruct (Z.ltb_spec y (Z.max 0 height)); [reflexivity|lia].
Qed.

(** ** Raster command builder *)

Lemma bytesToBinaryString_map (l : list Z) :
  bytesToBinaryString l = map (fun b => b mod 65536) l.
Proof.
  unfold bytesToBinaryString.
  assert (H : forall acc, fold_left (fun result b => result ++ String_fromCharCode b) l acc
                          = acc ++ map (fun b => b mod 65536) l).
  { induction l as [|b l IH]; intros acc; simpl; [now rewrite app_nil_r|].
    rewrite IH. unfold String_fromCharCode. now rewrite <- app_assoc. }
  apply (H []).
Qed.

Lemma uint8_char (v : Z) : to_uint8 v mod 65536 = v mod 256.
Proof.
  unfold to_uint8. pose proof (Z.mod_pos_bound v 256 ltac:(lia)).
  apply Z.mod_small. lia.
Qed.

Lemma bytes_unchanged (l : list Z) :
  Forall is_byte l -> map (fun b => b mod 65536) (map to_uint8 l) = l.
Proof.
  induction 1 as [|b l Hb _ IH]; simpl; [reflexivity|].
  rewrite IH, uint8_char. f_equal. apply Z.mod_small. exact Hb.
Qed.

Lemma land_255 (n : Z) : Z.land n 255 = n mod 256.
Proof. change 255 with (Z.ones 8). rewrite Z.land_ones by lia. reflexivity. Qed.

Lemma shiftr_8 (n : Z) : Z.shiftr n 8 = n / 256.
Proof. rewrite Z.shiftr_div_pow2 by lia. reflexivity. Qed.

Lemma le16_value_spec (n : Z) : le16_value (n mod 256) ((n / 256) mod 256) = n mod 65536.
Proof.
  unfold le16_value.
  pose proof (Z.div_mod n 256 ltac:(lia)). pose proof (Z.mod_pos_bound n 256 ltac:(lia)).
  pose proof (Z.div_mod (n / 256) 256 ltac:(lia)).
  pose proof (Z.mod_pos_bound (n / 256) 256 ltac:(lia)).
  apply (Z.mod_unique _ _ (n / 256 / 256)); lia.
Qed.

(** The command is the header followed by the raster bytes. *)
Lemma buildRasterImageCommand_eq (bpr height mode : Z) (rasterData : list Z) :
  Forall is_byte rasterData ->
  buildRasterImageCommand bpr height rasterData mode
  = [29; 118; 48; mode mod 256] ++ le16 bpr ++ le16 height ++ rasterData.
Proof.
  intros Hbytes. unfold buildRasterImageCommand.
  rewrite bytesToBinaryString_map, map_app, (bytes_unchanged rasterData Hbytes).
  rewrite !land_255, !shiftr_8. simpl. rewrite !uint8_char.
  rewrite !Z.mod_mod by lia. reflexivity.
Qed.

(** C3: for every packed raster, the raster-image command is an 8-byte header
    - the opcode bytes 1D 76 30, the mode byte, then the row byte-width and the
    row count, each as two bytes that hold its 16-bit little-endian value -
    immediately followed by the payload bytes, unchanged; and these are the
    bytes written for it to the spool file. *)
Theorem raster_command_is_header_then_payload
    (bytesPerRow height mode : Z) (payload : list Z) :
  Forall is_byte payload ->
  exists xL xH yL yH,
    buildRasterImageCommand bytesPerRow height payload mode
      = [29; 118; 48; mode mod 256; xL; xH; yL; yH] ++ payload /\
    Buffer_from_binary (buildRasterImageCommand bytesPerRow height payload mode)
      = [29; 118; 48; mode mod 256; xL; xH; yL; yH] ++ payload /\
    is_byte xL /\ is_byte xH /\ is_byte yL /\ is_byte yH /\
    le16_value xL xH = bytesPerRow mod 65536 /\
    le16_value yL yH = height mod 65536 /\
    (0 <= bytesPerRow < 65536 -> le16_value xL xH = bytesPerRow) /\
    (0 <= height < 65536 -> le16_value yL yH = height).
Proof.
  intros Hbytes.
  exists (bytesPerRow mod 256), ((bytesPerRow / 256) mod 256),
         (height mod 256), ((height / 256) mod 256).
  rewrite buildRasterImageCommand_eq by exact Hbytes.
  rewrite !le16_value_spec. unfold is_byte.
  split; [reflexivity|]. split.
  { unfold Buffer_from_binary. simpl. rewrite !Z.mod_mod by lia. do 8 f_equal.
    induction Hbytes as [|b l Hb _ IH]; simpl; [reflexivity|].
    rewrite IH. f_equal. apply Z.mod_small. exact Hb. }
  repeat split; try (apply Z.mod_pos_bound; lia);
    intros; apply Z.mod_small; lia.
Qed.

Lemma raster_command_witness :
  exists xL xH yL yH,
    buildRasterImageCommand 2 3 [128; 0; 255; 64; 1; 2] 0
      = [29; 118; 48; 0 mod 256; xL; xH; yL; yH] ++ [128; 0; 255; 64; 1; 2] /\
    Buffer_from_binary (buildRasterImageCommand 2 3 [128; 0; 255; 64; 1; 2] 0)
      = [29; 118; 48; 0 mod 256; xL; xH; yL; yH] ++ [128; 0; 255; 64; 1; 2] /\
    is_byte xL /\ is_byte xH /\ is_byte yL /\ is_byte yH /\
    le16_value xL xH = 2 mod 65536 /\
    le16_value yL yH = 3 mod 65536 /\
    (0 <= 2 < 65536 -> le16_value xL xH = 2) /\
    (0 <= 3 < 65536 -> le16_value yL yH = 3).
Proof.
  apply (raster_command_is_header_then_payload 2 3 0 [128; 0; 255; 64; 1; 2]).
  repeat constructor; unfold is_byte; lia.
Defined.

Example raster_command_sample :
  buildRasterImageCommand 2 300 [128; 0; 255; 64] 0
  = [29; 118; 48; 0; 2; 0; 44; 1; 128; 0; 255; 64].
Proof. vm_compute. reflexivity. Qed.

(** ** The encoder's output *)

Lemma raster_lookup_in_range (bpr height x y : Z) (raster : list Z) :
  Z.of_nat (length raster) = bpr * height ->
  0 <= x < 8 * bpr -> 0 <= y < height ->
  exists byte, raster !! Z.to_nat (y * bpr + x / 8) = Some byte.
Proof.
  intros Hlen Hx Hy.
  assert (0 <= x / 8 < bpr)
    by (split; [apply Z.div_pos; lia | apply Z.div_lt_upper_bound; lia]).
  apply lookup_lt_is_Some_2. nia.
Qed.

(** The packed raster is made of bytes, and the command carries it after
    the header. *)
Lemma raster_encoder_layout_aux (width height : Z) (data : list Z) :
  1 <= width -> 1 <= height ->
  Forall is_byte (packRaster width height data) /\
  encodeBitmap (mkBitmap width height data)
  = [29; 118; 48; 0] ++ le16 (bytesPerRow_of width) ++ le16 height
    ++ packRaster width height data.
Proof.
  intros Hw Hh.
  destruct (packRaster_inv width height data ltac:(lia) ltac:(lia)) as (_ & Hbytes & _).
  split; [exact Hbytes|].
  unfold encodeBitmap. simpl.
  rewrite buildRasterImageCommand_eq by exact Hbytes. reflexivity.
Qed.

(** C1: for a pixel buffer with width and height at least 1, the encoder
    yields bytesPerRow = ceil(width / 8) and bytesPerRow * height payload
    bytes; pixel (x, y) sits in byte y * bytesPerRow + x / 8 (row-major) at
    bit 7 - x mod 8 (most significant bit first); the bits of a row's last
    byte beyond the width are 0; and the command carries this payload after
    its header. *)
Theorem raster_encoder_layout (width height : Z) (data : list Z) :
  1 <= width -> 1 <= height ->
  let bytesPerRow := bytesPerRow_of width in
  let raster := packRaster width height data in
  8 * (bytesPerRow - 1) < width <= 8 * bytesPerRow /\
  js_length raster = bytesPerRow * height /\
  Forall is_byte raster /\
  (forall x y, 0 <= x < width -> 0 <= y < height ->
     exists byte, raster !! Z.to_nat (y * bytesPerRow + x / 8) = Some byte /\
                  Z.testbit byte (7 - x mod 8) = isBlack width data x y) /\
  (forall x y, width <= x < 8 * bytesPerRow -> 0 <= y < height ->
     exists byte, raster !! Z.to_nat (y * bytesPerRow + x / 8) = Some byte /\
                  Z.testbit byte (7 - x mod 8) = false) /\
  encodeBitmap (mkBitmap width height data)
    = [29; 118; 48; 0] ++ le16 bytesPerRow ++ le16 height ++ raster.
Proof.
  intros Hw Hh bytesPerRow raster.
  destruct (packRaster_inv width height data ltac:(lia) ltac:(lia)) as (Hlen & Hbytes & Hbits).
  fold bytesPerRow raster in Hlen, Hbytes, Hbits.
  split; [apply bytesPerRow_of_bounds|].
  split; [exact Hlen|]. split; [exact Hbytes|].
  split; [|split].
  - intros x y Hx Hy.
    pose proof (bytesPerRow_of_bounds width) as Hb. fold bytesPerRow in Hb.
    destruct (raster_lookup_in_range bytesPerRow height x y raster Hlen ltac:(lia) Hy) as [byte Hbyte].
    exists byte. split; [exact Hbyte|].
    specialize (Hbits x y ltac:(lia) Hy). unfold raster_bit in Hbits.
    rewrite Hbyte in Hbits. rewrite Hbits.
    destruct (Z.ltb_spec x width); [reflexivity|lia].
  - intros x y Hx Hy.
    destruct (raster_lookup_in_range bytesPerRow height x y raster Hlen ltac:(lia) Hy) as [byte Hbyte].
    exists byte. split; [exact Hbyte|].
    specialize (Hbits x y ltac:(lia) Hy). unfold raster_bit in Hbits.
    rewrite Hbyte in Hbits. rewrite Hbits.
    destruct (Z.ltb_spec x width); [lia|reflexivity].
  - unfold encodeBitmap. simpl. fold bytesPerRow raster.
    rewrite buildRasterImageCommand_eq by exact Hbytes. reflexivity.
Qed.

Example packRaster_sample : packRaster 10 2 sample_pixels = [184; 192; 1; 64].
Proof. vm_compute. reflexivity. Qed.

Lemma raster_encoder_layout_witness :
  1 <= 10 /\ 1 <= 2 /\
  js_length (packRaster 10 2 sample_pixels) = bytesPerRow_of 10 * 2 /\
  encodeBitmap (mkBitmap 10 2 sample_pixels)
    = [29; 118; 48; 0] ++ le16 (bytesPerRow_of 10) ++ le16 2 ++ packRaster 10 2 sample_pixels.
Proof.
  pose proof (raster_encoder_layout 10 2 sample_pixels ltac:(lia) ltac:(lia)) as H.
  cbv zeta in H. destruct H as (_ & Hlen & _ & _ & _ & Hcmd).
  split; [lia|]. split; [lia|]. split; [exact Hlen|exact Hcmd].
Defined.

(** ** The ink rule *)

Lemma isBlack_pixel (width : Z) (data : list Z) (x y R G B A : Z) :
  pixel_at width data x y = Some (R, G, B, A) ->
  isBlack width data x y = ink_rule R G B A.
Proof.
  unfold pixel_at, isBlack, ink_rule, luminance, scaled, data_at, threshold.
  cbv zeta.
  destruct (data !! Z.to_nat ((y * width + x) * 4)) as [r|]; [|discriminate].
  destruct (data !! Z.to_nat ((y * width + x) * 4 + 1)) as [g|]; [|discriminate].
  destruct (data !! Z.to_nat ((y * width + x) * 4 + 2)) as [b|]; [|discriminate].
  destruct (data !! Z.to_nat ((y * width + x) * 4 + 3)) as [a|]; [|discriminate].
  intros [= -> -> -> ->]. reflexivity.
Qed.

(** A transparent pixel is never ink, whatever its colour bytes are (or
    even if they are missing). *)
Lemma isBlack_transparent (width : Z) (data : list Z) (x y : Z) :
  data !! Z.to_nat ((y * width + x) * 4 + 3) = Some 0 ->
  isBlack width data x y = false.
Proof.
  intros Ha. unfold isBlack, data_at. cbv zeta. rewrite Ha.
  apply andb_false_intro2. vm_compute. reflexivity.
Qed.

Lemma solid_image_lookup (n : nat) (r g b a : Z) (p : nat) :
  (p < n)%nat ->
  let img := concat (replicate n [r; g; b; a]) in
  img !! (4 * p)%nat = Some r /\ img !! (4 * p + 1)%nat = Some g /\
  img !! (4 * p + 2)%nat = Some b /\ img !! (4 * p + 3)%nat = Some a.
Proof.
  revert p. induction n as [|n IH]; intros p Hp; [lia|].
  destruct p as [|p].
  - simpl. repeat split; reflexivity.
  - specialize (IH p ltac:(lia)). cbv zeta in *.
    replace (4 * S p)%nat with (S (S (S (S (4 * p))))) by lia.
    simpl. exact IH.
Qed.

Lemma solid_image_pixel (width height r g b a x y : Z) :
  0 <= x < width -> 0 <= y < height ->
  pixel_at width (solid_image width height r g b a) x y = Some (r, g, b, a).
Proof.
  intros Hx Hy. unfold pixel_at, solid_image. cbv zeta.
  assert (Hp : (Z.to_nat (y * width + x) < Z.to_nat (width * height))%nat) by nia.
  destruct (solid_image_lookup _ r g b a _ Hp) as (H0 & H1 & H2 & H3).
  replace (Z.to_nat ((y * width + x) * 4)) with (4 * Z.to_nat (y * width + x))%nat by nia.
  replace (Z.to_nat ((y * width + x) * 4 + 1)) with (4 * Z.to_nat (y * width + x) + 1)%nat by nia.
  replace (Z.to_nat ((y * width + x) * 4 + 2)) with (4 * Z.to_nat (y * width + x) + 2)%nat by nia.
  replace (Z.to_nat ((y * width + x) * 4 + 3)) with (4 * Z.to_nat (y * width + x) + 3)%nat by nia.
  rewrite H0, H1, H2, H3. reflexivity.
Qed.

Lemma byte_without_bits (b : Z) :
  is_byte b -> (forall k, 0 <= k < 8 -> Z.testbit b k = false) -> b = 0.
Proof.
  intros Hb Hbits. apply Z.bits_inj'. intros k Hk. rewrite Z.bits_0.
  destruct (Z_lt_dec k 8) as [Hlt|Hge]; [apply Hbits; lia|].
  destruct (Z.eq_dec b 0) as [->|Hnz]; [apply Z.bits_0|].
  apply Z.bits_above_log2; [apply Hb|].
  assert (Z.log2 b < 8); [|lia].
  apply Z.log2_lt_pow2; unfold is_byte in Hb; simpl; lia.
Qed.

(** A raster none of whose pixels is ink is all zero bytes. *)
Lemma packRaster_blank (width height : Z) (data : list Z) :
  1 <= width -> 1 <= height ->
  (forall x y, 0 <= x < width -> 0 <= y < height -> isBlack width data x y = false) ->
  packRaster width height data
  = replicate (Z.to_nat (bytesPerRow_of width * height)) 0.
Proof.
  intros Hw Hh Hblank.
  destruct (packRaster_inv width height data ltac:(lia) ltac:(lia)) as (Hlen & Hbytes & Hbits).
  pose proof (bytesPerRow_of_bounds width) as Hb.
  set (bpr := bytesPerRow_of width) in *.
  set (raster := packRaster width height data) in *.
  apply list_eq_same_length with (n := Z.to_nat (bpr * height));
    [now rewrite length_replicate | lia |].
  intros i b0 b1 Hi Hb0 Hb1.
  apply lookup_replicate in Hb1 as [-> _].
  apply byte_without_bits.
  { rewrite Forall_lookup in Hbytes. exact (Hbytes _ _ Hb0). }
  intros k Hk.
  set (yy := Z.of_nat i / bpr). set (j := Z.of_nat i mod bpr).
  pose proof (Z.div_mod (Z.of_nat i) bpr ltac:(lia)) as Hdm. fold yy j in Hdm.
  pose proof (Z.mod_pos_bound (Z.of_nat i) bpr ltac:(lia)) as Hj. fold j in Hj.
  assert (Hyy : 0 <= yy < height).
  { split; [apply Z.div_pos; lia | apply Z.div_lt_upper_bound; nia]. }
  assert (Hdiv : (8 * j + (7 - k)) / 8 = j).
  { symmetry. apply (Z.div_unique _ _ _ (7 - k)); lia. }
  assert (Hmod : (8 * j + (7 - k)) mod 8 = 7 - k).
  { symmetry. apply (Z.mod_unique _ _ j); lia. }
  specialize (Hbits (8 * j + (7 - k)) yy ltac:(lia) Hyy).
  unfold raster_bit in Hbits. rewrite Hdiv, Hmod in Hbits.
  replace (Z.to_nat (yy * bpr + j)) with i in Hbits by lia.
  rewrite Hb0 in Hbits. replace (7 - (7 - k)) with k in Hbits by lia.
  rewrite Hbits.
  destruct (Z.ltb_spec (8 * j + (7 - k)) width) as [Hin|Hout]; [|reflexivity].
  simpl. apply Hblank; lia.
Qed.

(** The alpha gate on bytes: alpha / 255 exceeds 0.1 from 26 upwards. *)
Lemma alpha_gate (A : Z) : is_byte A -> (0.1 <? scaled A)%float = (26 <=? A).
Proof.
  intros HA.
  assert (Hall : forallb (fun n => Bool.eqb (0.1 <? scaled (Z.of_nat n))%float (26 <=? Z.of_nat n))
                   (seq 0 256) = true) by (vm_compute; reflexivity).
  rewrite forallb_forall in Hall.
  specialize (Hall (Z.to_nat A)). unfold is_byte in HA.
  rewrite Z2Nat.id in Hall by lia.
  apply Bool.eqb_prop, Hall, in_seq. lia.
Qed.

(** On grey pixels, which is what the greyscale step leaves, the luminance
    test selects the bytes up to 127. *)
Lemma grey_ink (v : Z) : is_byte v -> ink_rule v v v 255 = (v <=? 127).
Proof.
  intros Hv.
  assert (Hall : forallb (fun n => Bool.eqb (ink_rule (Z.of_nat n) (Z.of_nat n) (Z.of_nat n) 255)
                                    (Z.of_nat n <=? 127)) (seq 0 256) = true)
    by (vm_compute; reflexivity).
  rewrite forallb_forall in Hall.
  specialize (Hall (Z.to_nat v)). unfold is_byte in Hv.
  rewrite Z2Nat.id in Hall by lia.
  apply Bool.eqb_prop, Hall, in_seq. lia.
Qed.

(** C2: the bit of every pixel is 1 exactly when 1 - luminance exceeds 0.5
    and alpha exceeds 0.1, with luminance 0.2126 R + 0.7152 G + 0.0722 B on
    channels scaled to [0, 1]; so an all-white opaque image gives an
    all-zero raster, an all-black opaque image has every used bit set, and a
    fully transparent image gives an all-zero raster whatever its colours. *)
Theorem ink_rule_of_raster (width height : Z) (data : list Z) :
  1 <= width -> 1 <= height ->
  let bytesPerRow := bytesPerRow_of width in
  let raster := packRaster width height data in
  let zeros := replicate (Z.to_nat (bytesPerRow * height)) 0 in
  (forall x y R G B A, 0 <= x < width -> 0 <= y < height ->
     pixel_at width data x y = Some (R, G, B, A) ->
     raster_bit bytesPerRow raster x y
     = (0.5 <? 1 - (0.2126 * scaled R + 0.7152 * scaled G + 0.0722 * scaled B))%float
       && (0.1 <? scaled A)%float) /\
  (data = solid_image width height 255 255 255 255 -> raster = zeros) /\
  (data = solid_image width height 0 0 0 255 ->
     forall x y, 0 <= x < width -> 0 <= y < height ->
       raster_bit bytesPerRow raster x y = true) /\
  ((forall x y, 0 <= x < width -> 0 <= y < height ->
      data !! Z.to_nat ((y * width + x) * 4 + 3) = Some 0) -> raster = zeros).
Proof.
  intros Hw Hh bytesPerRow raster zeros.
  destruct (packRaster_inv width height data ltac:(lia) ltac:(lia)) as (Hlen & Hbytes & Hbits).
  pose proof (bytesPerRow_of_bounds width) as Hb.
  fold bytesPerRow raster in Hlen, Hbytes, Hbits, Hb.
  assert (Hbit : forall x y, 0 <= x < width -> 0 <= y < height ->
            raster_bit bytesPerRow raster x y = isBlack width data x y).
  { intros x y Hx Hy. rewrite Hbits by lia.
    destruct (Z.ltb_spec x width); [reflexivity|lia]. }
  split; [|split; [|split]].
  - intros x y R G B A Hx Hy Hpix. rewrite Hbit by assumption.
    rewrite (isBlack_pixel _ _ _ _ _ _ _ _ Hpix). reflexivity.
  - intros ->. apply packRaster_blank; [assumption..|].
    intros x y Hx Hy.
    rewrite (isBlack_pixel _ _ _ _ _ _ _ _ (solid_image_pixel _ _ _ _ _ _ _ _ Hx Hy)).
    vm_compute. reflexivity.
  - intros -> x y Hx Hy. rewrite Hbit by assumption.
    rewrite (isBlack_pixel _ _ _ _ _ _ _ _ (solid_image_pixel _ _ _ _ _ _ _ _ Hx Hy)).
    vm_compute. reflexivity.
  - intros Halpha. apply packRaster_blank; [assumption..|].
    intros x y Hx Hy. apply isBlack_transparent, Halpha; assumption.
Qed.

Lemma ink_rule_of_raster_witness :
  1 <= 3 /\ 1 <= 2 /\
  packRaster 3 2 (solid_image 3 2 255 255 255 255)
  = replicate (Z.to_nat (bytesPerRow_of 3 * 2)) 0 /\
  (forall x y, 0 <= x < 3 -> 0 <= y < 2 ->
     raster_bit (bytesPerRow_of 3) (packRaster 3 2 (solid_image 3 2 0 0 0 255)) x y = true).
Proof.
  split; [lia|]. split; [lia|]. split.
  - exact (proj1 (proj2 (ink_rule_of_raster 3 2 (solid_image 3 2 255 255 255 255)
                           ltac:(lia) ltac:(lia))) eq_refl).
  - exact (proj1 (proj2 (proj2 (ink_rule_of_raster 3 2 (solid_image 3 2 0 0 0 255)
                                  ltac:(lia) ltac:(lia)))) eq_refl).
Defined.

(** ** QR payload framer *)

Lemma js_repeat_length (c n : Z) : 0 <= n -> js_length (js_repeat [c] n) = n.
Proof.
  intros Hn. unfold js_length, js_repeat.
  assert (H : forall k, length (concat (replicate k [c])) = k)
    by (induction k; simpl; congruence).
  rewrite H. lia.
Qed.

(** The bytes of the five sub-commands, whatever the payload is. *)
Lemma buildEpsonQR_bytes (data : jsstring) (moduleSize : Z) (ecLevel : jsstring) :
  buildEpsonQR data moduleSize ecLevel
  = [29; 40; 107; 4; 0; 49; 65; 50; 0]
    ++ [29; 40; 107; 3; 0; 49; 67; moduleSize mod 65536]
    ++ ([29; 40; 107; 3; 0; 49; 69] ++ ecLevel)
    ++ ([29; 40; 107; (js_length (utf8 data) + 3) mod 256;
         ((js_length (utf8 data) + 3) / 256) mod 256; 49; 80; 48] ++ utf8 data)
    ++ [29; 40; 107; 3; 0; 49; 81; 48].
Proof.
  unfold buildEpsonQR, qr_model, qr_size, qr_ec, qr_store, qr_print, GS, String_fromCharCode.
  cbv zeta. rewrite !land_255, !shiftr_8.
  rewrite !(Z.mod_small (_ mod 256) 65536)
    by (match goal with |- 0 <= ?a mod 256 < _ =>
          pose proof (Z.mod_pos_bound a 256 ltac:(lia)); lia end).
  simpl. rewrite <- ?app_assoc. reflexivity.
Qed.

Lemma qr_store_length_field (payload : jsstring) :
  length_field (qr_store payload) = Some ((js_length payload + 3) mod 65536).
Proof.
  unfold qr_store, GS, String_fromCharCode. cbv zeta. rewrite !land_255, !shiftr_8.
  rewrite !(Z.mod_small (_ mod 256) 65536)
    by (match goal with |- 0 <= ?a mod 256 < _ =>
          pose proof (Z.mod_pos_bound a 256 ltac:(lia)); lia end).
  simpl. rewrite le16_value_spec. reflexivity.
Qed.

(** C4, as amended: for every payload of at most 65532 bytes (in particular
    of 1 to 200 bytes) the framer emits the five sub-commands select-model,
    set-module-size, set-error-correction-level, store-symbol-data and
    trigger-print, in this order, and the length field of the store
    sub-command holds the payload byte length + 3 in two little-endian bytes. *)
Theorem qr_framing (data : jsstring) (moduleSize : Z) (ecLevel : jsstring) :
  let payload := utf8 data in
  let n := js_length payload in
  n <= 65532 ->
  buildEpsonQR data moduleSize ecLevel
  = [29; 40; 107; 4; 0; 49; 65; 50; 0]
    ++ [29; 40; 107; 3; 0; 49; 67; moduleSize mod 65536]
    ++ ([29; 40; 107; 3; 0; 49; 69] ++ ecLevel)
    ++ qr_store payload
    ++ [29; 40; 107; 3; 0; 49; 81; 48] /\
  (exists pL pH,
     qr_store payload = [29; 40; 107; pL; pH; 49; 80; 48] ++ payload /\
     is_byte pL /\ is_byte pH /\ le16_value pL pH = n + 3) /\
  length_field (qr_store payload) = Some (n + 3).
Proof.
  intros payload n Hn.
  assert (Hn0 : 0 <= n) by (unfold n, js_length; lia).
  split; [|split].
  - reflexivity.
  - exists ((n + 3) mod 256), (((n + 3) / 256) mod 256).
    split; [|split; [|split]].
    + unfold qr_store, GS, String_fromCharCode. cbv zeta. fold n.
      rewrite !land_255, !shiftr_8.
      rewrite !(Z.mod_small (_ mod 256) 65536)
        by (match goal with |- 0 <= ?a mod 256 < _ =>
              pose proof (Z.mod_pos_bound a 256 ltac:(lia)); lia end).
      reflexivity.
    + apply Z.mod_pos_bound. lia.
    + apply Z.mod_pos_bound. lia.
    + rewrite le16_value_spec. apply Z.mod_small. lia.
  - rewrite qr_store_length_field. fold n. f_equal. apply Z.mod_small. lia.
Qed.

Lemma qr_framing_witness :
  js_length (utf8 (str "https://www.strava.com/activities/123456")) <= 65532 /\
  length_field (qr_store (utf8 (str "https://www.strava.com/activities/123456")))
  = Some (js_length (utf8 (str "https://www.strava.com/activities/123456")) + 3).
Proof.
  assert (H : js_length (utf8 (str "https://www.strava.com/activities/123456")) <= 65532)
    by (vm_compute; discriminate).
  split; [exact H|].
  exact (proj2 (proj2 (qr_framing (str "https://www.strava.com/activities/123456") 5 (str "1") H))).
Defined.

Example buildEpsonQR_url :
  buildEpsonQR (str "https://www.strava.com/activities/7") 5 (str "1")
  = [29; 40; 107; 4; 0; 49; 65; 50; 0;
     29; 40; 107; 3; 0; 49; 67; 5;
     29; 40; 107; 3; 0; 49; 69; 49;
     29; 40; 107; 38; 0; 49; 80; 48]
    ++ str "https://www.strava.com/activities/7"
    ++ [29; 40; 107; 3; 0; 49; 81; 48].
Proof. vm_compute. reflexivity. Qed.

Example utf8_samples :
  utf8 [233] = [195; 169] /\ utf8 [8364] = [226; 130; 172] /\
  utf8 [55357; 56832] = [240; 159; 152; 128] /\ utf8 [55357] = [239; 191; 189].
Proof. vm_compute. repeat split. Qed.

(** C4, as stated, fails for a payload of 65533 bytes: payload length + 3
    is 65536, which the two-byte field cannot hold; the field reads 0. *)
Lemma qr_length_field_wraps :
  js_length (utf8 (long_payload)) = 65533 /\
  length_field (qr_store (utf8 (long_payload))) = Some 0 /\
  length_field (qr_store (utf8 (long_payload)))
  <> Some (js_length (utf8 (long_payload)) + 3).
Proof.
  assert (Hlen : js_length (utf8 (long_payload)) = 65533) by (vm_compute; reflexivity).
  assert (Hfield : length_field (qr_store (utf8 (long_payload))) = Some 0).
  { rewrite qr_store_length_field, Hlen. reflexivity. }
  split; [exact Hlen|]. split; [exact Hfield|].
  rewrite Hfield, Hlen. discriminate.
Qed.

(** ** Three-column layout *)

Lemma js_length_app (a b : jsstring) : js_length (a ++ b) = js_length a + js_length b.
Proof. unfold js_length. rewrite length_app. lia. Qed.

(** C9, as amended: for columns no longer than their widths, the helper
    pads column 1 on the left (right-aligning it), column 2 on the right and
    column 3 on the left, each to its width, with one space between
    columns. *)
Theorem threeCol_layout (col1 col2 col3 : jsstring) (w1 w2 w3 : Z) :
  js_length col1 <= w1 -> js_length col2 <= w2 -> js_length col3 <= w3 ->
  threeCol col1 col2 col3 (w1, w2, w3)
  = (js_repeat (str " ") (w1 - js_length col1) ++ col1) ++ str " "
    ++ (col2 ++ js_repeat (str " ") (w2 - js_length col2)) ++ str " "
    ++ (js_repeat (str " ") (w3 - js_length col3) ++ col3) /\
  js_length (js_repeat (str " ") (w1 - js_length col1) ++ col1) = w1 /\
  js_length (col2 ++ js_repeat (str " ") (w2 - js_length col2)) = w2 /\
  js_length (js_repeat (str " ") (w3 - js_length col3) ++ col3) = w3 /\
  js_length (threeCol col1 col2 col3 (w1, w2, w3)) = w1 + w2 + w3 + 2.
Proof.
  intros H1 H2 H3. unfold threeCol, padStart, padEnd.
  split; [reflexivity|].
  change (str " ") with [32]. rewrite !js_length_app, !js_repeat_length by lia.
  change (js_length [32]) with 1. repeat split; lia.
Qed.

Lemma threeCol_layout_witness :
  js_length (str "1") <= 8 /\ js_length (str "RUN") <= 24 /\ js_length (str "1.00") <= 12 /\
  js_length (threeCol (str "1") (str "RUN") (str "1.00") (8, 24, 12)) = 8 + 24 + 12 + 2.
Proof.
  assert (H1 : js_length (str "1") <= 8) by (vm_compute; discriminate).
  assert (H2 : js_length (str "RUN") <= 24) by (vm_compute; discriminate).
  assert (H3 : js_length (str "1.00") <= 12) by (vm_compute; discriminate).
  split; [exact H1|]. split; [exact H2|]. split; [exact H3|].
  exact (proj2 (proj2 (proj2 (proj2
    (threeCol_layout (str "1") (str "RUN") (str "1.00") 8 24 12 H1 H2 H3))))).
Defined.

Example threeCol_stat_line :
  threeCol (str "1") (str "RUN") (str "1.00") threeCol_widths
  = str "       1 RUN                              1.00".
Proof. vm_compute. reflexivity. Qed.

(** C9, as stated, fails: columns 1 and 3 are padded the same way, on the
    left.  For the stat line's count "1" the first eight characters are
    seven spaces and then "1", where padding on the right would give "1" and
    seven spaces; the last twelve characters are eight spaces and then
    "1.00". *)
Lemma threeCol_col1_not_right_padded :
  take 8 (threeCol (str "1") (str "RUN") (str "1.00") threeCol_widths) = str "       1" /\
  padEnd (str "1") 8 = str "1       " /\
  take 8 (threeCol (str "1") (str "RUN") (str "1.00") threeCol_widths) <> padEnd (str "1") 8 /\
  drop 34 (threeCol (str "1") (str "RUN") (str "1.00") threeCol_widths) = str "        1.00".
Proof.
  split; [vm_compute; reflexivity|]. split; [vm_compute; reflexivity|].
  split; [vm_compute; discriminate | vm_compute; reflexivity].
Qed.

Example sample_lines {table : UnicodeCase} :
  statLine sample_activity = Some (str "       1 RUN                              1.00" ++ [10]) /\
  totalsLine sample_activity
  = Some (BOLD_ON ++ str "         TOTAL MILES                      1.00" ++ BOLD_OFF ++ [10]) /\
  paceLine sample_activity = Some (str "         PACE: 6:30 MIN/MI" ++ [10]) /\
  heartRateLine sample_activity = Some (str "         AVG HEART RATE: 153 BPM" ++ [10]) /\
  elevationLine sample_activity = Some (str "         ELEVATION GAIN: 328 FT" ++ [10]).
Proof. vm_compute. repeat split. Qed.

(** ** Numeric formatting *)

(** The modelled library functions on known values. *)
Example toFixed2_samples :
  toFixed2 0.005 = Some (str "0.01") /\ toFixed2 1.005 = Some (str "1.00") /\
  toFixed2 2.675 = Some (str "2.67") /\ toFixed2 0.125 = Some (str "0.13") /\
  toFixed2 123.456 = Some (str "123.46") /\ toFixed2 (-0.001) = Some (str "-0.00") /\
  toFixed2 (-1.5) = Some (str "-1.50") /\ toFixed2 0 = Some (str "0.00") /\
  toFixed2 1e21 = None.
Proof. vm_compute. repeat split. Qed.

Example Math_round_samples :
  Math_round 2.5 = 3%float /\ Math_round (-2.5) = (-2)%float /\
  Math_round 0.49999999999999994 = 0%float /\ Math_round 328.084 = 328%float /\
  Math_round (-0.2) = (-0)%float /\ Math_round 59.5 = 60%float.
Proof. vm_compute. repeat split. Qed.

Example Math_floor_samples :
  Math_floor 6.5 = 6%float /\ Math_floor (-0.5) = (-1)%float /\
  Math_floor 0.999 = 0%float /\ Math_floor 7 = 7%float.
Proof. vm_compute. repeat split. Qed.

Example Number_toString_samples :
  Number_toString 6 = Some (str "6") /\ Number_toString (-0) = Some (str "0") /\
  Number_toString (-12) = Some (str "-12") /\ Number_toString nan = Some (str "NaN") /\
  Number_toString 0.5 = None.
Proof. vm_compute. repeat split. Qed.

Lemma digits_of_uint (d : Decimal.uint) : Forall is_digit (str (NilEmpty.string_of_uint d)).
Proof.
  induction d; simpl; constructor; try assumption; unfold is_digit; simpl; lia.
Qed.

Lemma digits_are_digits (n : Z) : Forall is_digit (digits n).
Proof.
  unfold digits, NilZero.string_of_uint.
  destruct (N.to_uint (Z.to_N n)) eqn:E; try (rewrite <- E; apply digits_of_uint).
  repeat constructor; unfold is_digit; simpl; lia.
Qed.


Lemma js_repeat_unit (c n : Z) : js_repeat [c] n = replicate (Z.to_nat n) c.
Proof.
  unfold js_repeat. induction (Z.to_nat n) as [|k IH]; simpl; [reflexivity|now rewrite IH].
Qed.

Lemma padStart_with_length (s : jsstring) (n c : Z) :
  (Z.to_nat n <= length (padStart_with s n [c]))%nat /\
  (length s <= length (padStart_with s n [c]))%nat.
Proof.
  unfold padStart_with, js_length. rewrite js_repeat_unit, length_app, length_replicate. lia.
Qed.

(** [toFixed(2)] prints two decimals. *)
Lemma toFixed2_shape (x : float) (s : jsstring) :
  toFixed2 x = Some s ->
  s = str "NaN" \/ s = str "Infinity" \/ s = str "-Infinity" \/ two_decimals s.
Proof.
  unfold toFixed2. destruct (Prim2SF x) as [sg|sg| |sg m e].
  - intros [= <-]. right; right; right.
    exists [], (str "0"), (str "00"). repeat split; auto; try discriminate;
      repeat constructor; unfold is_digit; simpl; lia.
  - intros [= <-]. destruct sg; auto.
  - intros [= <-]. auto.
  - destruct ((0 <=? e) && (10 ^ 21 <=? Z.pos m * 2 ^ e)); [discriminate|].
    intros [= <-]. right; right; right.
    set (text := padStart_with (digits (round_half_up false (m * 100) e)) 3 (str "0")).
    assert (Hlen : (3 <= length text)%nat).
    { change (str "0") with [48] in text. unfold text.
      pose proof (padStart_with_length (digits (round_half_up false (m * 100) e)) 3 48). lia. }
    assert (Hdig : Forall is_digit text).
    { unfold text, padStart_with. change (str "0") with [48]. rewrite js_repeat_unit.
      apply Forall_app. split; [|apply digits_are_digits].
      apply Forall_replicate. unfold is_digit. lia. }
    exists (if sg then str "-" else []), (take (length text - 2) text), (drop (length text - 2) text).
    split; [reflexivity|]. split; [destruct sg; auto|]. split.
    { intros Hnil. apply (f_equal length) in Hnil. rewrite length_take in Hnil. simpl in Hnil. lia. }
    split; [apply Forall_take, Hdig|]. split; [rewrite length_drop; lia|apply Forall_drop, Hdig].
Qed.


Lemma all_from_spec (count : nat) (p : Z -> bool) :
  forall k, all_from count k p = true ->
  forall i, k <= i < k + Z.of_nat count -> p i = true.
Proof.
  induction count as [|count IH]; intros k Hall i Hi; [lia|].
  simpl in Hall. apply andb_prop in Hall as [Hk Hrest].
  destruct (Z.eq_dec i k) as [->|Hne]; [exact Hk|].
  apply (IH (k + 1) Hrest). lia.
Qed.

(** *** Decimal digits *)
(** *** Decimal digits *)









(** *** The numbers that are printed *)

Lemma rounds_to_unique (v : Q) (r1 r2 : spec_float) :
  rounds_to v r1 -> rounds_to v r2 -> r1 = r2.
Proof.
  intros H1 H2.
  pose proof (rounds_to_mono _ _ _ _ H1 H2 (Qle_refl v)) as L12.
  pose proof (rounds_to_mono _ _ _ _ H2 H1 (Qle_refl v)) as L21.
  destruct (rounds_to_shape _ _ H1) as [->|[(p1 & e1 & ->)| ->]];
    destruct (rounds_to_shape _ _ H2) as [->|[(p2 & e2 & ->)| ->]];
    try reflexivity; try discriminate.
  apply SFleb_finite_pos_inv in L12, L21.
  assert (e1 = e2) by lia. subst e2. assert (Z.pos p1 = Z.pos p2) by lia. congruence.
Qed.

(** A whole number below 2^53 is a binary64 number. *)
Lemma Z2float_spec (k : Z) :
  0 < k < 2 ^ 53 ->
  Prim2SF (Z2float k)
  = S754_finite false (Z.to_pos (k * 2 ^ (53 - Zdigits2 k))) (Zdigits2 k - 53).
Proof.
  intros Hk. unfold Z2float. destruct (Z.ltb_spec k 0) as [|_]; [lia|].
  rewrite FloatAxioms.of_uint63_spec, Uint63.of_Z_spec.
  rewrite Z.mod_small by (change wB with (2 ^ 63); lia).
  set (d := Zdigits2 k).
  assert (Hd : 0 < d <= 53).
  { split; [apply Zdigits2_pos; lia|apply Zdigits2_le; lia]. }
  assert (Hp : 0 < 2 ^ (53 - d)) by (apply Z.pow_pos_nonneg; lia).
  assert (Hm : 0 < k * 2 ^ (53 - d)) by nia.
  assert (Hdig : Zdigits2 (k * 2 ^ (53 - d)) = 53).
  { rewrite Zdigits2_shift by lia. fold d. lia. }
  set (m := Z.to_pos (k * 2 ^ (53 - d))).
  assert (Em : Z.pos m = k * 2 ^ (53 - d)) by (unfold m; rewrite Z2Pos.id; lia).
  assert (Hvalid : valid_binary prec emax (S754_finite false m (d - 53)) = true).
  { cbn [valid_binary]. unfold bounded, canonical_mantissa. rewrite fexp_eq.
    change (Z.pos (digits2_pos m)) with (Zdigits2 (Z.pos m)). rewrite Em, Hdig.
    apply andb_true_intro. split; [apply Z.eqb_eq; lia|apply Z.leb_le]. change (emax - prec) with 971. lia. }
  pose proof (exact_rounds m (d - 53) Hvalid) as Hr0.
  pose proof (binary_normalize_rounds k 0) as Hr.
  assert (Hv : (inject_Z (Z.pos m) * pow2 (d - 53) == inject_Z k * pow2 0)%Q).
  { rewrite Em. replace (d - 53) with (0 - (53 - d)) by lia. apply shifted_value. lia. }
  assert (Hkpos : (0 < inject_Z k * pow2 0)%Q).
  { rewrite pow2_0. change 0%Q with (inject_Z 0). rewrite Qmult_1_r, <- Zlt_Qlt. lia. }
  destruct Hr as [(Hz & _)|[(_ & Hr)|(Hn & _)]]; [lra| |lra].
  apply (rounds_to_unique (inject_Z k * pow2 0)%Q); [exact Hr|].
  apply (rounds_to_ext (inject_Z (Z.pos m) * pow2 (d - 53))%Q); assumption.
Qed.

Lemma Z2float_value (k : Z) :
  0 <= k < 2 ^ 53 ->
  is_finite (Z2float k) = true /\ (exact (Z2float k) == inject_Z k)%Q /\
  Number_toString (Z2float k) = Some (digits k).
Proof.
  intros Hk. destruct (Z.eq_dec k 0) as [->|Hnz]; [repeat split; reflexivity|].
  pose proof (Z2float_spec k ltac:(lia)) as Hs.
  set (d := Zdigits2 k) in *.
  assert (Hd : 0 < d <= 53).
  { split; [apply Zdigits2_pos; lia|apply Zdigits2_le; lia]. }
  assert (Hp : 0 < 2 ^ (53 - d)) by (apply Z.pow_pos_nonneg; lia).
  assert (Em : Z.pos (Z.to_pos (k * 2 ^ (53 - d))) = k * 2 ^ (53 - d)) by (rewrite Z2Pos.id; nia).
  split; [rewrite is_finite_spec, Hs; reflexivity|]. split.
  - unfold exact. rewrite Hs. cbn [SF2Q cond_Zopp]. rewrite Em.
    replace (d - 53) with (0 - (53 - d)) by lia. rewrite shifted_value by lia.
    rewrite pow2_0. ring.
  - unfold Number_toString. rewrite Hs.
    destruct (Z.ltb_spec 0 (d - 53)) as [|_]; [lia|].
    replace (- (d - 53)) with (53 - d) by lia. rewrite Em.
    rewrite Z.mod_mul, Z.eqb_refl, Z.div_mul by lia. reflexivity.
Qed.

(** The whole numbers up to 30000 are printed with their decimal digits. *)
Lemma toString_small_integer (k : Z) :
  0 <= k <= 30000 -> Number_toString (Z2float k) = Some (digits k).
Proof. intros Hk. apply Z2float_value. lia. Qed.

















(** *** Whole numbers with a sign *)







(** The sample run is in the range of the rules above. *)
Example sample_run_in_range :
  let d := 1609.34%float in
  let t := 390%float in
  let miles := (d * 0.000621371)%float in
  let paceMinutes := (t / 60 / miles)%float in
  is_finite d = true /\ truthy d = true /\ is_finite t = true /\ (0 <? t)%float = true /\
  (0 <? miles)%float = true /\ is_finite paceMinutes = true /\
  (paceMinutes <? 9007199254740992)%float = true /\
  is_finite (100 * 3.28084)%float = true /\ truthy 152.5 = true.
Proof. vm_compute. repeat split. Qed.

Example pace_seconds_can_reach_60 : paceOf 419.9 1 = Some (str "6:60 min/mi").
Proof. vm_compute. reflexivity. Qed.

(** ** Route projection *)

(** *** Differences of distinct numbers do not vanish *)

Lemma grid_value (x : spec_float) :
  valid_binary prec emax x = true -> is_finite_SF x = true ->
  exists K : Z, (SF2Q x == inject_Z K * pow2 (-1074))%Q.
Proof.
  intros Hv Hf. destruct x as [s|s| |s m e]; try discriminate.
  - exists 0. cbn [SF2Q]. change (inject_Z 0) with 0%Q. ring.
  - destruct (valid_finite_inv _ _ _ Hv) as (He & _).
    exists (cond_Zopp s (Z.pos m * 2 ^ (e + 1074))).
    pose proof (shifted_value (Z.pos m) e (e + 1074) ltac:(lia)) as Hs.
    replace (e - (e + 1074)) with (-1074) in Hs by lia.
    destruct s; cbn [SF2Q cond_Zopp]; rewrite ?inject_Z_opp; lra.
Qed.

Lemma srounds_positive (v : Q) (r : spec_float) (K : Z) :
  srounds_to v r -> (v == inject_Z K * pow2 (-1074))%Q -> (0 < v)%Q ->
  SFltb (S754_zero false) r = true.
Proof.
  intros Hr HK Hpos. pose proof (pow2_pos (-1074)) as Pg.
  assert (HK1 : 1 <= K).
  { destruct (Z.le_gt_cases 1 K) as [|Hlt]; [assumption|exfalso].
    assert (inject_Z K <= 0)%Q by (change 0%Q with (inject_Z 0); rewrite <- Zle_Qle; lia). nra. }
  assert (Hge : (inject_Z 1 * pow2 (-1074) <= v)%Q).
  { assert (inject_Z 1 <= inject_Z K)%Q by (rewrite <- Zle_Qle; lia). nra. }
  destruct Hr as [(Hz & _)|[(_ & Hr)|(Hn & _)]]; try (exfalso; lra).
  pose proof (rounds_to_mono _ _ _ _ (exact_rounds 1 (-1074) eq_refl) Hr Hge) as Hle.
  destruct (rounds_to_shape _ _ Hr) as [->|[(p & e & ->)| ->]]; [discriminate|reflexivity..].
Qed.

(** For finite [a] below [b], the difference [b - a] is positive. *)
Lemma fsub_positive (a b : float) :
  is_finite a = true -> is_finite b = true -> (exact a < exact b)%Q ->
  (0 <? b - a)%float = true.
Proof.
  intros Ha Hb Hlt. pose proof (rounded_sub b a Hb Ha) as Hr.
  rewrite is_finite_spec in Ha, Hb.
  destruct (grid_value _ (FloatAxioms.Prim2SF_valid a) Ha) as [Ka HKa].
  destruct (grid_value _ (FloatAxioms.Prim2SF_valid b) Hb) as [Kb HKb].
  rewrite FloatAxioms.ltb_spec. change (Prim2SF 0) with (S754_zero false).
  apply (srounds_positive _ _ (Kb - Ka) Hr); [|lra].
  unfold exact. rewrite HKa, HKb. unfold Z.sub. rewrite inject_Z_plus, inject_Z_opp. ring.
Qed.

(** *** Minimum and maximum *)

Lemma Math_min_finite (a b : float) :
  is_finite a = true -> is_finite b = true ->
  (Math_min a b = a \/ Math_min a b = b) /\
  (exact (Math_min a b) <= exact a)%Q /\ (exact (Math_min a b) <= exact b)%Q.
Proof.
  intros Ha Hb. unfold Math_min.
  rewrite (finite_not_nan_float a Ha), (finite_not_nan_float b Hb). cbn [orb].
  pose proof (flt_exact a b Ha Hb) as Hab. pose proof (flt_exact b a Hb Ha) as Hba.
  destruct (a <? b)%float.
  { assert (Hlt : (exact a < exact b)%Q) by (apply Hab; reflexivity). split; [auto|]. split; lra. }
  destruct (b <? a)%float.
  { assert (Hlt : (exact b < exact a)%Q) by (apply Hba; reflexivity). split; [auto|]. split; lra. }
  assert (Hn1 : ~ (exact a < exact b)%Q) by (intros Hc; apply Hab in Hc; discriminate).
  assert (Hn2 : ~ (exact b < exact a)%Q) by (intros Hc; apply Hba in Hc; discriminate).
  destruct (get_sign a); (split; [auto|]); split; lra.
Qed.

Lemma Math_max_finite (a b : float) :
  is_finite a = true -> is_finite b = true ->
  (Math_max a b = a \/ Math_max a b = b) /\
  (exact a <= exact (Math_max a b))%Q /\ (exact b <= exact (Math_max a b))%Q.
Proof.
  intros Ha Hb. unfold Math_max.
  rewrite (finite_not_nan_float a Ha), (finite_not_nan_float b Hb). cbn [orb].
  pose proof (flt_exact a b Ha Hb) as Hab. pose proof (flt_exact b a Hb Ha) as Hba.
  destruct (a <? b)%float.
  { assert (Hlt : (exact a < exact b)%Q) by (apply Hab; reflexivity). split; [auto|]. split; lra. }
  destruct (b <? a)%float.
  { assert (Hlt : (exact b < exact a)%Q) by (apply Hba; reflexivity). split; [auto|]. split; lra. }
  assert (Hn1 : ~ (exact a < exact b)%Q) by (intros Hc; apply Hab in Hc; discriminate).
  assert (Hn2 : ~ (exact b < exact a)%Q) by (intros Hc; apply Hba in Hc; discriminate).
  destruct (get_sign a); (split; [auto|]); split; lra.
Qed.

(** *** The projection in binary64 *)

Lemma fle_between_finite (lo x hi : float) :
  is_finite lo = true -> is_finite hi = true ->
  (lo <=? x)%float = true -> (x <=? hi)%float = true -> is_finite x = true.
Proof.
  rewrite !is_finite_spec, !FloatAxioms.leb_spec. apply SF_between_finite.
Qed.

Lemma in_range_exact (x : float) :
  in_range x = true ->
  is_finite x = true /\ (- exact coordinate_bound <= exact x)%Q /\
  (exact x <= exact coordinate_bound)%Q.
Proof.
  unfold in_range. intros H. apply andb_prop in H as [Hlo Hhi].
  assert (Hx : is_finite x = true)
    by (apply (fle_between_finite (- coordinate_bound) x coordinate_bound); auto).
  split; [exact Hx|]. split.
  - apply (fle_exact (- coordinate_bound) x eq_refl Hx) in Hlo.
    assert (Hopp : (exact (- coordinate_bound) == - exact coordinate_bound)%Q) by reflexivity.
    lra.
  - apply (fle_exact x coordinate_bound Hx eq_refl). exact Hhi.
Qed.

Lemma exact_in_range (x : float) :
  is_finite x = true -> (- exact coordinate_bound <= exact x)%Q ->
  (exact x <= exact coordinate_bound)%Q -> in_range x = true.
Proof.
  intros Hx Hlo Hhi. unfold in_range. apply andb_true_intro. split.
  - apply (fle_exact (- coordinate_bound) x eq_refl Hx).
    assert (Hopp : (exact (- coordinate_bound) == - exact coordinate_bound)%Q) by reflexivity.
    lra.
  - apply (fle_exact x coordinate_bound Hx eq_refl). exact Hhi.
Qed.

Lemma range_constants :
  (0 <= exact coordinate_bound)%Q /\
  (exact coordinate_bound + exact coordinate_bound <= exact 2e300)%Q /\
  (exact 2e300 * exact 0.1 <= exact 2.1e299)%Q /\
  (- exact 1.3e300 <= - exact coordinate_bound - exact 2.1e299)%Q /\
  (exact coordinate_bound + exact 2.1e299 <= exact 1.3e300)%Q /\
  (exact 1.3e300 + exact 1.3e300 <= exact 2.6e300)%Q /\
  (0 <= exact 0.1)%Q.
Proof. repeat split; closed_Qle. Qed.

Lemma exact_constants :
  (exact 1 == 1)%Q /\ (exact 400 == 400)%Q /\ (exact 300 == 300)%Q /\
  Z2float svgWidth = 400%float /\ Z2float svgHeight = 300%float.
Proof. repeat split; reflexivity. Qed.

(** The padding (lines 259-261) of a box in range is finite and not
    negative. *)
Lemma padding_facts (bb : Box float) :
  in_range (minLat bb) = true -> in_range (maxLat bb) = true ->
  in_range (minLng bb) = true -> in_range (maxLng bb) = true ->
  (exact (minLat bb) <= exact (maxLat bb))%Q -> (exact (minLng bb) <= exact (maxLng bb))%Q ->
  is_finite (padding bb) = true /\
  (0 <= exact (padding bb))%Q /\ (exact (padding bb) <= exact 2.1e299)%Q.
Proof.
  intros H1 H2 H3 H4 Hlat Hlng.
  destruct (in_range_exact _ H1) as (F1 & L1 & U1). destruct (in_range_exact _ H2) as (F2 & L2 & U2).
  destruct (in_range_exact _ H3) as (F3 & L3 & U3). destruct (in_range_exact _ H4) as (F4 & L4 & U4).
  destruct range_constants as (C0 & C1 & C2 & _ & _ & _ & C6).
  unfold padding. cbv zeta.
  destruct (rounded_between _ _ 0 2e300 (rounded_sub _ _ F2 F1) eq_refl eq_refl)
    as (Fa & La & Ua); [rewrite exact_zero; lra | lra |].
  destruct (rounded_between _ _ 0 2e300 (rounded_sub _ _ F4 F3) eq_refl eq_refl)
    as (Fb & Lb & Ub); [rewrite exact_zero; lra | lra |].
  rewrite exact_zero in La, Lb.
  set (latRange := (maxLat bb - minLat bb)%float) in *.
  set (lngRange := (maxLng bb - minLng bb)%float) in *.
  destruct (Math_max_finite latRange lngRange Fa Fb) as (Hcase & Hm1 & Hm2).
  assert (Fm : is_finite (Math_max latRange lngRange) = true) by (destruct Hcase as [-> | ->]; assumption).
  assert (Um : (exact (Math_max latRange lngRange) <= exact 2e300)%Q)
    by (destruct Hcase as [-> | ->]; assumption).
  set (mx := Math_max latRange lngRange) in *.
  destruct (rounded_between _ _ 0 2.1e299 (rounded_mul mx 0.1 Fm eq_refl) eq_refl eq_refl)
    as (Fp & Lp & Up); [rewrite exact_zero; nra | nra |].
  rewrite exact_zero in Lp. auto.
Qed.

(** One axis of the padded box: the low edge moves down, the high edge
    moves up, and the extent is finite, and positive when the edges of the
    bounding box differ. *)
Lemma axis_box (lo hi pad : float) :
  in_range lo = true -> in_range hi = true ->
  is_finite pad = true -> (0 <= exact pad)%Q -> (exact pad <= exact 2.1e299)%Q ->
  (exact lo <= exact hi)%Q ->
  is_finite (lo - pad) = true /\ is_finite (hi + pad) = true /\
  is_finite (hi + pad - (lo - pad)) = true /\
  (exact (lo - pad) <= exact lo)%Q /\ (exact hi <= exact (hi + pad))%Q /\
  (0 <= exact (hi + pad - (lo - pad)))%Q /\
  ((exact lo < exact hi)%Q -> (0 < exact (hi + pad - (lo - pad)))%Q).
Proof.
  intros H1 H2 Fp Lp Up Hle.
  destruct (in_range_exact _ H1) as (F1 & L1 & U1). destruct (in_range_exact _ H2) as (F2 & L2 & U2).
  destruct range_constants as (C0 & _ & _ & C3 & C4 & C5 & _).
  assert (Hneg : (exact (-1.3e300) == - exact 1.3e300)%Q) by reflexivity.
  destruct (rounded_between _ _ (-1.3e300) lo (rounded_sub lo pad F1 Fp) eq_refl F1)
    as (Fl & Ll & Ul); [lra | lra |].
  destruct (rounded_between _ _ hi 1.3e300 (rounded_add hi pad F2 Fp) F2 eq_refl)
    as (Fh & Lh & Uh); [lra | lra |].
  set (lo' := (lo - pad)%float) in *. set (hi' := (hi + pad)%float) in *.
  destruct (rounded_between _ _ 0 2.6e300 (rounded_sub hi' lo' Fh Fl) eq_refl eq_refl)
    as (Fd & Ld & Ud); [rewrite exact_zero; lra | lra |].
  rewrite exact_zero in Ld.
  repeat (split; [assumption|]).
  intros Hlt. apply (flt_exact 0 (hi' - lo') eq_refl Fd).
  apply fsub_positive; [assumption..|]. lra.
Qed.

(** The fraction of the way from the low edge to the high edge. *)
Lemma axis_fraction (lo' hi' c : float) :
  is_finite lo' = true -> is_finite hi' = true -> is_finite c = true ->
  is_finite (hi' - lo') = true -> (0 < exact (hi' - lo'))%Q ->
  (exact lo' <= exact c)%Q -> (exact c <= exact hi')%Q ->
  is_finite (c - lo') = true /\ (0 <= exact (c - lo'))%Q /\
  is_finite ((c - lo') / (hi' - lo')) = true /\
  (0 <= exact ((c - lo') / (hi' - lo')))%Q /\ (exact ((c - lo') / (hi' - lo')) <= 1)%Q.
Proof.
  intros Fl Fh Fc Fd Hd Hlo Hhi.
  pose proof (rounded_sub c lo' Fc Fl) as RN. pose proof (rounded_sub hi' lo' Fh Fl) as RD.
  assert (H0N : (0 <=? c - lo')%float = true).
  { apply (rounded_mono _ _ _ _ (rounded_exact 0 eq_refl) RN). rewrite exact_zero. lra. }
  assert (HND : (c - lo' <=? hi' - lo')%float = true) by (apply (rounded_mono _ _ _ _ RN RD); lra).
  assert (FN : is_finite (c - lo') = true) by (apply (fle_between_finite 0 _ (hi' - lo')); auto).
  apply (fle_exact 0 _ eq_refl FN) in H0N. rewrite exact_zero in H0N.
  apply (fle_exact _ _ FN Fd) in HND.
  split; [exact FN|]. split; [exact H0N|].
  set (N := (c - lo')%float) in *. set (D := (hi' - lo')%float) in *.
  destruct exact_constants as (E1 & _).
  destruct (rounded_between _ _ 0 1 (rounded_div N D FN Fd Hd) eq_refl eq_refl) as (Ft & Lt & Ut).
  - rewrite exact_zero. apply Qle_shift_div_l; [exact Hd|]. lra.
  - rewrite E1. apply Qle_shift_div_r; [exact Hd|]. lra.
  - rewrite exact_zero in Lt. rewrite E1 in Ut. auto.
Qed.

Lemma axis_fraction_mono (lo' hi' c1 c2 : float) :
  is_finite lo' = true -> is_finite hi' = true ->
  is_finite c1 = true -> is_finite c2 = true ->
  is_finite (hi' - lo') = true -> (0 < exact (hi' - lo'))%Q ->
  (exact lo' <= exact c1)%Q -> (exact c1 <= exact c2)%Q -> (exact c2 <= exact hi')%Q ->
  (exact ((c1 - lo') / (hi' - lo')) <= exact ((c2 - lo') / (hi' - lo')))%Q.
Proof.
  intros Fl Fh F1 F2 Fd Hd Hlo H12 Hhi.
  destruct (axis_fraction lo' hi' c1 Fl Fh F1 Fd Hd) as (FN1 & _ & Ft1 & _); [lra..|].
  destruct (axis_fraction lo' hi' c2 Fl Fh F2 Fd Hd) as (FN2 & _ & Ft2 & _); [lra..|].
  assert (HN : (exact (c1 - lo') <= exact (c2 - lo'))%Q).
  { apply (fle_exact _ _ FN1 FN2).
    apply (rounded_mono _ _ _ _ (rounded_sub c1 lo' F1 Fl) (rounded_sub c2 lo' F2 Fl)). lra. }
  apply (fle_exact _ _ Ft1 Ft2).
  apply (rounded_mono _ _ _ _ (rounded_div _ _ FN1 Fd Hd) (rounded_div _ _ FN2 Fd Hd)).
  unfold Qdiv. apply Qmult_le_compat_r; [exact HN|].
  apply Qlt_le_weak, Qinv_lt_0_compat, Hd.
Qed.

(** Scaling a fraction to the width, and flipping it over the height. *)
Lemma scale_to_width (t : float) :
  is_finite t = true -> (0 <= exact t)%Q -> (exact t <= 1)%Q ->
  is_finite (t * 400) = true /\ (0 <= exact (t * 400))%Q /\ (exact (t * 400) <= 400)%Q.
Proof.
  intros Ft Lt Ut. destruct exact_constants as (_ & E400 & _).
  destruct (rounded_between _ _ 0 400 (rounded_mul t 400 Ft eq_refl) eq_refl eq_refl)
    as (F & L & U); [rewrite exact_zero, E400; lra | rewrite E400; lra |].
  rewrite exact_zero in L. rewrite E400 in U. auto.
Qed.

Lemma scale_to_width_mono (t1 t2 : float) :
  is_finite t1 = true -> is_finite t2 = true ->
  (0 <= exact t1)%Q -> (exact t1 <= exact t2)%Q -> (exact t2 <= 1)%Q ->
  (exact (t1 * 400) <= exact (t2 * 400))%Q.
Proof.
  intros F1 F2 L H12 U. destruct exact_constants as (_ & E400 & _).
  destruct (scale_to_width t1 F1) as (Fa & _); [lra..|].
  destruct (scale_to_width t2 F2) as (Fb & _); [lra..|].
  apply (fle_exact _ _ Fa Fb).
  apply (rounded_mono _ _ _ _ (rounded_mul t1 400 F1 eq_refl) (rounded_mul t2 400 F2 eq_refl)).
  rewrite E400. lra.
Qed.

Lemma flip_over_height (t : float) :
  is_finite t = true -> (0 <= exact t)%Q -> (exact t <= 1)%Q ->
  is_finite (300 - t * 300) = true /\
  (0 <= exact (300 - t * 300))%Q /\ (exact (300 - t * 300) <= 300)%Q.
Proof.
  intros Ft Lt Ut. destruct exact_constants as (_ & _ & E300 & _).
  destruct (rounded_between _ _ 0 300 (rounded_mul t 300 Ft eq_refl) eq_refl eq_refl)
    as (F & L & U); [rewrite exact_zero, E300; lra | rewrite E300; lra |].
  rewrite exact_zero in L. rewrite E300 in U.
  destruct (rounded_between _ _ 0 300 (rounded_sub 300 (t * 300) eq_refl F) eq_refl eq_refl)
    as (F' & L' & U'); [rewrite exact_zero, E300; lra | rewrite E300; lra |].
  rewrite exact_zero in L'. rewrite E300 in U'. auto.
Qed.

Lemma flip_over_height_mono (t1 t2 : float) :
  is_finite t1 = true -> is_finite t2 = true ->
  (0 <= exact t1)%Q -> (exact t1 <= exact t2)%Q -> (exact t2 <= 1)%Q ->
  (exact (300 - t2 * 300) <= exact (300 - t1 * 300))%Q.
Proof.
  intros F1 F2 L H12 U. destruct exact_constants as (_ & _ & E300 & _).
  destruct (flip_over_height t1 F1) as (Fa & _); [lra..|].
  destruct (flip_over_height t2 F2) as (Fb & _); [lra..|].
  destruct (rounded_between _ _ 0 300 (rounded_mul t1 300 F1 eq_refl) eq_refl eq_refl)
    as (Fs1 & _); [rewrite exact_zero, E300; lra | rewrite E300; lra |].
  destruct (rounded_between _ _ 0 300 (rounded_mul t2 300 F2 eq_refl) eq_refl eq_refl)
    as (Fs2 & _); [rewrite exact_zero, E300; lra | rewrite E300; lra |].
  assert (Hs : (exact (t1 * 300) <= exact (t2 * 300))%Q).
  { apply (fle_exact _ _ Fs1 Fs2).
    apply (rounded_mono _ _ _ _ (rounded_mul t1 300 F1 eq_refl) (rounded_mul t2 300 F2 eq_refl)).
    rewrite E300. lra. }
  apply (fle_exact _ _ Fb Fa).
  apply (rounded_mono _ _ _ _ (rounded_sub 300 _ eq_refl Fs2) (rounded_sub 300 _ eq_refl Fs1)).
  lra.
Qed.

Lemma Math_min_in_range (a b : float) :
  in_range a = true -> in_range b = true ->
  in_range (Math_min a b) = true /\ (Math_min a b = a \/ Math_min a b = b) /\
  (exact (Math_min a b) <= exact a)%Q /\ (exact (Math_min a b) <= exact b)%Q.
Proof.
  intros Ha Hb. destruct (in_range_exact a Ha) as (Fa & _). destruct (in_range_exact b Hb) as (Fb & _).
  destruct (Math_min_finite a b Fa Fb) as (Hcase & H1 & H2).
  split; [destruct Hcase as [-> | ->]; assumption|]. auto.
Qed.

Lemma Math_max_in_range (a b : float) :
  in_range a = true -> in_range b = true ->
  in_range (Math_max a b) = true /\ (Math_max a b = a \/ Math_max a b = b) /\
  (exact a <= exact (Math_max a b))%Q /\ (exact b <= exact (Math_max a b))%Q.
Proof.
  intros Ha Hb. destruct (in_range_exact a Ha) as (Fa & _). destruct (in_range_exact b Hb) as (Fb & _).
  destruct (Math_max_finite a b Fa Fb) as (Hcase & H1 & H2).
  split; [destruct Hcase as [-> | ->]; assumption|]. auto.
Qed.

(** The fold of [boundingBox] over points in range, from any box in range. *)
Lemma bbox_fold_bounds (route : list (RoutePoint float)) (b0 : Box float) :
  Forall (fun p => point_in_range p = true) route ->
  in_range (minLat b0) = true -> in_range (maxLat b0) = true ->
  in_range (minLng b0) = true -> in_range (maxLng b0) = true ->
  let bb := fold_left
      (fun box point =>
         mkBox (Math_min (minLat box) (lat point)) (Math_max (maxLat box) (lat point))
               (Math_min (minLng box) (lng point)) (Math_max (maxLng box) (lng point)))
      route b0 in
  (in_range (minLat bb) = true /\ in_range (maxLat bb) = true /\
   in_range (minLng bb) = true /\ in_range (maxLng bb) = true) /\
  ((exact (minLat bb) <= exact (minLat b0))%Q /\ (exact (maxLat b0) <= exact (maxLat bb))%Q /\
   (exact (minLng bb) <= exact (minLng b0))%Q /\ (exact (maxLng b0) <= exact (maxLng bb))%Q) /\
  (forall p, p ∈ route ->
     (exact (minLat bb) <= exact (lat p))%Q /\ (exact (lat p) <= exact (maxLat bb))%Q /\
     (exact (minLng bb) <= exact (lng p))%Q /\ (exact (lng p) <= exact (maxLng bb))%Q) /\
  (minLat bb ∈ minLat b0 :: map lat route) /\ (maxLat bb ∈ maxLat b0 :: map lat route) /\
  (minLng bb ∈ minLng b0 :: map lng route) /\ (maxLng bb ∈ maxLng b0 :: map lng route).
Proof.
  revert b0. induction route as [|pt route IH]; intros b0 Hall R1 R2 R3 R4; cbv zeta.
  - simpl. split; [auto|]. split; [repeat split; apply Qle_refl|].
    split; [intros p Hp; inversion Hp|]. repeat split; apply list_elem_of_here.
  - apply Forall_cons in Hall as [Hpt Hall]. unfold point_in_range in Hpt.
    apply andb_prop in Hpt as [Plat Plng].
    destruct (Math_min_in_range _ _ R1 Plat) as (A1 & A2 & A3 & A4).
    destruct (Math_max_in_range _ _ R2 Plat) as (B1 & B2 & B3 & B4).
    destruct (Math_min_in_range _ _ R3 Plng) as (C1 & C2 & C3 & C4).
    destruct (Math_max_in_range _ _ R4 Plng) as (D1 & D2 & D3 & D4).
    simpl fold_left.
    specialize (IH (mkBox (Math_min (minLat b0) (lat pt)) (Math_max (maxLat b0) (lat pt))
                          (Math_min (minLng b0) (lng pt)) (Math_max (maxLng b0) (lng pt)))
                   Hall A1 B1 C1 D1).
    cbv zeta in IH. cbn [minLat maxLat minLng maxLng] in IH.
    set (bb := fold_left _ route _) in *.
    destruct IH as (Hr & (H1 & H2 & H3 & H4) & Hin & Ha & Hb & Hc & Hd).
    split; [exact Hr|]. split; [repeat split; lra|]. split.
    { intros p Hp. apply elem_of_cons in Hp as [->|Hp]; [|apply Hin, Hp]. repeat split; lra. }
    simpl map. repeat split.
    + apply elem_of_cons in Ha as [Ha|Ha]; [|now do 2 apply list_elem_of_further].
      rewrite Ha. destruct A2 as [-> | ->];
        [apply list_elem_of_here | apply list_elem_of_further, list_elem_of_here].
    + apply elem_of_cons in Hb as [Hb|Hb]; [|now do 2 apply list_elem_of_further].
      rewrite Hb. destruct B2 as [-> | ->];
        [apply list_elem_of_here | apply list_elem_of_further, list_elem_of_here].
    + apply elem_of_cons in Hc as [Hc|Hc]; [|now do 2 apply list_elem_of_further].
      rewrite Hc. destruct C2 as [-> | ->];
        [apply list_elem_of_here | apply list_elem_of_further, list_elem_of_here].
    + apply elem_of_cons in Hd as [Hd|Hd]; [|now do 2 apply list_elem_of_further].
      rewrite Hd. destruct D2 as [-> | ->];
        [apply list_elem_of_here | apply list_elem_of_further, list_elem_of_here].
Qed.

(** What the bounding box of a route in range is. *)
Lemma boundingBox_facts (first : RoutePoint float) (rest : list (RoutePoint float)) :
  Forall (fun p => point_in_range p = true) (first :: rest) ->
  let bb := boundingBox first (first :: rest) in
  (in_range (minLat bb) = true /\ in_range (maxLat bb) = true /\
   in_range (minLng bb) = true /\ in_range (maxLng bb) = true) /\
  (forall p, p ∈ first :: rest ->
     (exact (minLat bb) <= exact (lat p))%Q /\ (exact (lat p) <= exact (maxLat bb))%Q /\
     (exact (minLng bb) <= exact (lng p))%Q /\ (exact (lng p) <= exact (maxLng bb))%Q) /\
  (minLat bb ∈ map lat (first :: rest)) /\ (maxLat bb ∈ map lat (first :: rest)) /\
  (minLng bb ∈ map lng (first :: rest)) /\ (maxLng bb ∈ map lng (first :: rest)).
Proof.
  intros Hall. pose proof Hall as Hall'. apply Forall_cons in Hall' as [Hf _].
  unfold point_in_range in Hf. apply andb_prop in Hf as [Flat Flng].
  destruct (bbox_fold_bounds (first :: rest) (mkBox (lat first) (lat first) (lng first) (lng first))
              Hall Flat Flat Flng Flng) as (Hr & _ & Hin & Ha & Hb & Hc & Hd).
  fold (boundingBox first (first :: rest)) in Hr, Hin, Ha, Hb, Hc, Hd.
  cbv zeta. split; [exact Hr|]. split; [exact Hin|].
  cbn [minLat maxLat minLng maxLng] in Ha, Hb, Hc, Hd. simpl map in *.
  repeat split.
  - apply elem_of_cons in Ha as [->|Ha]; [apply list_elem_of_here|exact Ha].
  - apply elem_of_cons in Hb as [->|Hb]; [apply list_elem_of_here|exact Hb].
  - apply elem_of_cons in Hc as [->|Hc]; [apply list_elem_of_here|exact Hc].
  - apply elem_of_cons in Hd as [->|Hd]; [apply list_elem_of_here|exact Hd].
Qed.

(** The padded box of a route in range, axis by axis. *)
Lemma paddedBox_facts (first : RoutePoint float) (rest : list (RoutePoint float)) :
  Forall (fun p => point_in_range p = true) (first :: rest) ->
  let bb := boundingBox first (first :: rest) in
  let box := paddedBox bb in
  (is_finite (minLat box) = true /\ is_finite (maxLat box) = true /\
   is_finite (maxLat box - minLat box) = true /\
   (exact (minLat box) <= exact (minLat bb))%Q /\ (exact (maxLat bb) <= exact (maxLat box))%Q /\
   (0 <= exact (maxLat box - minLat box))%Q /\
   ((exact (minLat bb) < exact (maxLat bb))%Q -> (0 < exact (maxLat box - minLat box))%Q)) /\
  (is_finite (minLng box) = true /\ is_finite (maxLng box) = true /\
   is_finite (maxLng box - minLng box) = true /\
   (exact (minLng box) <= exact (minLng bb))%Q /\ (exact (maxLng bb) <= exact (maxLng box))%Q /\
   (0 <= exact (maxLng box - minLng box))%Q /\
   ((exact (minLng bb) < exact (maxLng bb))%Q -> (0 < exact (maxLng box - minLng box))%Q)).
Proof.
  intros Hall. destruct (boundingBox_facts first rest Hall) as ((R1 & R2 & R3 & R4) & Hin & _).
  cbv zeta. set (bb := boundingBox first (first :: rest)) in *.
  destruct (Hin first (list_elem_of_here _ _)) as (L1 & L2 & L3 & L4).
  destruct (padding_facts bb R1 R2 R3 R4 ltac:(lra) ltac:(lra)) as (Fp & Lp & Up).
  unfold paddedBox. cbn [minLat maxLat minLng maxLng].
  split.
  - apply (axis_box (minLat bb) (maxLat bb) (padding bb) R1 R2 Fp Lp Up). lra.
  - apply (axis_box (minLng bb) (maxLng bb) (padding bb) R3 R4 Fp Lp Up). lra.
Qed.

(** Every point of a route in range lies in the padded box. *)
Lemma point_in_padded_box (first : RoutePoint float) (rest : list (RoutePoint float))
    (p : RoutePoint float) :
  Forall (fun p => point_in_range p = true) (first :: rest) -> p ∈ first :: rest ->
  let box := paddedBox (boundingBox first (first :: rest)) in
  is_finite (lat p) = true /\ is_finite (lng p) = true /\
  (exact (minLat box) <= exact (lat p))%Q /\ (exact (lat p) <= exact (maxLat box))%Q /\
  (exact (minLng box) <= exact (lng p))%Q /\ (exact (lng p) <= exact (maxLng box))%Q.
Proof.
  intros Hall Hp. destruct (boundingBox_facts first rest Hall) as (_ & Hin & _).
  destruct (paddedBox_facts first rest Hall)
    as ((_ & _ & _ & A1 & A2 & _) & (_ & _ & _ & B1 & B2 & _)).
  cbv zeta in *. destruct (Hin p Hp) as (L1 & L2 & L3 & L4).
  assert (Hr : point_in_range p = true) by (rewrite Forall_forall in Hall; apply Hall, Hp).
  unfold point_in_range in Hr. apply andb_prop in Hr as [Rlat Rlng].
  destruct (in_range_exact _ Rlat) as (Flat & _). destruct (in_range_exact _ Rlng) as (Flng & _).
  repeat split; try assumption; lra.
Qed.

(** C6, as amended: the renderer takes the bounding box of all points,
    expands it on all sides by 10% of the larger of the latitude and
    longitude spans, and maps each point to
    x = (lng - minLng) / (maxLng - minLng) * 400 and
    y = 300 - (lat - minLat) / (maxLat - minLat) * 300, all in binary64.
    For a route whose coordinates are at most 1e300 in magnitude, a point
    that lies further north than another one never gets the larger y: the
    northernmost point is drawn at or above the southernmost one whenever
    the latitude spread is not zero.  (The inequality is not strict:
    rounding can give both the same y.) *)
Theorem route_projection (first : RoutePoint float) (rest : list (RoutePoint float)) :
  let route := first :: rest in
  let bb := boundingBox first route in
  let pad := (Math_max (maxLat bb - minLat bb) (maxLng bb - minLng bb) * 0.1)%float in
  let box := mkBox (minLat bb - pad)%float (maxLat bb + pad)%float
                   (minLng bb - pad)%float (maxLng bb + pad)%float in
  Forall (fun p => point_in_range p = true) route ->
  (forall p, p ∈ route ->
     (minLat bb <=? lat p)%float = true /\ (lat p <=? maxLat bb)%float = true /\
     (minLng bb <=? lng p)%float = true /\ (lng p <=? maxLng bb)%float = true) /\
  (minLat bb ∈ map lat route /\ maxLat bb ∈ map lat route /\
   minLng bb ∈ map lng route /\ maxLng bb ∈ map lng route) /\
  routeBox route = Some box /\
  routePath route
  = map (fun p => ((lng p - minLng box) / (maxLng box - minLng box) * 400,
                   300 - (lat p - minLat box) / (maxLat box - minLat box) * 300)%float) route /\
  (forall p q, p ∈ route -> q ∈ route -> (lat q <? lat p)%float = true ->
     (300 - (lat p - minLat box) / (maxLat box - minLat box) * 300
      <=? 300 - (lat q - minLat box) / (maxLat box - minLat box) * 300)%float = true).
Proof.
  intros route bb pad box Hall.
  destruct (boundingBox_facts first rest Hall) as ((R1 & R2 & R3 & R4) & Hin & Hmem).
  fold route in Hin, Hmem. fold bb in R1, R2, R3, R4, Hin, Hmem.
  destruct (in_range_exact _ R1) as (F1 & _). destruct (in_range_exact _ R2) as (F2 & _).
  destruct (in_range_exact _ R3) as (F3 & _). destruct (in_range_exact _ R4) as (F4 & _).
  assert (Hfin : forall p, p ∈ route -> is_finite (lat p) = true /\ is_finite (lng p) = true).
  { intros p Hp. destruct (point_in_padded_box first rest p Hall Hp) as (A & B & _). auto. }
  split.
  { intros p Hp. destruct (Hin p Hp) as (L1 & L2 & L3 & L4). destruct (Hfin p Hp) as [Fa Fb].
    repeat split; apply fle_exact; assumption. }
  split; [exact Hmem|]. split; [reflexivity|]. split; [reflexivity|].
  intros p q Hp Hq Hlat.
  destruct (Hfin p Hp) as [Fp _]. destruct (Hfin q Hq) as [Fq _].
  apply (flt_exact _ _ Fq Fp) in Hlat.
  destruct (paddedBox_facts first rest Hall) as ((Fl & Fh & Fd & A1 & A2 & _ & Hpos) & _).
  destruct (point_in_padded_box first rest p Hall Hp) as (_ & _ & P1 & P2 & _).
  destruct (point_in_padded_box first rest q Hall Hq) as (_ & _ & Q1 & Q2 & _).
  destruct (Hin p Hp) as (Lp1 & Lp2 & _). destruct (Hin q Hq) as (Lq1 & Lq2 & _).
  change (paddedBox (boundingBox first (first :: rest))) with box in *.
  fold route in Hpos. fold bb in Hpos, A1, A2.
  specialize (Hpos ltac:(lra)).
  destruct (axis_fraction _ _ (lat p) Fl Fh Fp Fd Hpos P1 P2) as (_ & _ & Ftp & Ltp & Utp).
  destruct (axis_fraction _ _ (lat q) Fl Fh Fq Fd Hpos Q1 Q2) as (_ & _ & Ftq & Ltq & Utq).
  pose proof (axis_fraction_mono _ _ (lat q) (lat p) Fl Fh Fq Fp Fd Hpos Q1 ltac:(lra) P2) as Hmono.
  destruct (flip_over_height _ Ftp Ltp Utp) as (Fyp & _).
  destruct (flip_over_height _ Ftq Ltq Utq) as (Fyq & _).
  apply (fle_exact _ _ Fyp Fyq).
  apply (flip_over_height_mono _ _ Ftq Ftp Ltq Hmono Utp).
Qed.

Lemma route_projection_witness :
  Forall (fun p => point_in_range p = true)
    [mkPoint 40%float (-74)%float; mkPoint 41%float (-72)%float] /\
  (300 - (41 - (40 - 0.2)) / (41 + 0.2 - (40 - 0.2)) * 300
   <=? 300 - (40 - (40 - 0.2)) / (41 + 0.2 - (40 - 0.2)) * 300)%float = true.
Proof.
  assert (Hall : Forall (fun p => point_in_range p = true)
                   [mkPoint 40%float (-74)%float; mkPoint 41%float (-72)%float])
    by (repeat constructor).
  split; [exact Hall|].
  destruct (route_projection (mkPoint 40%float (-74)%float) [mkPoint 41%float (-72)%float] Hall)
    as (_ & _ & _ & _ & Hflip).
  exact (Hflip (mkPoint 41%float (-72)%float) (mkPoint 40%float (-74)%float)
           ltac:(apply list_elem_of_further, list_elem_of_here) ltac:(apply list_elem_of_here)
           eq_refl).
Defined.


Example routePath_float_sample :
  routePath [mkPoint 40%float (-74)%float; mkPoint 41%float (-72)%float]
  = [(33.333333333333727%float, 257.14285714285671%float);
     (366.66666666666623%float, 42.857142857143288%float)].
Proof. vm_compute. reflexivity. Qed.

(** C6, as stated, fails in the arithmetic of the program: for latitudes 0
    and 1e-17 and longitudes 0 and 100 the padding is 10, both latitudes
    round to the same offset from the padded southern edge, and both
    points get y = 150. *)
Lemma y_flip_lost_to_rounding :
  (lat south_point <? lat north_point)%float = true /\
  routePath flat_route
  = [(33.333333333333329%float, 150%float); (366.66666666666663%float, 150%float)] /\
  (project_y (paddedBox (boundingBox south_point flat_route)) north_point
   <? project_y (paddedBox (boundingBox south_point flat_route)) south_point)%float = false.
Proof. vm_compute. repeat split. Qed.

(** ** Degenerate routes *)

Lemma encodeBitmap_length (bm : Bitmap) :
  js_length (encodeBitmap bm)
  = 8 + js_length (packRaster (bm_width bm) (bm_height bm) (bm_data bm)).
Proof.
  unfold encodeBitmap, buildRasterImageCommand. cbv zeta.
  rewrite bytesToBinaryString_map. unfold js_length.
  rewrite length_map, length_app, !length_map. simpl length. lia.
Qed.

Lemma encodeBitmap_nonempty (bm : Bitmap) : (0 <? js_length (encodeBitmap bm)) = true.
Proof. rewrite encodeBitmap_length. unfold js_length. apply Z.ltb_lt. lia. Qed.

(** A white canvas is encoded as the header and zero bytes. *)
Lemma encodeBitmap_white (width height : Z) :
  1 <= width -> 1 <= height ->
  encodeBitmap (mkBitmap width height (solid_image width height 255 255 255 255))
  = [29; 118; 48; 0] ++ le16 (bytesPerRow_of width) ++ le16 height
    ++ replicate (Z.to_nat (bytesPerRow_of width * height)) 0.
Proof.
  intros Hw Hh.
  destruct (raster_encoder_layout_aux width height (solid_image width height 255 255 255 255) Hw Hh)
    as [Hbytes Hcmd].
  rewrite Hcmd. do 3 f_equal.
  apply packRaster_blank; [assumption..|].
  intros x y Hx Hy.
  rewrite (isBlack_pixel _ _ _ _ _ _ _ _ (solid_image_pixel _ _ _ _ _ _ _ _ Hx Hy)).
  vm_compute. reflexivity.
Qed.

(** When the rasterizer delivers a bitmap, the raster block is emitted. *)
Lemma routeBlock_of_bitmap (Png : Type) (sharp_render : SvgDoc -> option Png)
    (jimp_prepare : Png -> Z -> option Bitmap)
    (route : list (RoutePoint float)) (png : Png) (bitmap : Bitmap) :
  2 <= js_length route ->
  sharp_render (mkSvg 400 300 (routePath route)) = Some png ->
  jimp_prepare png 512 = Some bitmap ->
  buildGPSRouteRasterString true true sharp_render jimp_prepare route 512
  = encodeBitmap bitmap /\
  routeBlock true true sharp_render jimp_prepare (Some route)
  = [ALIGN_CENTER; encodeBitmap bitmap; ALIGN_LEFT; newline].
Proof.
  intros Hlen Hpng Hbm. unfold routeBlock, buildGPSRouteRasterString.
  change svgWidth with 400. change svgHeight with 300.
  destruct (Z.ltb_spec (js_length route) 2); [lia|].
  destruct (Z.ltb_spec 1 (js_length route)); [|lia].
  simpl negb. cbv iota. rewrite Hpng, Hbm. split; [reflexivity|].
  rewrite encodeBitmap_nonempty. reflexivity.
Qed.

(** C7, as amended: a route of fewer than 2 points (or no route) yields no
    image, and whenever the renderer yields no image - fewer than 2 points,
    an image library missing, or a step of the rasterization throwing - the
    compositor puts the placeholder line in place of a raster block; nothing
    is thrown to the caller.  The extent of the bounding box is not
    examined: when the rasterizer delivers a bitmap, the raster block is
    emitted, also for a route of zero extent. *)
Theorem route_placeholder_rule (Png : Type) (sharpModule jimpModule : bool)
    (sharp_render : SvgDoc -> option Png) (jimp_prepare : Png -> Z -> option Bitmap) :
  let build := buildGPSRouteRasterString sharpModule jimpModule sharp_render jimp_prepare in
  let block := routeBlock sharpModule jimpModule sharp_render jimp_prepare in
  (forall route maxWidth, js_length route < 2 -> build route maxWidth = []) /\
  (forall route, js_length route < 2 -> block (Some route) = route_placeholder) /\
  block None = route_placeholder /\
  (forall route, build route 512 = [] -> block (Some route) = route_placeholder) /\
  (forall route, 2 <= js_length route ->
     sharpModule = false \/ jimpModule = false \/
     sharp_render (mkSvg 400 300 (routePath route)) = None \/
     (exists png, sharp_render (mkSvg 400 300 (routePath route)) = Some png /\
                  jimp_prepare png 512 = None) ->
     build route 512 = []) /\
  (forall route png bitmap, 2 <= js_length route ->
     sharpModule = true -> jimpModule = true ->
     sharp_render (mkSvg 400 300 (routePath route)) = Some png ->
     jimp_prepare png 512 = Some bitmap ->
     build route 512 = encodeBitmap bitmap /\
     block (Some route) = [ALIGN_CENTER; encodeBitmap bitmap; ALIGN_LEFT; newline]).
Proof.
  intros build block. unfold build, block, routeBlock, buildGPSRouteRasterString.
  change svgWidth with 400. change svgHeight with 300.
  split; [|split; [|split; [|split; [|split]]]].
  - intros route maxWidth Hlen. destruct (Z.ltb_spec (js_length route) 2); [reflexivity|lia].
  - intros route Hlen. destruct (Z.ltb_spec 1 (js_length route)); [lia|reflexivity].
  - reflexivity.
  - intros route Hempty. destruct (1 <? js_length route); [|reflexivity].
    rewrite Hempty. reflexivity.
  - intros route Hlen Hfail. destruct (Z.ltb_spec (js_length route) 2); [reflexivity|].
    destruct Hfail as [-> | [-> | [-> | (png & -> & ->)]]]; try reflexivity.
    + destruct sharpModule; reflexivity.
    + destruct (negb _); reflexivity.
    + destruct (negb _); reflexivity.
  - intros route png bitmap Hlen -> -> Hpng Hbm.
    apply (routeBlock_of_bitmap Png sharp_render jimp_prepare route png bitmap Hlen Hpng Hbm).
Qed.

(** Whatever the image libraries are, a route of two equal points reaches
    the rasterizer, with a path of NaN coordinates, and the result is what
    the libraries make of it. *)
Lemma zero_extent_reaches_rasterizer (Png : Type)
    (sharp_render : SvgDoc -> option Png) (jimp_prepare : Png -> Z -> option Bitmap) :
  buildGPSRouteRasterString true true sharp_render jimp_prepare same_place 512
  = match sharp_render (mkSvg 400 300 [(nan, nan); (nan, nan)]) with
    | None => []
    | Some pngBuffer =>
        match jimp_prepare pngBuffer 512 with
        | None => []
        | Some bitmap => encodeBitmap bitmap
        end
    end.
Proof.
  assert (Hpath : routePath same_place = [(nan, nan); (nan, nan)]) by (vm_compute; reflexivity).
  unfold buildGPSRouteRasterString. rewrite Hpath. reflexivity.
Qed.

(** C7, as stated, fails for a bounding box of zero extent.  For two
    points at the same place every range is 0, the projection divides 0 by
    0 and the path coordinates are NaN; the route is still handed to the
    rasterizer, and with a rasterizer that paints the background and no
    stroke the renderer returns a raster block of 300 blank rows, which the
    compositor emits in place of the placeholder. *)
Lemma zero_extent_route_is_rasterized :
  js_length same_place = 2 /\
  padding (boundingBox (mkPoint 40.7128%float (-74.006)%float) same_place) = 0%float /\
  routePath same_place = [(nan, nan); (nan, nan)] /\
  buildGPSRouteRasterString true true white_canvas keep_bitmap same_place 512
  = [29; 118; 48; 0; 50; 0; 44; 1] ++ replicate (Z.to_nat 15000) 0 /\
  routeBlock true true white_canvas keep_bitmap (Some same_place)
  = [ALIGN_CENTER; [29; 118; 48; 0; 50; 0; 44; 1] ++ replicate (Z.to_nat 15000) 0;
     ALIGN_LEFT; newline] /\
  routeBlock true true white_canvas keep_bitmap (Some same_place) <> route_placeholder.
Proof.
  assert (Hwhite : encodeBitmap (mkBitmap 400 300 (solid_image 400 300 255 255 255 255))
                   = [29; 118; 48; 0; 50; 0; 44; 1] ++ replicate (Z.to_nat 15000) 0).
  { rewrite encodeBitmap_white by lia. reflexivity. }
  assert (Hlen : 2 <= js_length same_place) by (vm_compute; discriminate).
  destruct (routeBlock_of_bitmap Bitmap white_canvas keep_bitmap same_place
              (mkBitmap 400 300 (solid_image 400 300 255 255 255 255))
              (mkBitmap 400 300 (solid_image 400 300 255 255 255 255))
              Hlen eq_refl eq_refl) as [Hbuild Hblock].
  rewrite Hwhite in Hbuild, Hblock.
  split; [reflexivity|]. split; [vm_compute; reflexivity|]. split; [vm_compute; reflexivity|].
  split; [exact Hbuild|]. split; [exact Hblock|].
  rewrite Hblock. unfold route_placeholder. intros Heq.
  apply (f_equal length) in Heq. cbn [length] in Heq. discriminate Heq.
Qed.

(** ** Paced transmission *)

Section PacedTransmission.
Variable lpstat : jsstring -> bool.
Variable exec_error : nat -> bool.
Variable exec_duration timer_lag : nat -> nat.
Variable sections : list jsstring.
Variable printDelay : Z.

Local Abbreviation run :=
  (printSection lpstat exec_error exec_duration timer_lag sections printDelay).

Lemma printSection_done (index : nat) (time : Z) :
  (length sections <= index)%nat -> run index time = [(time, LogAllPrinted)].
Proof.
  intros Hdone. rewrite printSection_equation_1.
  destruct (le_lt_dec (length sections) index); [reflexivity|lia].
Qed.

Lemma printSection_next (index : nat) (time : Z) (content : jsstring) :
  sections !! index = Some content ->
  run index time
  = (time, Submit index (printerName lpstat) content)
    :: (time + Z.of_nat (exec_duration index),
        if exec_error index then LogSectionError (index + 1) else LogSectionSent (index + 1))
    :: run (S index)
         (time + Z.of_nat (exec_duration index) + printDelay + Z.of_nat (timer_lag index)).
Proof.
  intros Hcontent. rewrite printSection_equation_1.
  pose proof (lookup_lt_Some _ _ _ Hcontent).
  destruct (le_lt_dec (length sections) index); [lia|].
  rewrite printSection_clause_1_equation_2. cbv zeta. rewrite Hcontent. reflexivity.
Qed.

(** Every section from [index] on is submitted once, in order. *)
Lemma printSection_order (remaining : nat) :
  forall index time, (length sections - index = remaining)%nat ->
    map (fun s => (s.1.2, s.2)) (submissions (run index time))
    = indexed index (drop index sections).
Proof.
  induction remaining as [|remaining IH]; intros index time Hrem.
  - rewrite printSection_done by lia. rewrite drop_ge by lia. reflexivity.
  - destruct (sections !! index) as [content|] eqn:Hcontent;
      [|apply lookup_ge_None in Hcontent; lia].
    rewrite (printSection_next _ _ _ Hcontent).
    rewrite (drop_S _ _ _ Hcontent). simpl.
    destruct (exec_error index); simpl; f_equal; apply IH; lia.
Qed.

Lemma printSection_first_time (index : nat) (time : Z) :
  forall t, head (map (fun s => s.1.1) (submissions (run index time))) = Some t -> t = time.
Proof.
  intros t. destruct (sections !! index) as [content|] eqn:Hcontent.
  - rewrite (printSection_next _ _ _ Hcontent). simpl. congruence.
  - apply lookup_ge_None in Hcontent. rewrite printSection_done by lia. discriminate.
Qed.

(** Consecutive submissions are at least the delay apart. *)
Lemma printSection_spaced (remaining : nat) :
  forall index time, (length sections - index = remaining)%nat ->
    spaced printDelay (map (fun s => s.1.1) (submissions (run index time))).
Proof.
  induction remaining as [|remaining IH]; intros index time Hrem.
  - rewrite printSection_done by lia. exact I.
  - destruct (sections !! index) as [content|] eqn:Hcontent;
      [|apply lookup_ge_None in Hcontent; lia].
    rewrite (printSection_next _ _ _ Hcontent).
    set (next := time + Z.of_nat (exec_duration index) + printDelay
                 + Z.of_nat (timer_lag index)).
    assert (Hrest : spaced printDelay (map (fun s => s.1.1) (submissions (run (S index) next))))
      by (apply IH; lia).
    pose proof (printSection_first_time (S index) next) as Hfirst.
    assert (Hsub : submissions
              ((time, Submit index (printerName lpstat) content)
               :: (time + Z.of_nat (exec_duration index),
                   if exec_error index then LogSectionError (index + 1)
                   else LogSectionSent (index + 1))
               :: run (S index) next)
            = (time, index, content) :: submissions (run (S index) next))
      by (destruct (exec_error index); reflexivity).
    rewrite Hsub. simpl map.
    destruct (map (fun s => s.1.1) (submissions (run (S index) next))) as [|t2 rest] eqn:Htimes;
      [exact I|].
    simpl. split; [|exact Hrest].
    rewrite (Hfirst t2 eq_refl). unfold next. lia.
Qed.

(** The outcome of every submission is logged, the failures as errors. *)
Lemma printSection_logs (remaining : nat) :
  forall index time i, (length sections - index = remaining)%nat ->
    (index <= i < length sections)%nat ->
    exists t, (t, if exec_error i then LogSectionError (i + 1) else LogSectionSent (i + 1))
              ∈ run index time.
Proof.
  induction remaining as [|remaining IH]; intros index time i Hrem Hi; [lia|].
  destruct (sections !! index) as [content|] eqn:Hcontent;
    [|apply lookup_ge_None in Hcontent; lia].
  rewrite (printSection_next _ _ _ Hcontent).
  destruct (decide (i = index)) as [->|Hne].
  - eexists. apply list_elem_of_further, list_elem_of_here.
  - destruct (IH (S index)
                (time + Z.of_nat (exec_duration index) + printDelay + Z.of_nat (timer_lag index))
                i ltac:(lia) ltac:(lia)) as [t Ht].
    exists t. do 2 apply list_elem_of_further. exact Ht.
Qed.
End PacedTransmission.

(** C8, as amended: in paced transmission the non-empty sections of the
    stream are submitted strictly in order, each exactly once, with at
    least the configured delay between consecutive submission calls; the
    outcome of every submission is logged, a failure as an error, and a
    failure neither repeats a submission nor keeps the next section from
    being submitted.  Mode "medium" gives a delay of 150 ms.  The number of
    submissions is the number of non-empty sections: three for a stream of
    three non-empty sections. *)
Theorem paced_transmission_order
    (lpstat : jsstring -> bool) (exec_error : nat -> bool)
    (exec_duration timer_lag : nat -> nat) (mode : PrintMode) (fullContent : jsstring) :
  let sections := sectionsOf fullContent in
  let printDelay := SLOW_PRINT_DELAYS mode in
  let trace := transmit lpstat exec_error exec_duration timer_lag mode fullContent in
  0 < printDelay -> 1 < js_length sections ->
  map (fun s => (s.1.2, s.2)) (submissions trace) = indexed 0 sections /\
  length (submissions trace) = length sections /\
  spaced printDelay (map (fun s => s.1.1) (submissions trace)) /\
  (forall i, (i < length sections)%nat ->
     exists t, (t, if exec_error i then LogSectionError (i + 1) else LogSectionSent (i + 1))
               ∈ trace) /\
  (mode = mode_medium -> printDelay = 150).
Proof.
  intros sections printDelay trace Hdelay Hmany.
  assert (Htrace : trace = printSection lpstat exec_error exec_duration timer_lag
                             sections printDelay 0%nat 0).
  { unfold trace, transmit. fold sections printDelay.
    destruct (Z.ltb_spec 0 printDelay); [|lia].
    destruct (Z.ltb_spec 1 (js_length sections)); [|lia]. reflexivity. }
  rewrite Htrace.
  assert (Horder : map (fun s => (s.1.2, s.2))
                     (submissions (printSection lpstat exec_error exec_duration timer_lag
                                     sections printDelay 0%nat 0))
                   = indexed 0 sections).
  { rewrite (printSection_order _ _ _ _ _ _ (length sections) 0%nat 0) by lia.
    reflexivity. }
  split; [exact Horder|]. split.
  { apply (f_equal length) in Horder. rewrite length_map in Horder. rewrite Horder.
    clear. generalize 0%nat. induction sections as [|s rest IH]; intros start; simpl;
      [reflexivity | now rewrite IH]. }
  split; [apply (printSection_spaced _ _ _ _ _ _ (length sections)); lia|].
  split.
  - intros i Hi.
    apply (printSection_logs _ _ _ _ _ _ (length sections) 0%nat 0 i); lia.
  - intros ->. reflexivity.
Qed.

Lemma paced_transmission_witness :
  0 < SLOW_PRINT_DELAYS mode_medium /\
  1 < js_length (sectionsOf two_breaks) /\
  map (fun s => (s.1.2, s.2))
    (submissions (transmit (fun _ => false) (fun i => Nat.eqb i 0) (fun _ => 7%nat)
                    (fun _ => 1%nat) mode_medium two_breaks))
  = indexed 0 (sectionsOf two_breaks) /\
  spaced (SLOW_PRINT_DELAYS mode_medium)
    (map (fun s => s.1.1)
       (submissions (transmit (fun _ => false) (fun i => Nat.eqb i 0) (fun _ => 7%nat)
                       (fun _ => 1%nat) mode_medium two_breaks))).
Proof.
  assert (H1 : 0 < SLOW_PRINT_DELAYS mode_medium) by (vm_compute; reflexivity).
  assert (H2 : 1 < js_length (sectionsOf two_breaks)) by (vm_compute; reflexivity).
  pose proof (paced_transmission_order (fun _ => false) (fun i => Nat.eqb i 0) (fun _ => 7%nat)
                (fun _ => 1%nat) mode_medium two_breaks H1 H2) as H.
  split; [exact H1|]. split; [exact H2|].
  split; [exact (proj1 H) | exact (proj1 (proj2 (proj2 H)))].
Defined.

Example paced_trace_three_sections :
  section_breaks two_breaks = 2 /\
  transmit (fun _ => false) (fun i => Nat.eqb i 0) (fun _ => 7%nat) (fun _ => 1%nat)
    mode_medium two_breaks
  = [(0, Submit 0 None (str "A")); (7, LogSectionError 1);
     (158, Submit 1 None (str "B")); (165, LogSectionSent 2);
     (316, Submit 2 None (str "C")); (323, LogSectionSent 3);
     (474, LogAllPrinted)].
Proof. vm_compute. split; reflexivity. Qed.

Example configured_delay : SLOW_PRINT_DELAYS SLOW_PRINT_MODE = 300.
Proof. reflexivity. Qed.

Example single_submission_when_off :
  transmit (fun name => starts_with (str "TM-T20") name) (fun _ => false) (fun _ => 7%nat)
    (fun _ => 1%nat) mode_off two_breaks
  = [(0, Submit 0 (Some (str "TM-T20III")) (str "ABC")); (7, LogReceiptSent)].
Proof. vm_compute. reflexivity. Qed.

(** C8, as stated, fails on the count: a stream with 3 section breaks
    between non-empty content splits into 4 sections, and paced
    transmission in mode "medium" issues 4 submissions, not 3. *)
Lemma three_breaks_four_submissions :
  section_breaks three_breaks = 3 /\
  submissions (transmit (fun _ => false) (fun _ => false) (fun _ => 0%nat) (fun _ => 0%nat)
                 mode_medium three_breaks)
  = [(0, 0%nat, str "A"); (150, 1%nat, str "B"); (300, 2%nat, str "C"); (450, 3%nat, str "D")] /\
  length (submissions (transmit (fun _ => false) (fun _ => false) (fun _ => 0%nat)
                         (fun _ => 0%nat) mode_medium three_breaks)) <> 3%nat.
Proof. vm_compute. repeat split. discriminate. Qed.

(** ** Print service *)

Lemma createAndPrintActivityReceipt_returns
    (receipt_statements : json -> json -> json -> result unit) (activity route photos : json) :
  createAndPrintActivityReceipt receipt_statements activity route photos = Returned tt.
Proof.
  unfold createAndPrintActivityReceipt.
  destruct (receipt_statements activity route photos); reflexivity.
Qed.

(** The answer to a body that parses to a value other than null. *)
Lemma handlePrint_parsed
    (receipt_statements : json -> json -> json -> result unit) (data : json) :
  data <> JNull ->
  handlePrint receipt_statements (Returned data)
  = if js_truthy (get_field (str "activity") data)
    then if label_throws (or_null (get_field (str "activity") data))
         then mkResponse 500 (ErrorBody (str "Cannot convert object to primitive value"))
         else mkResponse 200 PrintJobSent
    else mkResponse 400 (ErrorBody (str "Activity data is required")).
Proof.
  intros Hdata. unfold handlePrint, result_bind. cbv zeta.
  assert (Hd : destructure data
               = Returned (get_field (str "activity") data, get_field (str "route") data,
                           get_field (str "photos") data))
    by (destruct data; try reflexivity; congruence).
  rewrite Hd.
  destruct (js_truthy (get_field (str "activity") data)); [|reflexivity].
  simpl negb. cbv iota. unfold announce.
  destruct (label_throws _); [reflexivity|].
  rewrite createAndPrintActivityReceipt_returns. reflexivity.
Qed.

Lemma or_null_truthy (activity : json) :
  js_truthy (Some activity) = true -> or_null (Some activity) = activity.
Proof. intros H. unfold or_null. rewrite H. reflexivity. Qed.

(** C10, as amended: a POST /print request whose body parses as JSON with
    a truthy activity member is answered 200 with the success body,
    whatever the receipt statements do, because what they throw is caught
    inside the pipeline, unless the name of the activity (or, when the name
    is falsy, its id) cannot be converted to a string for the log line,
    which throws inside the handler and is answered 500; the answer is 500
    exactly when parsing the body throws, or the parsed value is null,
    where destructuring throws, or that conversion throws; and a parsed
    body whose activity member is missing or falsy is answered 400. *)
Theorem print_request_outcome
    (receipt_statements : json -> json -> json -> result unit)
    (data activity : json) :
  get_field (str "activity") data = Some activity ->
  js_truthy (Some activity) = true ->
  handleRequest receipt_statements POST (str "/print") (Returned data)
    = (if label_throws activity
       then mkResponse 500 (ErrorBody (str "Cannot convert object to primitive value"))
       else mkResponse 200 PrintJobSent) /\
  (forall parsed,
     status (handlePrint receipt_statements parsed) = 500
     <-> (exists message, parsed = Thrown message) \/ parsed = Returned JNull \/
         (exists other member,
            parsed = Returned other /\ get_field (str "activity") other = Some member /\
            js_truthy (Some member) = true /\ label_throws member = true)) /\
  (forall other, other <> JNull -> js_truthy (get_field (str "activity") other) = false ->
     handlePrint receipt_statements (Returned other)
     = mkResponse 400 (ErrorBody (str "Activity data is required"))).
Proof.
  intros Hfield Htruthy.
  split; [|split].
  - assert (Hdata : data <> JNull) by (intros ->; discriminate Hfield).
    unfold handleRequest. rewrite bool_decide_eq_true_2 by reflexivity.
    rewrite (handlePrint_parsed _ _ Hdata), Hfield, Htruthy, (or_null_truthy _ Htruthy).
    reflexivity.
  - intros parsed. split.
    + destruct parsed as [d|message]; [|intros _; left; eexists; reflexivity].
      assert (Hcases : d = JNull \/ d <> JNull)
        by (destruct d; auto; right; discriminate).
      destruct Hcases as [->|Hd]; [intros _; right; left; reflexivity|].
      rewrite (handlePrint_parsed _ _ Hd).
      destruct (get_field (str "activity") d) as [member|] eqn:Hmember; [|discriminate].
      destruct (js_truthy (Some member)) eqn:Hm; [|discriminate].
      rewrite (or_null_truthy _ Hm).
      destruct (label_throws member) eqn:Hl; [|discriminate].
      intros _. right; right. exists d, member. auto.
    + intros [[message ->]|[->|(other & member & -> & Hmember & Hm & Hl)]]; try reflexivity.
      assert (Hother : other <> JNull) by (intros ->; discriminate Hmember).
      rewrite (handlePrint_parsed _ _ Hother), Hmember, Hm, (or_null_truthy _ Hm), Hl.
      reflexivity.
  - intros other Hother Hfalsy.
    rewrite (handlePrint_parsed _ _ Hother), Hfalsy. reflexivity.
Qed.

Lemma print_request_witness :
  get_field (str "activity") sample_request
    = Some (JObject [(str "id", JNumber 7%float); (str "name", JString (str "Run"))]) /\
  handleRequest failing_statements POST (str "/print") (Returned sample_request)
    = mkResponse 200 PrintJobSent.
Proof.
  assert (H : get_field (str "activity") sample_request
              = Some (JObject [(str "id", JNumber 7%float); (str "name", JString (str "Run"))]))
    by (vm_compute; reflexivity).
  split; [exact H|].
  exact (proj1 (print_request_outcome failing_statements sample_request _ H eq_refl)).
Defined.

(** A name or an id that cannot be converted to a string is answered 500
    before the pipeline is called; a name that is a plain object is logged
    as "[object Object]" and answered 200. *)
Example unprintable_label_is_an_error :
  handleRequest failing_statements POST (str "/print") (Returned unprintable_name_request)
    = mkResponse 500 (ErrorBody (str "Cannot convert object to primitive value")) /\
  handleRequest failing_statements POST (str "/print") (Returned unprintable_id_request)
    = mkResponse 500 (ErrorBody (str "Cannot convert object to primitive value")) /\
  handleRequest failing_statements POST (str "/print") (Returned object_name_request)
    = mkResponse 200 PrintJobSent.
Proof. vm_compute. repeat split. Qed.

(** C10, as stated, fails for a body that contains an activity member
    whose value is falsy: the body {"activity": null} parses and contains
    the member, and the answer is 400. *)
Lemma null_activity_is_rejected :
  get_field (str "activity") null_activity_request = Some JNull /\
  handleRequest failing_statements POST (str "/print") (Returned null_activity_request)
    = mkResponse 400 (ErrorBody (str "Activity data is required")) /\
  status (handleRequest failing_statements POST (str "/print") (Returned null_activity_request))
    <> 200.
Proof. vm_compute. repeat split. discriminate. Qed.

(* ================================================================== *)
(** * Further properties: helpers, stream, server and compositor *)
(* ================================================================== *)

(** ** Two and three columns *)

Lemma js_repeat_space (n : Z) : js_repeat (str " ") n = replicate (Z.to_nat n) 32.
Proof. apply (js_repeat_unit 32). Qed.

Lemma js_length_replicate (n c : Z) : js_length (replicate (Z.to_nat n) c) = Z.max 0 n.
Proof. unfold js_length. rewrite length_replicate. lia. Qed.

(** X1: [twoCol] keeps both texts whole and puts at least one space
    between them: the spaces fill the line up to [total], so the result is
    [total] long when the texts and one space fit, and longer by what they
    exceed it otherwise. *)
Theorem twoCol_layout (left right : jsstring) (total : Z) :
  let gap := Z.max 1 (total - js_length left - js_length right) in
  twoCol left right total = left ++ replicate (Z.to_nat gap) 32 ++ right /\
  1 <= gap /\
  js_length (twoCol left right total)
  = Z.max total (js_length left + js_length right + 1).
Proof.
  intros gap. unfold twoCol. fold gap. rewrite js_repeat_space.
  split; [reflexivity|]. split; [lia|].
  rewrite !js_length_app, js_length_replicate. lia.
Qed.

Example twoCol_samples :
  twoCol (str "PACE") (str "6:30") 12 = str "PACE    6:30" /\
  twoCol (str "ELEVATION GAIN") (str "328 FT") 12 = str "ELEVATION GAIN 328 FT" /\
  js_length (twoCol (str "TOTAL") (str "3.11") LINE_WIDTH) = 48.
Proof. repeat split. Qed.

(** X2: [threeCol] never cuts a column: a text longer than its width is
    kept whole and pushes what follows to the right, so the line is as
    long as the three larger of width and text, and the two separators. *)
Theorem threeCol_never_truncates (col1 col2 col3 : jsstring) (w1 w2 w3 : Z) :
  threeCol col1 col2 col3 (w1, w2, w3)
  = (replicate (Z.to_nat (w1 - js_length col1)) 32 ++ col1) ++ [32]
    ++ (col2 ++ replicate (Z.to_nat (w2 - js_length col2)) 32) ++ [32]
    ++ (replicate (Z.to_nat (w3 - js_length col3)) 32 ++ col3) /\
  js_length (threeCol col1 col2 col3 (w1, w2, w3))
  = Z.max w1 (js_length col1) + Z.max w2 (js_length col2) + Z.max w3 (js_length col3) + 2.
Proof.
  unfold threeCol, padStart, padEnd. rewrite !js_repeat_space.
  change (str " ") with [32]. split; [reflexivity|].
  rewrite !js_length_app, !js_length_replicate. change (js_length [32]) with 1. lia.
Qed.

(** ** Word wrapping *)

Lemma visible_app (a b : jsstring) : visible (a ++ b) = visible a ++ visible b.
Proof. unfold visible. now rewrite List.filter_app. Qed.

Lemma visible_id (w : jsstring) :
  Forall (fun c => is_space c = false) w -> visible w = w.
Proof.
  induction 1 as [|c w Hc _ IH]; [reflexivity|].
  unfold visible in *. cbn. rewrite Hc. cbn. now rewrite IH.
Qed.

Lemma split_spaces_go_spec (s : jsstring) :
  forall piece in_run,
    Forall (fun c => is_space c = false) piece ->
    let words := split_spaces_go s piece in_run in
    Forall (Forall (fun c => is_space c = false)) words /\
    concat words = piece ++ visible s /\
    Forall (fun w => (length w <= length piece + length s)%nat) words.
Proof.
  induction s as [|c rest IH]; intros piece in_run Hp; cbn.
  - repeat split.
    + now constructor.
    + constructor; [lia | constructor].
  - unfold visible. cbn. fold (visible rest). destruct (is_space c) eqn:Hc; cbn.
    + destruct in_run.
      * destruct (IH piece true Hp) as (H1 & H2 & H3). repeat split; auto.
        eapply Forall_impl; [exact H3|]. cbn. intros; lia.
      * destruct (IH [] true (Forall_nil_2 _)) as (H1 & H2 & H3). repeat split.
        -- now constructor.
        -- cbn. now rewrite H2.
        -- constructor; [lia|]. eapply Forall_impl; [exact H3|]. cbn. intros; lia.
    + assert (Hp' : Forall (fun c => is_space c = false) (piece ++ [c])).
      { apply Forall_app. split; [exact Hp | now constructor]. }
      destruct (IH (piece ++ [c]) false Hp') as (H1 & H2 & H3). repeat split; auto.
      * rewrite H2. now rewrite <- app_assoc.
      * eapply Forall_impl; [exact H3|]. cbn. intros w. rewrite length_app. cbn. lia.
Qed.

Lemma split_spaces_spec (text : jsstring) :
  Forall (Forall (fun c => is_space c = false)) (split_spaces text) /\
  concat (split_spaces text) = visible text /\
  Forall (fun w => (length w <= length text)%nat) (split_spaces text).
Proof. exact (split_spaces_go_spec text [] false (Forall_nil_2 _)). Qed.

Lemma js_slice_chunk (w : jsstring) (i width : Z) :
  0 <= i < js_length w -> 1 <= width ->
  js_slice w i (i + width) = take (Z.to_nat width) (drop (Z.to_nat i) w).
Proof.
  intros Hi Hw. unfold js_slice, js_length in *.
  destruct (i <? 0) eqn:E1; [lia|]. destruct (i + width <? 0) eqn:E2; [lia|].
  replace (Z.to_nat (Z.min i (Z.of_nat (length w)))) with (Z.to_nat i) by lia.
  destruct (Z.le_gt_cases (i + width) (Z.of_nat (length w))).
  - f_equal. lia.
  - rewrite !take_ge; [reflexivity| |]; rewrite length_drop; lia.
Qed.

Lemma push_slices_spec (w : jsstring) (width : Z) :
  1 <= width ->
  forall fuel i lines, 0 <= i -> (length w - Z.to_nat i <= fuel)%nat ->
    exists chunks,
      push_slices fuel w width i lines = Some (lines ++ chunks) /\
      Forall (fun c => 1 <= js_length c <= width) chunks /\
      concat chunks = drop (Z.to_nat i) w.
Proof.
  intros Hw. induction fuel as [|fuel IH]; intros i lines Hi Hf; cbn.
  - destruct (i <? js_length w) eqn:E; [unfold js_length in E; lia|].
    exists []. rewrite app_nil_r. repeat split; [constructor|].
    rewrite drop_ge; [reflexivity | unfold js_length in E; lia].
  - destruct (i <? js_length w) eqn:E.
    + destruct (IH (i + width) (lines ++ [js_slice w i (i + width)])) as (chunks & H1 & H2 & H3);
        [lia | unfold js_length in E; lia |].
      exists (js_slice w i (i + width) :: chunks). repeat split.
      * rewrite H1. now rewrite <- app_assoc.
      * constructor; [|exact H2].
        rewrite js_slice_chunk by lia. unfold js_length in *.
        rewrite length_take, length_drop. lia.
      * cbn. rewrite H3, js_slice_chunk by lia.
        replace (Z.to_nat (i + width)) with (Z.to_nat i + Z.to_nat width)%nat by lia.
        rewrite <- drop_drop. apply take_drop.
    + exists []. rewrite app_nil_r. repeat split; [constructor|].
      rewrite drop_ge; [reflexivity | unfold js_length in E; lia].
Qed.

Lemma wrap_word_some (fuel : nat) (width : Z) (lines : list jsstring) (line w : jsstring) :
  wrap_word fuel width (Some (lines, line)) w
  = let sep := if 0 <? js_length line then str " " else [] in
    if js_length (line ++ sep ++ w) <=? width then Some (lines, line ++ sep ++ w)
    else
      let lines' := if 0 <? js_length line then lines ++ [line] else lines in
      if width <? js_length w then
        match push_slices fuel w width 0 lines' with
        | Some pushed => Some (pushed, [])
        | None => None
        end
      else Some (lines', w).
Proof. reflexivity. Qed.

Lemma wrap_word_inv (fuel : nat) (width : Z) (done : list jsstring)
    (lines : list jsstring) (line w : jsstring) :
  1 <= width -> (length w <= fuel)%nat ->
  Forall (fun c => is_space c = false) w ->
  wrap_inv width done (lines, line) ->
  exists state, wrap_word fuel width (Some (lines, line)) w = Some state /\
                wrap_inv width (done ++ [w]) state.
Proof.
  intros Hw Hf Hvis (Hl & Hline & Hc). cbn [fst snd] in Hl, Hline, Hc.
  rewrite wrap_word_some. cbv zeta.
  set (sep := if 0 <? js_length line then str " " else []).
  assert (Hsep : visible sep = []).
  { subst sep. destruct (0 <? js_length line); reflexivity. }
  assert (Hdone : concat (done ++ [w]) = concat done ++ w).
  { rewrite concat_app. cbn. now rewrite app_nil_r. }
  destruct (js_length (line ++ sep ++ w) <=? width) eqn:E.
  - eexists. split; [reflexivity|]. unfold wrap_inv. cbn [fst snd].
    split; [exact Hl|]. split; [lia|].
    rewrite Hdone, <- Hc, !visible_app, Hsep, (visible_id w Hvis).
    now rewrite <- app_assoc.
  - set (lines' := if 0 <? js_length line then lines ++ [line] else lines).
    assert (Hl' : Forall (fun l => 1 <= js_length l <= width) lines').
    { subst lines'. destruct (0 <? js_length line) eqn:E0; [|exact Hl].
      apply Forall_app. split; [exact Hl|]. constructor; [lia | constructor]. }
    assert (Hc' : visible (concat lines') = concat done).
    { subst lines'. rewrite <- Hc. destruct (0 <? js_length line) eqn:E0.
      - rewrite concat_app. cbn. now rewrite app_nil_r.
      - destruct line; [now rewrite app_nil_r | unfold js_length in E0; cbn in E0; compare_to_Z; lia]. }
    destruct (width <? js_length w) eqn:E2.
    + destruct (push_slices_spec w width Hw fuel 0 lines') as (chunks & H1 & H2 & H3);
        [lia | lia |].
      rewrite H1. eexists. split; [reflexivity|]. unfold wrap_inv. cbn [fst snd].
      split; [apply Forall_app; split; assumption|].
      split; [unfold js_length; cbn; lia|].
      change (Z.to_nat 0) with 0%nat in H3. rewrite drop_0 in H3.
      now rewrite app_nil_r, concat_app, visible_app, Hc', H3, Hdone, (visible_id w Hvis).
    + eexists. split; [reflexivity|]. unfold wrap_inv. cbn [fst snd].
      split; [exact Hl'|]. split; [lia|].
      now rewrite visible_app, Hc', Hdone, (visible_id w Hvis).
Qed.

Lemma wrap_words_inv (fuel : nat) (width : Z) (words : list jsstring) :
  1 <= width ->
  Forall (fun w => (length w <= fuel)%nat) words ->
  Forall (Forall (fun c => is_space c = false)) words ->
  forall done state, wrap_inv width done state ->
    exists final, fold_left (wrap_word fuel width) words (Some state) = Some final /\
                  wrap_inv width (done ++ words) final.
Proof.
  intros Hw Hf Hv. induction words as [|w words IH]; intros done state Hinv; cbn [fold_left].
  - exists state. rewrite app_nil_r. auto.
  - apply Forall_cons in Hf as [Hf1 Hf2]. apply Forall_cons in Hv as [Hv1 Hv2].
    destruct state as [lines line].
    destruct (wrap_word_inv fuel width done lines line w) as (state' & Hs1 & Hs2); auto.
    rewrite Hs1. destruct (IH Hf2 Hv2 (done ++ [w]) state' Hs2) as (final & Hs3 & Hs4).
    exists final. split; [exact Hs3|]. now rewrite <- app_assoc in Hs4.
Qed.

Lemma wrapText_spec (fuel : nat) (text : jsstring) (width : Z) :
  1 <= width -> (length text <= fuel)%nat ->
  exists lines,
    wrapText fuel text width = Some lines /\
    Forall (fun l => 1 <= js_length l <= width) lines /\
    visible (concat lines) = visible text.
Proof.
  intros Hw Hf. destruct (split_spaces_spec text) as (Hv & Hc & Hlen).
  destruct (wrap_words_inv fuel width (split_spaces text) Hw) with (done := @nil jsstring)
    (state := (@nil jsstring, @nil Z)) as ([lines line] & H1 & H2 & H3 & H4); auto.
  - eapply Forall_impl; [exact Hlen|]. cbn. intros; lia.
  - repeat split; cbn; [constructor | unfold js_length; cbn; lia].
  - cbn in H2, H3, H4. unfold wrapText. rewrite H1. cbn. eexists. split; [reflexivity|].
    rewrite Hc in H4. destruct (0 <? js_length line) eqn:E.
    + split.
      * apply Forall_app. split; [exact H2|]. constructor; [lia | constructor].
      * rewrite concat_app. cbn. now rewrite app_nil_r.
    + split; [exact H2|]. destruct line; [now rewrite app_nil_r in H4 |].
      unfold js_length in E; cbn in E; compare_to_Z; lia.
Qed.

(** X3: for a width of at least 1, [wrapText] returns (the loops end
    within as many iterations as the text has characters), and every line
    it returns is not empty and not longer than the width. *)
Theorem wrapText_lines_fit (fuel : nat) (text : jsstring) (width : Z) :
  1 <= width -> (length text <= fuel)%nat ->
  exists lines,
    wrapText fuel text width = Some lines /\
    Forall (fun l => 1 <= js_length l <= width) lines.
Proof.
  intros Hw Hf. destruct (wrapText_spec fuel text width Hw Hf) as (lines & H1 & H2 & _).
  eauto.
Qed.

Lemma wrapText_lines_fit_witness :
  1 <= 10 /\
  (length (str "the quick  brown fox jumpsoverthelazydog ") <= 41)%nat /\
  exists lines,
    wrapText 41 (str "the quick  brown fox jumpsoverthelazydog ") 10 = Some lines /\
    Forall (fun l => 1 <= js_length l <= 10) lines.
Proof.
  split; [lia|]. split; [cbn; lia|].
  apply (wrapText_lines_fit 41 (str "the quick  brown fox jumpsoverthelazydog ") 10);
    [lia | cbn; lia].
Defined.

Example wrapText_sample :
  wrapText 41 (str "the quick  brown fox jumpsoverthelazydog ") 10
  = Some [str "the quick"; str "brown fox"; str "jumpsovert"; str "helazydog"].
Proof. vm_compute. reflexivity. Qed.

(** X4: for a width of at least 1, [wrapText] loses and reorders
    nothing: the characters of the lines that are not white space are
    those of the text, in the same order. *)
Theorem wrapText_keeps_text (fuel : nat) (text : jsstring) (width : Z) :
  1 <= width -> (length text <= fuel)%nat ->
  exists lines,
    wrapText fuel text width = Some lines /\
    visible (concat lines) = visible text.
Proof.
  intros Hw Hf. destruct (wrapText_spec fuel text width Hw Hf) as (lines & H1 & _ & H2).
  eauto.
Qed.

Lemma wrapText_keeps_text_witness :
  1 <= 4 /\
  (length (str " run  10k in the morning") <= 24)%nat /\
  exists lines,
    wrapText 24 (str " run  10k in the morning") 4 = Some lines /\
    visible (concat lines) = visible (str " run  10k in the morning").
Proof.
  split; [lia|]. split; [cbn; lia|].
  apply (wrapText_keeps_text 24 (str " run  10k in the morning") 4); [lia | cbn; lia].
Defined.

Lemma push_slices_stuck (w : jsstring) (width : Z) :
  width <= 0 -> w <> [] ->
  forall fuel i lines, i <= 0 -> push_slices fuel w width i lines = None.
Proof.
  intros Hw Hne. induction fuel as [|fuel IH]; intros i lines Hi; cbn [push_slices].
  - destruct (i <? js_length w) eqn:E; [reflexivity|].
    destruct w; [congruence|]. unfold js_length in E. cbn in E. compare_to_Z; lia.
  - destruct (i <? js_length w) eqn:E; [apply IH; lia|].
    destruct w; [congruence|]. unfold js_length in E. cbn in E. compare_to_Z; lia.
Qed.

Lemma wrap_word_stuck (fuel : nat) (width : Z) (state : option (list jsstring * jsstring))
    (w : jsstring) :
  width <= 0 -> w <> [] -> wrap_word fuel width state w = None.
Proof.
  intros Hw Hne. destruct state as [[lines line]|]; [|reflexivity].
  rewrite wrap_word_some. cbv zeta.
  assert (1 <= js_length w).
  { destruct w; [congruence|]. unfold js_length. cbn. lia. }
  destruct (_ <=? width) eqn:E.
  - rewrite !js_length_app in E. compare_to_Z. unfold js_length in *. lia.
  - destruct (width <? js_length w) eqn:E2; [|compare_to_Z; lia].
    now rewrite push_slices_stuck.
Qed.

Lemma fold_wrap_word_none (fuel : nat) (width : Z) (words : list jsstring) :
  fold_left (wrap_word fuel width) words None = None.
Proof. induction words; [reflexivity | exact IHwords]. Qed.

Lemma fold_wrap_word_stuck (fuel : nat) (width : Z) (words : list jsstring) :
  width <= 0 -> concat words <> [] ->
  forall state, fold_left (wrap_word fuel width) words state = None.
Proof.
  intros Hw. induction words as [|w words IH]; intros Hne state; [now cbn in Hne|].
  cbn [fold_left]. destruct w as [|c w].
  - apply IH. exact Hne.
  - rewrite wrap_word_stuck by (auto; discriminate). apply fold_wrap_word_none.
Qed.

(** X5: with a width of 0 or less, [wrapText] does not return for a
    text that has a character other than white space: the loop that
    slices the first word never ends, whatever number of iterations it is
    given. *)
Theorem wrapText_needs_positive_width (text : jsstring) (width : Z) :
  width <= 0 -> visible text <> [] ->
  forall fuel, wrapText fuel text width = None.
Proof.
  intros Hw Hv fuel. unfold wrapText.
  rewrite fold_wrap_word_stuck; [reflexivity | exact Hw |].
  destruct (split_spaces_spec text) as (_ & Hc & _). now rewrite Hc.
Qed.

Lemma wrapText_needs_positive_width_witness :
  0 <= 0 /\ visible (str " a") <> [] /\ forall fuel, wrapText fuel (str " a") 0 = None.
Proof.
  split; [lia|]. split; [discriminate|].
  apply (wrapText_needs_positive_width (str " a") 0); [lia | discriminate].
Defined.

Example wrapText_edges :
  wrapText 0 [] 48 = Some [] /\ wrapText 3 (str " " ++ [9; 10]) 48 = Some [] /\
  wrapText 2 (str "a ") 48 = Some [str "a "] /\ wrapText 0 [] 0 = Some [].
Proof. repeat split. Qed.

(** ** Number helpers *)

Lemma is_digit_char_spec (c : Z) : is_digit c -> is_digit_char c = true.
Proof. unfold is_digit, is_digit_char. intros. apply andb_true_intro. split; lia. Qed.

Lemma groups_of_three_digits (n : nat) :
  forall ds, (length ds <= n)%nat -> Forall is_digit ds ->
    groups_of_three ds = (0 <? js_length ds) && (js_length ds mod 3 =? 0).
Proof.
  induction n as [|n IH]; intros ds Hn Hd.
  - destruct ds; [reflexivity | cbn in Hn; lia].
  - destruct ds as [|d1 [|d2 [|d3 rest]]]; try reflexivity.
    apply Forall_cons in Hd as [H1 Hd]. apply Forall_cons in Hd as [H2 Hd].
    apply Forall_cons in Hd as [H3 Hd].
    cbn [groups_of_three]. rewrite !is_digit_char_spec by assumption.
    cbn [andb]. rewrite IH by (auto; cbn in Hn; lia).
    assert (E : js_length (d1 :: d2 :: d3 :: rest) = js_length rest + 1 * 3).
    { unfold js_length. cbn [length]. lia. }
    rewrite E, Z.mod_add by lia.
    destruct rest as [|c rest'].
    + reflexivity.
    + apply Forall_cons in Hd as [Hc _]. rewrite (is_digit_char_spec c Hc). cbn [negb orb].
      replace (0 <? js_length (c :: rest') + 1 * 3) with true
        by (symmetry; apply Z.ltb_lt; unfold js_length; lia).
      replace (0 <? js_length (c :: rest')) with true
        by (symmetry; apply Z.ltb_lt; unfold js_length; cbn [length]; lia).
      reflexivity.
Qed.

Lemma replace_with_commas_digits (ds : jsstring) :
  Forall is_digit ds ->
  forall d, is_digit d ->
    replace_with_commas (Some d) ds
    = (if (0 <? js_length ds) && (js_length ds mod 3 =? 0) then str "," else [])
      ++ thousands ds.
Proof.
  induction 1 as [|c rest Hc Hrest IH]; intros d Hd.
  { cbn [replace_with_commas groups_of_three]. now rewrite andb_false_r. }
  cbn [replace_with_commas thousands head]. rewrite (IH c Hc).
  unfold not_word_boundary. cbn [from_option]. unfold is_word_char.
  rewrite !is_digit_char_spec by assumption. cbn [orb Bool.eqb andb].
  rewrite (groups_of_three_digits (length (c :: rest))) by (auto; constructor; auto).
  reflexivity.
Qed.

Lemma replace_with_commas_number (ds : jsstring) :
  Forall is_digit ds -> replace_with_commas None ds = thousands ds.
Proof.
  destruct 1 as [|d rest Hd Hrest]; [reflexivity|].
  cbn [replace_with_commas thousands head]. rewrite (replace_with_commas_digits rest Hrest d Hd).
  unfold not_word_boundary. cbn [from_option]. unfold is_word_char.
  rewrite (is_digit_char_spec d Hd). reflexivity.
Qed.

Lemma replace_with_commas_negative (ds : jsstring) :
  Forall is_digit ds -> replace_with_commas None (str "-" ++ ds) = str "-" ++ thousands ds.
Proof.
  intros Hds. change (str "-" ++ ds) with (45 :: ds).
  cbn [replace_with_commas head].
  replace (groups_of_three (45 :: ds)) with false
    by (destruct ds as [|? [|? ?]]; reflexivity).
  rewrite andb_false_r. cbn [app]. change (str "-" ++ thousands ds) with (45 :: thousands ds).
  f_equal. destruct Hds as [|d rest Hd Hrest].
  { cbn [replace_with_commas groups_of_three]. now rewrite andb_false_r. }
  cbn [replace_with_commas thousands head]. rewrite (replace_with_commas_digits rest Hrest d Hd).
  unfold not_word_boundary. cbn [from_option]. unfold is_word_char.
  rewrite (is_digit_char_spec d Hd). reflexivity.
Qed.

(** X6: for a number printed as an optional minus sign and digits,
    [formatNumber] keeps the sign and the digits and puts a comma before
    every group of three digits counted from the right, and none before
    the first digit. *)
Theorem formatNumber_groups_thousands (num : float) (sign ds : jsstring) :
  Number_toString num = Some (sign ++ ds) ->
  sign = [] \/ sign = str "-" ->
  Forall is_digit ds ->
  formatNumber num = Some (sign ++ thousands ds).
Proof.
  intros Hs Hsign Hds. unfold formatNumber. rewrite Hs. cbn [option_map]. f_equal.
  destruct Hsign as [-> | ->].
  - exact (replace_with_commas_number ds Hds).
  - exact (replace_with_commas_negative ds Hds).
Qed.

Lemma formatNumber_groups_thousands_witness :
  Number_toString (-1234567)%float = Some (str "-" ++ str "1234567") /\
  formatNumber (-1234567)%float = Some (str "-" ++ str "1,234,567").
Proof.
  split; [vm_compute; reflexivity|].
  apply (formatNumber_groups_thousands (-1234567)%float (str "-") (str "1234567")).
  - vm_compute. reflexivity.
  - right. reflexivity.
  - repeat constructor; unfold is_digit; cbn; lia.
Defined.

Lemma thousands_length (ds : jsstring) :
  ds <> [] -> js_length (thousands ds) = js_length ds + (js_length ds - 1) / 3.
Proof.
  induction ds as [|d rest IH]; [congruence|]. intros _.
  cbn [thousands]. destruct rest as [|c rest'].
  - reflexivity.
  - specialize (IH ltac:(discriminate)).
    set (tail := c :: rest') in *.
    assert (Hpos : 1 <= js_length tail) by (unfold js_length, tail; cbn [length]; lia).
    change (d :: ?x ++ thousands tail) with ([d] ++ x ++ thousands tail).
    rewrite !js_length_app, IH.
    replace (js_length (d :: tail)) with (js_length tail + 1)
      by (unfold js_length; cbn [length]; lia).
    change (js_length [d]) with 1.
    destruct (0 <? js_length tail) eqn:E0; [|compare_to_Z; lia].
    destruct (js_length tail mod 3 =? 0) eqn:E3; cbn [andb]; compare_to_Z.
    + change (js_length (str ",")) with 1. Z.div_mod_to_equations. lia.
    + change (js_length []) with 0. Z.div_mod_to_equations. lia.
Qed.

Example formatNumber_samples :
  formatNumber 999 = Some (str "999") /\ formatNumber 1000 = Some (str "1,000") /\
  formatNumber 1234567 = Some (str "1,234,567") /\
  replace_with_commas None (str "1234.5678") = str "1,234.5,678".
Proof. repeat split. Qed.

Lemma formatTime_parts_of_a_day : all_from (Z.to_nat 86400) 1 formatTime_parts = true.
Proof. vm_compute. reflexivity. Qed.

(** X7: for a whole number of seconds from 1 to 86400, [formatTime]
    prints the whole hours and the whole minutes of the rest as
    "<h>h <m>m" from one hour on, and the whole minutes as "<m>m" below;
    the seconds are dropped. *)
Theorem formatTime_whole_seconds (s : Z) :
  1 <= s <= 86400 ->
  formatTime (Z2float s)
  = Some (if 3600 <=? s
          then digits (s / 3600) ++ str "h " ++ digits (s mod 3600 / 60) ++ str "m"
          else digits (s / 60) ++ str "m").
Proof.
  intros Hs.
  pose proof (all_from_spec _ _ _ formatTime_parts_of_a_day s ltac:(lia)) as H.
  unfold formatTime_parts in H.
  apply andb_prop in H as [H H4]. apply andb_prop in H as [H H3].
  apply andb_prop in H as [H1 H2].
  apply FloatAxioms.Leibniz.eqb_spec in H2, H3. apply eqb_prop in H4.
  unfold formatTime. rewrite H1. cbn [negb]. cbv zeta. rewrite H4, H2, H3.
  assert (Hh : 0 <= s / 3600 <= 30000) by (Z.div_mod_to_equations; lia).
  assert (Hm : 0 <= s mod 3600 / 60 <= 30000) by (Z.div_mod_to_equations; lia).
  rewrite (toString_small_integer _ Hh), (toString_small_integer _ Hm).
  destruct (3600 <=? s) eqn:E; [reflexivity|].
  compare_to_Z. rewrite Z.mod_small by lia. reflexivity.
Qed.

Lemma formatTime_whole_seconds_witness :
  1 <= 3725 <= 86400 /\ formatTime 3725 = Some (str "1h 2m").
Proof.
  split; [lia|]. exact (formatTime_whole_seconds 3725 ltac:(lia)).
Defined.

Example formatTime_samples :
  formatTime 0 = Some (str "N/A") /\ formatTime nan = Some (str "N/A") /\
  formatTime 59 = Some (str "0m") /\ formatTime 3599 = Some (str "59m") /\
  formatTime 3600 = Some (str "1h 0m") /\ formatTime 5400.5 = Some (str "1h 30m") /\
  formatTime (-1) = Some (str "-1m").
Proof. repeat split. Qed.

Example js_rem_samples :
  js_rem 7 3 = 1%float /\ js_rem (-7) 3 = (-1)%float /\ js_rem 5.5 2 = 1.5%float /\
  js_rem 3725 3600 = 125%float /\ js_rem 1e300 7 = 1%float /\
  js_rem 0.1 0.03 = 0.010000000000000009%float /\
  js_rem 1e-310 3e-320 = 4.125e-321%float /\
  js_rem 123456789.123 0.001 = 0.000999993376923471%float /\
  js_rem (-5e-324) 1 = (-5e-324)%float /\
  js_rem 1.7976931348623157e308 5e-324 = 0%float /\
  js_rem 6 (-4) = 2%float /\ js_rem (-6) 2 = (-0)%float /\
  js_rem 1 0 = nan /\ js_rem infinity 2 = nan /\ js_rem 2 infinity = 2%float.
Proof. repeat split. Qed.

(** ** The raster command as a whole *)

Lemma is_byte_mod (n : Z) : is_byte (n mod 256).
Proof. unfold is_byte. apply Z.mod_pos_bound. lia. Qed.

Lemma Buffer_from_binary_bytes (s : jsstring) :
  Forall is_byte s -> Buffer_from_binary s = s.
Proof.
  unfold Buffer_from_binary. induction 1 as [|c s Hc _ IH]; [reflexivity|].
  cbn [map]. rewrite IH. f_equal. apply Z.mod_small. exact Hc.
Qed.

(** X8: for a bitmap of 1 to 524280 pixels of width and 1 to 65535
    rows, the header of the raster command announces exactly the payload
    that follows it: its two 16-bit fields hold the bytes per row and the
    number of rows, their product is the number of payload bytes, and
    every code unit of the command is a byte, so that the spool file holds
    the command unchanged. *)
Theorem raster_header_announces_payload (bm : Bitmap) :
  1 <= bm_width bm <= 524280 -> 1 <= bm_height bm <= 65535 ->
  exists xL xH yL yH payload,
    encodeBitmap bm = [29; 118; 48; 0; xL; xH; yL; yH] ++ payload /\
    le16_value xL xH = bytesPerRow_of (bm_width bm) /\
    le16_value yL yH = bm_height bm /\
    js_length payload = le16_value xL xH * le16_value yL yH /\
    Forall is_byte (encodeBitmap bm) /\
    Buffer_from_binary (encodeBitmap bm) = encodeBitmap bm.
Proof.
  destruct bm as [width height data]. cbn [bm_width bm_height]. intros Hw Hh.
  destruct (raster_encoder_layout_aux width height data ltac:(lia) ltac:(lia)) as [Hbytes Hcmd].
  destruct (packRaster_inv width height data ltac:(lia) ltac:(lia)) as (Hlen & _ & _).
  pose proof (bytesPerRow_of_bounds width) as Hb.
  set (bpr := bytesPerRow_of width) in *.
  assert (Hx : le16_value (bpr mod 256) (bpr / 256 mod 256) = bpr).
  { rewrite le16_value_spec. apply Z.mod_small. lia. }
  assert (Hy : le16_value (height mod 256) (height / 256 mod 256) = height).
  { rewrite le16_value_spec. apply Z.mod_small. lia. }
  assert (Hall : Forall is_byte (encodeBitmap (mkBitmap width height data))).
  { rewrite Hcmd. unfold le16. repeat (apply Forall_cons; split;
      [first [apply is_byte_mod | unfold is_byte; lia] |]). exact Hbytes. }
  exists (bpr mod 256), (bpr / 256 mod 256), (height mod 256), (height / 256 mod 256),
    (packRaster width height data).
  split; [exact Hcmd|]. split; [exact Hx|]. split; [exact Hy|].
  split; [rewrite Hx, Hy; exact Hlen|].
  split; [exact Hall | exact (Buffer_from_binary_bytes _ Hall)].
Qed.

Lemma raster_header_announces_payload_witness :
  1 <= 10 <= 524280 /\ 1 <= 2 <= 65535 /\
  exists xL xH yL yH payload,
    encodeBitmap (mkBitmap 10 2 sample_pixels) = [29; 118; 48; 0; xL; xH; yL; yH] ++ payload /\
    le16_value xL xH = bytesPerRow_of 10 /\
    le16_value yL yH = 2 /\
    js_length payload = le16_value xL xH * le16_value yL yH /\
    Forall is_byte (encodeBitmap (mkBitmap 10 2 sample_pixels)) /\
    Buffer_from_binary (encodeBitmap (mkBitmap 10 2 sample_pixels))
    = encodeBitmap (mkBitmap 10 2 sample_pixels).
Proof.
  split; [lia|]. split; [lia|].
  apply (raster_header_announces_payload (mkBitmap 10 2 sample_pixels)); cbn; lia.
Defined.

Lemma byte_bits_ext (a b : Z) :
  is_byte a -> is_byte b ->
  (forall k, 0 <= k < 8 -> Z.testbit a k = Z.testbit b k) -> a = b.
Proof.
  intros Ha Hb Hbits. apply Z.bits_inj'. intros k Hk.
  destruct (Z_lt_dec k 8) as [Hlt|Hge]; [apply Hbits; lia|].
  rewrite <- (Z.mod_small a 256), <- (Z.mod_small b 256) by assumption.
  change 256 with (2 ^ 8). rewrite !Z.mod_pow2_bits_high by lia. reflexivity.
Qed.

(** Two rasters of the same size that hold the same bit for every pixel
    position are the same bytes. *)
Lemma raster_bits_ext (bpr height : Z) (r1 r2 : list Z) :
  1 <= bpr -> 0 <= height ->
  Z.of_nat (length r1) = bpr * height -> Z.of_nat (length r2) = bpr * height ->
  Forall is_byte r1 -> Forall is_byte r2 ->
  (forall x y, 0 <= x < 8 * bpr -> 0 <= y < height ->
     raster_bit bpr r1 x y = raster_bit bpr r2 x y) ->
  r1 = r2.
Proof.
  intros Hbpr Hh Hl1 Hl2 Hb1 Hb2 Hbits.
  apply list_eq_same_length with (n := Z.to_nat (bpr * height)); [lia | lia |].
  intros i b1 b2 Hi Hi1 Hi2.
  apply byte_bits_ext.
  { rewrite Forall_lookup in Hb1. exact (Hb1 _ _ Hi1). }
  { rewrite Forall_lookup in Hb2. exact (Hb2 _ _ Hi2). }
  intros k Hk.
  set (yy := Z.of_nat i / bpr). set (j := Z.of_nat i mod bpr).
  pose proof (Z.div_mod (Z.of_nat i) bpr ltac:(lia)) as Hdm. fold yy j in Hdm.
  pose proof (Z.mod_pos_bound (Z.of_nat i) bpr ltac:(lia)) as Hj. fold j in Hj.
  assert (Hyy : 0 <= yy < height).
  { split; [apply Z.div_pos; lia | apply Z.div_lt_upper_bound; nia]. }
  assert (Hdiv : (8 * j + (7 - k)) / 8 = j).
  { symmetry. apply (Z.div_unique _ _ _ (7 - k)); lia. }
  assert (Hmod : (8 * j + (7 - k)) mod 8 = 7 - k).
  { symmetry. apply (Z.mod_unique _ _ j); lia. }
  specialize (Hbits (8 * j + (7 - k)) yy ltac:(lia) Hyy).
  unfold raster_bit in Hbits. rewrite Hdiv, Hmod in Hbits.
  replace (Z.to_nat (yy * bpr + j)) with i in Hbits by lia.
  rewrite Hi1, Hi2 in Hbits. replace (7 - (7 - k)) with k in Hbits by lia.
  exact Hbits.
Qed.

Lemma data_at_app_l (d1 d2 : list Z) (i : Z) :
  0 <= i < Z.of_nat (length d1) -> data_at (d1 ++ d2) i = data_at d1 i.
Proof. intros Hi. unfold data_at. rewrite lookup_app_l by lia. reflexivity. Qed.

Lemma data_at_app_r (d1 d2 : list Z) (i : Z) :
  Z.of_nat (length d1) <= i ->
  data_at (d1 ++ d2) i = data_at d2 (i - Z.of_nat (length d1)).
Proof.
  intros Hi. unfold data_at. rewrite lookup_app_r by lia.
  replace (Z.to_nat (i - Z.of_nat (length d1))) with (Z.to_nat i - length d1)%nat by lia.
  reflexivity.
Qed.

Lemma isBlack_upper_rows (width h1 : Z) (d1 d2 : list Z) (x y : Z) :
  Z.of_nat (length d1) = 4 * width * h1 ->
  0 <= x < width -> 0 <= y < h1 ->
  isBlack width (d1 ++ d2) x y = isBlack width d1 x y.
Proof.
  intros Hlen Hx Hy. unfold isBlack. cbv zeta.
  rewrite !data_at_app_l by nia. reflexivity.
Qed.

Lemma isBlack_lower_rows (width h1 : Z) (d1 d2 : list Z) (x y : Z) :
  Z.of_nat (length d1) = 4 * width * h1 ->
  0 <= x < width -> h1 <= y -> 0 <= h1 ->
  isBlack width (d1 ++ d2) x y = isBlack width d2 x (y - h1).
Proof.
  intros Hlen Hx Hy Hh. unfold isBlack. cbv zeta.
  rewrite !data_at_app_r by nia. rewrite Hlen.
  replace ((y * width + x) * 4 - 4 * width * h1) with (((y - h1) * width + x) * 4) by lia.
  replace ((y * width + x) * 4 + 1 - 4 * width * h1) with (((y - h1) * width + x) * 4 + 1) by lia.
  replace ((y * width + x) * 4 + 2 - 4 * width * h1) with (((y - h1) * width + x) * 4 + 2) by lia.
  replace ((y * width + x) * 4 + 3 - 4 * width * h1) with (((y - h1) * width + x) * 4 + 3) by lia.
  reflexivity.
Qed.

(** X9: the rows are packed independently of each other: the raster
    of an image is the raster of its upper rows followed by the raster of
    its lower rows. *)
Theorem packRaster_rows_append (width h1 h2 : Z) (d1 d2 : list Z) :
  1 <= width -> 0 <= h1 -> 0 <= h2 ->
  js_length d1 = 4 * width * h1 ->
  packRaster width (h1 + h2) (d1 ++ d2) = packRaster width h1 d1 ++ packRaster width h2 d2.
Proof.
  intros Hw Hh1 Hh2 Hd1. unfold js_length in Hd1.
  destruct (packRaster_inv width (h1 + h2) (d1 ++ d2) ltac:(lia) ltac:(lia)) as (Hl & Hb & Hbits).
  destruct (packRaster_inv width h1 d1 ltac:(lia) ltac:(lia)) as (Hl1 & Hb1 & Hbits1).
  destruct (packRaster_inv width h2 d2 ltac:(lia) ltac:(lia)) as (Hl2 & Hb2 & Hbits2).
  pose proof (bytesPerRow_of_bounds width) as Hbpr.
  set (bpr := bytesPerRow_of width) in *.
  apply (raster_bits_ext bpr (h1 + h2)); try assumption; try lia.
  - rewrite length_app. lia.
  - apply Forall_app. split; assumption.
  - intros x y Hx Hy. rewrite Hbits by assumption.
    assert (Hx8 : 0 <= x / 8 < bpr)
      by (split; [apply Z.div_pos; lia | apply Z.div_lt_upper_bound; lia]).
    destruct (Z.ltb_spec x width) as [Hin|Hout]; cbn [andb].
    + destruct (Z_lt_dec y h1) as [Hup|Hlow].
      * rewrite (isBlack_upper_rows width h1) by (auto; lia).
        specialize (Hbits1 x y Hx ltac:(lia)). unfold raster_bit in *.
        rewrite lookup_app_l by nia.
        rewrite Hbits1. destruct (Z.ltb_spec x width); [reflexivity | lia].
      * rewrite (isBlack_lower_rows width h1) by (auto; lia).
        specialize (Hbits2 x (y - h1) Hx ltac:(lia)). unfold raster_bit in *.
        rewrite lookup_app_r by nia.
        replace (Z.to_nat (y * bpr + x / 8) - length (packRaster width h1 d1))%nat
          with (Z.to_nat ((y - h1) * bpr + x / 8)) by nia.
        rewrite Hbits2. destruct (Z.ltb_spec x width); [reflexivity | lia].
    + destruct (Z_lt_dec y h1) as [Hup|Hlow].
      * specialize (Hbits1 x y Hx ltac:(lia)). unfold raster_bit in *.
        rewrite lookup_app_l by nia.
        rewrite Hbits1. destruct (Z.ltb_spec x width); [lia | reflexivity].
      * specialize (Hbits2 x (y - h1) Hx ltac:(lia)). unfold raster_bit in *.
        rewrite lookup_app_r by nia.
        replace (Z.to_nat (y * bpr + x / 8) - length (packRaster width h1 d1))%nat
          with (Z.to_nat ((y - h1) * bpr + x / 8)) by nia.
        rewrite Hbits2. destruct (Z.ltb_spec x width); [lia | reflexivity].
Qed.

Lemma packRaster_rows_append_witness :
  1 <= 10 /\ 0 <= 1 /\ 0 <= 1 /\
  js_length (take 40 sample_pixels) = 4 * 10 * 1 /\
  packRaster 10 (1 + 1) (take 40 sample_pixels ++ drop 40 sample_pixels)
  = packRaster 10 1 (take 40 sample_pixels) ++ packRaster 10 1 (drop 40 sample_pixels).
Proof.
  split; [lia|]. split; [lia|]. split; [lia|]. split; [reflexivity|].
  apply (packRaster_rows_append 10 1 1 (take 40 sample_pixels) (drop 40 sample_pixels));
    [lia | lia | lia | reflexivity].
Defined.

(** ** The QR command as a whole *)

Lemma lor_byte (a b : Z) : is_byte a -> is_byte b -> is_byte (Z.lor a b).
Proof.
  unfold is_byte. intros Ha Hb.
  assert (H0 : 0 <= Z.lor a b) by (apply Z.lor_nonneg; lia).
  split; [exact H0|].
  destruct (Z.eq_dec (Z.lor a b) 0) as [->|Hnz]; [lia|].
  change 256 with (2 ^ 8). apply Z.log2_lt_pow2; [lia|].
  rewrite Z.log2_lor by lia.
  assert (Z.log2 a < 8).
  { destruct (Z.eq_dec a 0) as [->|]; [cbn; lia|]. apply Z.log2_lt_pow2; cbn; lia. }
  assert (Z.log2 b < 8).
  { destruct (Z.eq_dec b 0) as [->|]; [cbn; lia|]. apply Z.log2_lt_pow2; cbn; lia. }
  lia.
Qed.

Lemma continuation_byte (v : Z) : is_byte (Z.lor 128 (Z.land v 63)).
Proof.
  apply lor_byte; [unfold is_byte; lia|].
  change 63 with (Z.ones 6). rewrite Z.land_ones by lia. change (2 ^ 6) with 64.
  pose proof (Z.mod_pos_bound v 64 ltac:(lia)). unfold is_byte. lia.
Qed.

Lemma lead_byte (tag v k bound : Z) :
  is_byte tag -> 0 <= k -> 0 <= v < bound * 2 ^ k -> 0 < bound <= 256 ->
  is_byte (Z.lor tag (Z.shiftr v k)).
Proof.
  intros Ht Hk Hv Hb. apply lor_byte; [exact Ht|].
  rewrite Z.shiftr_div_pow2 by lia. unfold is_byte.
  assert (0 < 2 ^ k) by (apply Z.pow_pos_nonneg; lia).
  split; [apply Z.div_pos; lia|].
  apply Z.div_lt_upper_bound; nia.
Qed.

Lemma utf8_code_point_bytes (cp : Z) :
  0 <= cp < 1114112 -> Forall is_byte (utf8_code_point cp).
Proof.
  intros Hcp. unfold utf8_code_point.
  destruct (cp <? 128) eqn:E1; [compare_to_Z; repeat constructor; unfold is_byte; lia|].
  destruct (cp <? 2048) eqn:E2; [|destruct (cp <? 65536) eqn:E3]; compare_to_Z;
    repeat (apply Forall_cons; split;
      [first [apply continuation_byte
             | apply (lead_byte _ _ _ 32); [unfold is_byte| | |]; lia
             | apply (lead_byte _ _ _ 16); [unfold is_byte| | |]; lia
             | apply (lead_byte _ _ _ 5); [unfold is_byte| | |]; lia] |]);
    constructor.
Qed.

Lemma utf8_code_point_length (cp : Z) :
  (1 <= length (utf8_code_point cp) <= 4)%nat /\
  (cp < 65536 -> (length (utf8_code_point cp) <= 3)%nat).
Proof.
  unfold utf8_code_point.
  destruct (cp <? 128) eqn:E1; [cbn; lia|].
  destruct (cp <? 2048) eqn:E2; [cbn; lia|].
  destruct (cp <? 65536) eqn:E3; [cbn; lia|]. compare_to_Z. cbn. lia.
Qed.

Lemma surrogate_pair_code_point (hi lo : Z) :
  is_high_surrogate hi = true -> is_low_surrogate lo = true ->
  65536 <= 65536 + Z.shiftl (hi - 55296) 10 + (lo - 56320) < 1114112.
Proof.
  unfold is_high_surrogate, is_low_surrogate. intros Hhi Hlo.
  apply andb_prop in Hhi as [H1 H2]. apply andb_prop in Hlo as [H3 H4].
  compare_to_Z. rewrite Z.shiftl_mul_pow2 by lia. change (2 ^ 10) with 1024. lia.
Qed.

Lemma utf8_spec (n : nat) :
  forall s, (length s <= n)%nat -> Forall is_code_unit s ->
    Forall is_byte (utf8 s) /\
    (length s <= length (utf8 s) <= 3 * length s)%nat.
Proof.
  induction n as [|n IH]; intros s Hn Hs.
  { destruct s; [|cbn in Hn; lia]. cbn. split; [constructor | lia]. }
  destruct s as [|c rest]; [cbn; split; [constructor | lia]|].
  apply Forall_cons in Hs as [Hc Hrest]. unfold is_code_unit in Hc.
  assert (Hfffd : Forall is_byte (utf8_code_point 65533)) by (apply utf8_code_point_bytes; lia).
  destruct (IH rest ltac:(cbn in Hn; lia) Hrest) as [Hb1 Hl1].
  cbn [utf8]. destruct (is_high_surrogate c) eqn:Ehi.
  - destruct rest as [|lo rest'].
    + split; [exact Hfffd | cbn; lia].
    + destruct (is_low_surrogate lo) eqn:Elo.
      * apply Forall_cons in Hrest as [_ Hrest'].
        destruct (IH rest' ltac:(cbn in Hn; lia) Hrest') as [Hb2 Hl2].
        pose proof (surrogate_pair_code_point c lo Ehi Elo) as Hcp.
        pose proof (utf8_code_point_length (65536 + Z.shiftl (c - 55296) 10 + (lo - 56320)))
          as [Hlen _].
        split.
        -- apply Forall_app. split; [apply utf8_code_point_bytes; lia | exact Hb2].
        -- rewrite length_app. cbn [length].
           assert (2 <= length (utf8_code_point (65536 + Z.shiftl (c - 55296) 10 + (lo - 56320))))%nat.
           { unfold utf8_code_point.
             destruct (_ <? 128) eqn:E1; [compare_to_Z; lia|].
             destruct (_ <? 2048) eqn:E2; [compare_to_Z; lia|].
             destruct (_ <? 65536) eqn:E3; [compare_to_Z; lia|]. cbn. lia. }
           lia.
      * split; [apply Forall_app; split; assumption|].
        rewrite length_app. change (length (utf8_code_point 65533)) with 3%nat.
        cbn [length] in *. lia.
  - pose proof (utf8_code_point_length c) as [Hlen Hlen3].
    destruct (is_low_surrogate c) eqn:Elo.
    + split; [apply Forall_app; split; assumption|].
      rewrite length_app. change (length (utf8_code_point 65533)) with 3%nat.
      cbn [length] in *. lia.
    + split; [apply Forall_app; split; [apply utf8_code_point_bytes; lia | exact Hb1]|].
      rewrite length_app. cbn [length] in *. lia.
Qed.

(** X10: for a string of at most 21844 code units, the UTF-8 payload
    has between one and three bytes per code unit and the length field of
    the store command is exact: it holds the number of payload bytes
    plus 3. *)
Theorem qr_length_exact_for_text (data : jsstring) :
  Forall is_code_unit data -> js_length data <= 21844 ->
  js_length data <= js_length (utf8 data) <= 3 * js_length data /\
  length_field (qr_store (utf8 data)) = Some (js_length (utf8 data) + 3).
Proof.
  intros Hdata Hlen.
  destruct (utf8_spec (length data) data (le_n _) Hdata) as [_ Hl].
  unfold js_length in *. split; [lia|].
  rewrite qr_store_length_field. f_equal. unfold js_length. apply Z.mod_small. lia.
Qed.

Lemma qr_length_exact_for_text_witness :
  Forall is_code_unit [82; 252; 8364; 55357; 56832] /\
  js_length [82; 252; 8364; 55357; 56832] <= 21844 /\
  length_field (qr_store (utf8 [82; 252; 8364; 55357; 56832])) = Some (10 + 3).
Proof.
  assert (H : Forall is_code_unit [82; 252; 8364; 55357; 56832])
    by (repeat constructor; unfold is_code_unit; lia).
  split; [exact H|]. split; [unfold js_length; cbn [length]; lia|].
  exact (proj2 (qr_length_exact_for_text [82; 252; 8364; 55357; 56832] H
                 ltac:(unfold js_length; cbn [length]; lia))).
Defined.

(** X11: for a module size and error-correction level made of bytes,
    every code unit of the QR command is a byte, whatever the characters
    of the data are, so that the spool file holds the command
    unchanged. *)
Theorem qr_command_is_bytes (data : jsstring) (moduleSize : Z) (ecLevel : jsstring) :
  Forall is_code_unit data -> is_byte moduleSize -> Forall is_byte ecLevel ->
  Forall is_byte (buildEpsonQR data moduleSize ecLevel) /\
  Buffer_from_binary (buildEpsonQR data moduleSize ecLevel)
  = buildEpsonQR data moduleSize ecLevel.
Proof.
  intros Hdata Hms Hec.
  destruct (utf8_spec (length data) data (le_n _) Hdata) as [Hbytes _].
  assert (Hall : Forall is_byte (buildEpsonQR data moduleSize ecLevel)).
  { rewrite buildEpsonQR_bytes.
    repeat first
      [ apply Forall_app; split
      | apply Forall_cons; split;
          [first [apply is_byte_mod | unfold is_byte in *; rewrite ?Z.mod_small; lia] |]
      | apply Forall_nil_2 | assumption ]. }
  split; [exact Hall | exact (Buffer_from_binary_bytes _ Hall)].
Qed.

Lemma qr_command_is_bytes_witness :
  Forall is_code_unit (str "https://www.strava.com/activities/7") /\
  is_byte 5 /\ Forall is_byte (str "1") /\
  Buffer_from_binary (buildEpsonQR (str "https://www.strava.com/activities/7") 5 (str "1"))
  = buildEpsonQR (str "https://www.strava.com/activities/7") 5 (str "1").
Proof.
  assert (H : Forall is_code_unit (str "https://www.strava.com/activities/7"))
    by (repeat constructor; unfold is_code_unit; cbn; lia).
  assert (H1 : Forall is_byte (str "1")) by (repeat constructor; unfold is_byte; cbn; lia).
  split; [exact H|]. split; [unfold is_byte; lia|]. split; [exact H1|].
  exact (proj2 (qr_command_is_bytes _ 5 (str "1") H ltac:(unfold is_byte; lia) H1)).
Defined.

(** ** Splitting the stream at the section breaks *)

Lemma starts_with_app (sep rest : jsstring) : starts_with sep (sep ++ rest) = true.
Proof.
  induction sep as [|a sep IH]; [reflexivity|].
  cbn. now rewrite Z.eqb_refl, IH.
Qed.

Lemma starts_with_inv (sep s : jsstring) :
  starts_with sep s = true -> s = sep ++ drop (length sep) s.
Proof.
  revert s. induction sep as [|a sep IH]; intros s H; [reflexivity|].
  destruct s as [|b s]; [discriminate|]. cbn in H.
  apply andb_prop in H as [H1 H2]. apply Z.eqb_eq in H1. subst b.
  cbn. f_equal. exact (IH s H2).
Qed.

Lemma split_go_skip (sep passed s piece : jsstring) :
  split_go sep (passed ++ s) (length passed) piece = split_go sep s 0 piece.
Proof. induction passed as [|c passed IH]; [reflexivity | exact IH]. Qed.

Lemma split_go_found (sep s piece : jsstring) :
  sep <> [] ->
  split_go sep (sep ++ s) 0 piece = piece :: split_go sep s 0 [].
Proof.
  intros Hsep. destruct sep as [|c sep']; [congruence|].
  change ((c :: sep') ++ s) with (c :: (sep' ++ s)).
  cbn [split_go]. change (c :: sep' ++ s) with ((c :: sep') ++ s).
  rewrite starts_with_app. f_equal.
  replace (length (c :: sep') - 1)%nat with (length sep') by (cbn; lia).
  apply split_go_skip.
Qed.

Lemma split_go_other (sep rest piece : jsstring) (c : Z) :
  starts_with sep (c :: rest) = false ->
  split_go sep (c :: rest) 0 piece = split_go sep rest 0 (piece ++ [c]).
Proof. intros H. cbn [split_go]. now rewrite H. Qed.

(** The three cases of a split, by the length of what is left to read. *)
Lemma split_go_cases (sep s : jsstring) :
  sep <> [] ->
  s = [] \/
  (exists rest, s = sep ++ rest /\ (length rest < length s)%nat) \/
  (exists c rest, s = c :: rest /\ starts_with sep s = false).
Proof.
  intros Hsep. destruct s as [|c rest]; [now left|]. right.
  destruct (starts_with sep (c :: rest)) eqn:E.
  - left. exists (drop (length sep) (c :: rest)). split; [exact (starts_with_inv _ _ E)|].
    rewrite length_drop. destruct sep; [congruence|]. cbn. lia.
  - right. eauto.
Qed.

Lemma js_join_cons (p : jsstring) (rest : list jsstring) (sep : jsstring) :
  rest <> [] -> js_join (p :: rest) sep = p ++ sep ++ js_join rest sep.
Proof. destruct rest; [congruence | reflexivity]. Qed.

Lemma split_go_nonempty (sep s : jsstring) (skip : nat) (piece : jsstring) :
  split_go sep s skip piece <> [].
Proof.
  revert skip piece. induction s as [|c rest IH]; intros skip piece; cbn; [discriminate|].
  destruct skip; [|apply IH]. destruct (starts_with sep (c :: rest)); [discriminate | apply IH].
Qed.

Lemma split_go_join (sep : jsstring) (n : nat) :
  sep <> [] ->
  forall s piece, (length s <= n)%nat ->
    js_join (split_go sep s 0 piece) sep = piece ++ s.
Proof.
  intros Hsep. induction n as [|n IH]; intros s piece Hn.
  { destruct s; [cbn; now rewrite app_nil_r | cbn in Hn; lia]. }
  destruct (split_go_cases sep s Hsep) as [-> | [(rest & -> & Hlt) | (c & rest & -> & Hno)]].
  - cbn. now rewrite app_nil_r.
  - rewrite split_go_found, js_join_cons by (auto using split_go_nonempty).
    rewrite IH by lia. reflexivity.
  - rewrite split_go_other, IH by (auto; cbn in Hn; lia). now rewrite <- app_assoc.
Qed.

Lemma js_join_length (pieces : list jsstring) (sep : jsstring) :
  pieces <> [] ->
  js_length (js_join pieces sep)
  = js_length (concat pieces) + js_length sep * (js_length pieces - 1).
Proof.
  induction pieces as [|p rest IH]; [congruence|]. intros _.
  destruct rest as [|q rest'].
  - cbn [js_join concat]. unfold js_length. cbn [length]. lia.
  - rewrite js_join_cons by discriminate.
    change (concat (p :: q :: rest')) with (p ++ concat (q :: rest')).
    rewrite !js_length_app, IH by discriminate.
    replace (js_length (p :: q :: rest')) with (js_length (q :: rest') + 1)
      by (unfold js_length; cbn [length]; lia).
    lia.
Qed.

Lemma piece_clear_no_occurrence (sep piece s : jsstring) :
  sep <> [] -> piece_clear sep piece s -> ~ occurs_in sep piece.
Proof.
  intros Hsep Hclear (before & after & ->).
  assert (Hlt : (length before < length (before ++ sep ++ after))%nat).
  { rewrite !length_app. destruct sep; [congruence | cbn; lia]. }
  specialize (Hclear (length before) Hlt).
  rewrite <- !app_assoc, drop_app_length, starts_with_app in Hclear. discriminate.
Qed.

Lemma split_go_pieces_clear (sep : jsstring) (n : nat) :
  sep <> [] ->
  forall s piece, (length s <= n)%nat -> piece_clear sep piece s ->
    Forall (fun p => ~ occurs_in sep p) (split_go sep s 0 piece).
Proof.
  intros Hsep. induction n as [|n IH]; intros s piece Hn Hclear.
  { destruct s; [|cbn in Hn; lia]. cbn. constructor; [|constructor].
    exact (piece_clear_no_occurrence sep piece [] Hsep Hclear). }
  destruct (split_go_cases sep s Hsep) as [-> | [(rest & -> & Hlt) | (c & rest & -> & Hno)]].
  - cbn. constructor; [|constructor].
    exact (piece_clear_no_occurrence sep piece [] Hsep Hclear).
  - rewrite split_go_found by exact Hsep. constructor.
    + exact (piece_clear_no_occurrence sep piece _ Hsep Hclear).
    + apply IH; [lia|]. intros i Hi. cbn in Hi. lia.
  - rewrite split_go_other by exact Hno. apply IH; [cbn in Hn; lia|].
    intros i Hi. rewrite <- app_assoc. cbn [app]. rewrite length_app in Hi. cbn in Hi.
    destruct (decide (i < length piece)%nat) as [Hlt|Hge]; [apply Hclear; exact Hlt|].
    replace i with (length piece) by lia. rewrite drop_app_length. exact Hno.
Qed.

Lemma SECTION_BREAK_nonempty : SECTION_BREAK <> [].
Proof. discriminate. Qed.

Lemma js_split_join (s : jsstring) :
  js_join (js_split s SECTION_BREAK) SECTION_BREAK = s.
Proof.
  unfold js_split.
  now rewrite (split_go_join SECTION_BREAK (length s) SECTION_BREAK_nonempty s [] (le_n _)).
Qed.

Lemma js_split_clear (s : jsstring) :
  Forall (fun p => ~ occurs_in SECTION_BREAK p) (js_split s SECTION_BREAK).
Proof.
  apply (split_go_pieces_clear SECTION_BREAK (length s) SECTION_BREAK_nonempty s [] (le_n _)).
  intros i Hi. cbn in Hi. lia.
Qed.

Lemma concat_nonempty_pieces (pieces : list jsstring) :
  concat (filter (fun s => 0 < js_length s) pieces) = concat pieces.
Proof.
  induction pieces as [|p rest IH]; [reflexivity|].
  rewrite filter_cons. destruct (decide (0 < js_length p)) as [Hp|Hp]; cbn [concat].
  - now rewrite IH.
  - rewrite IH. destruct p; [reflexivity | unfold js_length in Hp; cbn in Hp; lia].
Qed.

Lemma indexed_contents (sections : list jsstring) :
  forall start, map snd (indexed start sections) = sections.
Proof.
  induction sections as [|s rest IH]; intros start; [reflexivity|].
  cbn. now rewrite IH.
Qed.

(** X12: paced or not, the printer is sent the same bytes: the
    contents of the submissions, one after the other, are the stream
    without its section breaks; and when the delay is zero or there is at
    most one section, there is one submission, at time 0, of all of
    it. *)
Theorem both_modes_send_the_same_bytes
    (lpstat : jsstring -> bool) (exec_error : nat -> bool)
    (exec_duration timer_lag : nat -> nat) (mode : PrintMode) (fullContent : jsstring) :
  let trace := transmit lpstat exec_error exec_duration timer_lag mode fullContent in
  concat (map (fun s => s.2) (submissions trace)) = cleanContent fullContent /\
  ((0 <? SLOW_PRINT_DELAYS mode) && (1 <? js_length (sectionsOf fullContent)) = false ->
   submissions trace = [(0, 0%nat, cleanContent fullContent)]).
Proof.
  intros trace. subst trace. unfold transmit. cbv zeta.
  destruct ((0 <? SLOW_PRINT_DELAYS mode) && (1 <? js_length (sectionsOf fullContent))).
  - split; [|discriminate].
    pose proof (printSection_order lpstat exec_error exec_duration timer_lag
                  (sectionsOf fullContent) (SLOW_PRINT_DELAYS mode)
                  (length (sectionsOf fullContent)) 0%nat 0 ltac:(lia)) as Horder.
    apply (f_equal (map snd)) in Horder.
    rewrite map_map in Horder. cbn [snd] in Horder. rewrite drop_0, indexed_contents in Horder.
    change (fun s : Z * nat * jsstring => s.2) with (@snd (Z * nat) jsstring).
    erewrite map_ext; [rewrite Horder | reflexivity].
    unfold sectionsOf, cleanContent. apply concat_nonempty_pieces.
  - destruct (exec_error 0%nat); cbn [submissions map concat snd];
      (split; [apply app_nil_r | reflexivity]).
Qed.

(** X13: no section that is sent in paced mode is empty, and none
    contains the text of the section break. *)
Theorem sections_hold_no_marker (fullContent : jsstring) :
  Forall (fun section => 0 < js_length section /\ ~ occurs_in SECTION_BREAK section)
    (sectionsOf fullContent).
Proof.
  apply Forall_forall. intros section Hin. unfold sectionsOf in Hin.
  apply list_elem_of_filter in Hin as [Hlen Hin]. split; [exact Hlen|].
  pose proof (js_split_clear fullContent) as Hclear.
  rewrite Forall_forall in Hclear. exact (Hclear section Hin).
Qed.

Lemma cleanContent_length (fullContent : jsstring) :
  js_length (cleanContent fullContent)
  = js_length fullContent - 13 * section_breaks fullContent.
Proof.
  pose proof (js_join_length (js_split fullContent SECTION_BREAK) SECTION_BREAK
                (split_go_nonempty _ _ _ _)) as Hlen.
  rewrite js_split_join in Hlen. unfold cleanContent, section_breaks.
  change (js_length SECTION_BREAK) with 13 in Hlen. lia.
Qed.

(** X14: splitting at the section breaks loses nothing: the pieces
    joined by the break are the stream again, and the stream without its
    breaks is shorter by 13 characters for each break. *)
Theorem split_loses_nothing (fullContent : jsstring) :
  js_join (js_split fullContent SECTION_BREAK) SECTION_BREAK = fullContent /\
  js_length (cleanContent fullContent)
  = js_length fullContent - 13 * section_breaks fullContent.
Proof. split; [apply js_split_join | apply cleanContent_length]. Qed.

(** X15: the text of the section break is cut wherever it stands in
    the stream, be it inside an activity name or the bytes of an image:
    a stream in which it occurs has at least one break and is sent at
    least 13 characters shorter. *)
Theorem marker_anywhere_is_cut (fullContent : jsstring) :
  occurs_in SECTION_BREAK fullContent ->
  1 <= section_breaks fullContent /\
  js_length (cleanContent fullContent) <= js_length fullContent - 13.
Proof.
  intros Hocc.
  assert (Hbreaks : 1 <= section_breaks fullContent).
  { unfold section_breaks.
    pose proof (js_split_join fullContent) as Hjoin.
    pose proof (js_split_clear fullContent) as Hclear.
    destruct (js_split fullContent SECTION_BREAK) as [|p [|q rest]] eqn:E.
    - exfalso. exact (split_go_nonempty _ _ _ _ E).
    - exfalso. cbn in Hjoin. rewrite app_nil_r in Hjoin. subst p.
      apply Forall_cons in Hclear as [Hp _]. exact (Hp Hocc).
    - unfold js_length. cbn [length]. lia. }
  split; [exact Hbreaks|].
  rewrite cleanContent_length. lia.
Qed.

Lemma marker_anywhere_is_cut_witness :
  occurs_in SECTION_BREAK (str "MORNING <<<SECTION>>> RUN") /\
  1 <= section_breaks (str "MORNING <<<SECTION>>> RUN") /\
  js_length (cleanContent (str "MORNING <<<SECTION>>> RUN"))
  <= js_length (str "MORNING <<<SECTION>>> RUN") - 13.
Proof.
  assert (H : occurs_in SECTION_BREAK (str "MORNING <<<SECTION>>> RUN"))
    by (exists (str "MORNING "), (str " RUN"); reflexivity).
  split; [exact H|]. exact (marker_anywhere_is_cut _ H).
Defined.

Example marker_inside_a_marker :
  cleanContent (str "<<<SEC" ++ SECTION_BREAK ++ str "TION>>>") = SECTION_BREAK.
Proof. reflexivity. Qed.

(** ** Printer discovery *)

Lemma printSection_submits_to
    (lpstat : jsstring -> bool) (exec_error : nat -> bool)
    (exec_duration timer_lag : nat -> nat) (sections : list jsstring) (printDelay : Z)
    (remaining : nat) :
  forall index time, (length sections - index = remaining)%nat ->
    forall t i p c,
      (t, Submit i p c)
        ∈ printSection lpstat exec_error exec_duration timer_lag sections printDelay index time ->
      p = printerName lpstat.
Proof.
  induction remaining as [|remaining IH]; intros index time Hrem t i p c Hin.
  - rewrite printSection_done in Hin by lia.
    apply list_elem_of_singleton in Hin. discriminate Hin.
  - destruct (lookup_lt_is_Some_2 sections index ltac:(lia)) as [content Hcontent].
    rewrite (printSection_next _ _ _ _ _ _ _ _ _ Hcontent) in Hin.
    apply elem_of_cons in Hin as [Hin|Hin]; [congruence|].
    apply elem_of_cons in Hin as [Hin|Hin].
    + destruct (exec_error index); discriminate Hin.
    + eapply IH; [|exact Hin]. lia.
Qed.

(** X16: the printer is chosen once for the whole receipt: it is the
    first candidate, in the order of the list, that [lpstat] resolves, or
    none (the default printer) when [lpstat] resolves no candidate; and
    every submission, in either mode, goes to that choice. *)
Theorem printer_is_chosen_once (lpstat : jsstring -> bool) :
  match printerName lpstat with
  | Some name =>
      exists i, possiblePrinters !! i = Some name /\ lpstat name = true /\
                forall j other, (j < i)%nat -> possiblePrinters !! j = Some other ->
                                lpstat other = false
  | None => forall name, name ∈ possiblePrinters -> lpstat name = false
  end /\
  forall exec_error exec_duration timer_lag mode fullContent t i p c,
    (t, Submit i p c) ∈ transmit lpstat exec_error exec_duration timer_lag mode fullContent ->
    p = printerName lpstat.
Proof.
  split.
  - unfold printerName. generalize possiblePrinters. intros candidates.
    induction candidates as [|first rest IH]; cbn [List.find].
    + intros name Hin. inversion Hin.
    + destruct (lpstat first) eqn:E.
      * exists 0%nat. split; [reflexivity|]. split; [exact E|]. intros j other Hj. lia.
      * destruct (List.find lpstat rest) as [name|].
        -- destruct IH as (i & H1 & H2 & H3). exists (S i). split; [exact H1|].
           split; [exact H2|]. intros [|j] other Hj Hother.
           ++ cbn in Hother. congruence.
           ++ apply (H3 j other); [lia | exact Hother].
        -- intros name Hin. apply elem_of_cons in Hin as [->|Hin]; [exact E | exact (IH name Hin)].
  - intros exec_error exec_duration timer_lag mode fullContent t i p c. unfold transmit. cbv zeta.
    destruct ((0 <? SLOW_PRINT_DELAYS mode) && (1 <? js_length (sectionsOf fullContent))).
    + apply (printSection_submits_to _ _ _ _ _ _ (length (sectionsOf fullContent))). lia.
    + intros Hin. apply elem_of_cons in Hin as [Hin|Hin]; [congruence|].
      apply list_elem_of_singleton in Hin. destruct (exec_error 0%nat); discriminate Hin.
Qed.

(** ** Routes of the server *)

Lemma handlePrint_status
    (receipt_statements : json -> json -> json -> result unit) (parsed : result json) :
  status (handlePrint receipt_statements parsed) ∈ [200; 400; 500].
Proof.
  destruct parsed as [data|message]; [|in_list].
  assert (Hcases : data = JNull \/ data <> JNull)
    by (destruct data; auto; right; discriminate).
  destruct Hcases as [->|Hdata]; [in_list|].
  rewrite (handlePrint_parsed _ _ Hdata).
  destruct (js_truthy _); [destruct (label_throws _)|]; in_list.
Qed.

Lemma handlePrint_ignores_pipeline
    (statements statements' : json -> json -> json -> result unit) (parsed : result json) :
  handlePrint statements parsed = handlePrint statements' parsed.
Proof.
  destruct parsed as [data|message]; [|reflexivity].
  assert (Hcases : data = JNull \/ data <> JNull)
    by (destruct data; auto; right; discriminate).
  destruct Hcases as [->|Hdata]; [reflexivity|].
  now rewrite !(handlePrint_parsed _ _ Hdata).
Qed.

(** X17: the routes of the server: OPTIONS is answered 200 without a
    body for every URL, GET /status is answered 200 with the status
    "ready" and port 3001, a request is answered 404 "Not found" exactly
    when it is none of OPTIONS, GET /status and POST /print, the status is
    always one of 200, 400, 404 and 500, and no answer depends on what the
    receipt pipeline does. *)
Theorem request_routing
    (receipt_statements : json -> json -> json -> result unit)
    (method : Method) (url : jsstring) (parsed : result json) :
  let response := handleRequest receipt_statements method url parsed in
  (method = OPTIONS -> response = mkResponse 200 NoBody) /\
  (method = GET -> url = str "/status" -> response = mkResponse 200 (StatusReady 3001)) /\
  (status response = 404 <->
     method <> OPTIONS /\ ~ (method = GET /\ url = str "/status")
     /\ ~ (method = POST /\ url = str "/print")) /\
  (status response = 404 -> body response = ErrorBody (str "Not found")) /\
  status response ∈ [200; 400; 404; 500] /\
  (forall statements', handleRequest statements' method url parsed = response).
Proof.
  intros response. subst response.
  pose proof (handlePrint_status receipt_statements parsed) as Hprint.
  assert (Hnot404 : status (handlePrint receipt_statements parsed) <> 404).
  { intros E. rewrite E in Hprint.
    repeat (apply elem_of_cons in Hprint as [Hprint|Hprint]; [discriminate|]).
    inversion Hprint. }
  split; [intros ->; reflexivity|].
  split; [intros -> ->; reflexivity|].
  split; [split|].
  - intros H404. unfold handleRequest in H404. destruct method.
    + destruct (bool_decide (url = str "/status")) eqn:E; [discriminate H404|].
      apply bool_decide_eq_false in E.
      split; [discriminate|]. split; [intros [_ ?]; contradiction | intros [? _]; discriminate].
    + destruct (bool_decide (url = str "/print")) eqn:E; [contradiction|].
      apply bool_decide_eq_false in E.
      split; [discriminate|]. split; [intros [? _]; discriminate | intros [_ ?]; contradiction].
    + discriminate H404.
    + split; [discriminate|]. split; intros [? _]; discriminate.
  - intros (H1 & H2 & H3). unfold handleRequest. destruct method.
    + rewrite bool_decide_eq_false_2; [reflexivity|]. intros E. apply H2. auto.
    + rewrite bool_decide_eq_false_2; [reflexivity|]. intros E. apply H3. auto.
    + congruence.
    + reflexivity.
  - split; [|split].
    + unfold handleRequest. intros H404. destruct method.
      * destruct (bool_decide _); [discriminate H404 | reflexivity].
      * destruct (bool_decide _); [contradiction | reflexivity].
      * discriminate H404.
      * reflexivity.
    + unfold handleRequest. destruct method.
      * destruct (bool_decide _); in_list.
      * destruct (bool_decide _); [|in_list].
        repeat (apply elem_of_cons in Hprint as [->|Hprint]; [in_list|]). inversion Hprint.
      * in_list.
      * in_list.
    + intros statements'. unfold handleRequest. destruct method; try reflexivity.
      destruct (bool_decide _); [apply handlePrint_ignores_pipeline | reflexivity].
Qed.

(** ** Photo block *)

Lemma photoFragments_ext (jimpModule : bool) (fetch fetch' : jsstring -> option Bitmap)
    (photo : Photo) :
  (forall url, photoUrl photo = Some url -> fetch url = fetch' url) ->
  photoFragments jimpModule fetch photo = photoFragments jimpModule fetch' photo.
Proof.
  intros H. unfold photoFragments. destruct (photoUrl photo) as [url|]; [|reflexivity].
  now rewrite (H url eq_refl).
Qed.

Lemma photoFragments_rasters (jimpModule : bool) (fetch : jsstring -> option Bitmap)
    (photo : Photo) :
  (length (List.filter is_raster_command (photoFragments jimpModule fetch photo)) <= 1)%nat.
Proof.
  unfold photoFragments. destruct (photoUrl photo) as [url|]; [|cbn; lia].
  destruct (string_truthy (Some url) && jimpModule); [|cbn; lia].
  destruct (fetch url) as [bitmap|]; [|cbn; lia].
  cbn [List.filter]. destruct (is_raster_command (encodeBitmap bitmap)); cbn; lia.
Qed.

Lemma fragments_rasters (jimpModule : bool) (fetch : jsstring -> option Bitmap)
    (photos : list Photo) :
  (length (List.filter is_raster_command (concat (map (photoFragments jimpModule fetch) photos)))
   <= length photos)%nat.
Proof.
  induction photos as [|photo rest IH]; [cbn; lia|].
  cbn [map concat]. rewrite List.filter_app, length_app.
  pose proof (photoFragments_rasters jimpModule fetch photo). cbn [length]. lia.
Qed.

(** X18: the photo block looks at the first three photos only: it is
    the same for two photo lists of the same length that agree on their
    first three photos, whatever the photo server would answer for the
    others, and it holds at most three raster commands. *)
Theorem photos_block_uses_three_photos
    (jimpModule : bool) (fetch fetch' : jsstring -> option Bitmap) (photos photos' : list Photo) :
  take 3 photos = take 3 photos' ->
  length photos = length photos' ->
  (forall photo url, photo ∈ take 3 photos -> photoUrl photo = Some url ->
     fetch url = fetch' url) ->
  photosBlock jimpModule fetch (Some photos) = photosBlock jimpModule fetch' (Some photos') /\
  (length (List.filter is_raster_command (photosBlock jimpModule fetch (Some photos))) <= 3)%nat.
Proof.
  intros Htake Hlen Hfetch. split.
  - destruct photos as [|first others], photos' as [|first' others']; try discriminate;
      [reflexivity|].
    unfold photosBlock. cbv zeta.
    assert (Hl : js_length (first :: others) = js_length (first' :: others'))
      by (unfold js_length; now rewrite Hlen).
    rewrite <- Hl.
    assert (Hmax : take (Z.to_nat (Z.min (js_length (first :: others)) 3)) (first :: others)
                   = take 3 (first :: others)).
    { destruct (Z.le_gt_cases 3 (js_length (first :: others))).
      - now rewrite Z.min_r by lia.
      - rewrite Z.min_l by lia. unfold js_length in *.
        rewrite !take_ge; [reflexivity | lia | lia]. }
    assert (Hmax' : take (Z.to_nat (Z.min (js_length (first :: others)) 3)) (first' :: others')
                    = take 3 (first' :: others')).
    { rewrite Hl. destruct (Z.le_gt_cases 3 (js_length (first' :: others'))).
      - now rewrite Z.min_r by lia.
      - rewrite Z.min_l by lia. unfold js_length in *.
        rewrite !take_ge; [reflexivity | lia | lia]. }
    rewrite Hmax, Hmax', <- Htake. do 2 f_equal. f_equal.
    apply map_ext_in. intros photo Hin. apply photoFragments_ext.
    intros url Hurl. apply (Hfetch photo url); [|exact Hurl].
    apply list_elem_of_In. exact Hin.
  - destruct photos as [|first others]; [cbn; lia|].
    unfold photosBlock. cbv zeta.
    rewrite !List.filter_app, !length_app.
    pose proof (fragments_rasters jimpModule fetch
                  (take (Z.to_nat (Z.min (js_length (first :: others)) 3)) (first :: others)))
      as Hr.
    rewrite length_take in Hr.
    assert (H0 : length (List.filter is_raster_command
                [ALIGN_CENTER; BOLD_ON; str "ACTIVITY PHOTOS" ++ newline; BOLD_OFF; FEED 1]) = 0%nat)
      by reflexivity.
    assert (H1 : length (List.filter is_raster_command [FEED 1]) = 0%nat) by reflexivity.
    rewrite H0, H1.
    destruct (Z.min (js_length (first :: others)) 3 <? js_length (first :: others)).
    + assert (H2 : forall text, length (List.filter is_raster_command
                     [ALIGN_CENTER; str "(+" ++ text; ALIGN_LEFT]) = 0%nat) by reflexivity.
      rewrite H2. lia.
    + cbn [List.filter length]. lia.
Qed.

Lemma photos_block_uses_three_photos_witness :
  take 3 sample_photos
  = take 3 (take 3 sample_photos ++ [mkPhoto (Some (str "https://p/4")) None None]) /\
  photosBlock true no_photo_server (Some sample_photos)
  = photosBlock true no_photo_server
      (Some (take 3 sample_photos ++ [mkPhoto (Some (str "https://p/4")) None None])).
Proof.
  split; [reflexivity|].
  exact (proj1 (photos_block_uses_three_photos true no_photo_server no_photo_server
                  sample_photos
                  (take 3 sample_photos ++ [mkPhoto (Some (str "https://p/4")) None None])
                  eq_refl eq_refl (fun _ _ _ _ => eq_refl))).
Defined.

Example photosBlock_samples :
  map photoUrl sample_photos
  = [Some (str "https://p/1-600"); Some (str "https://p/2-100"); Some (str "u3"); None] /\
  photosBlock true no_photo_server (Some sample_photos)
  = [ALIGN_CENTER; BOLD_ON; str "ACTIVITY PHOTOS" ++ [10]; BOLD_OFF; [27; 100; 1];
     ALIGN_CENTER; str "(+1 more photo on Strava)" ++ [10]; ALIGN_LEFT; [27; 100; 1]] /\
  photosBlock true no_photo_server (Some []) = [] /\
  photosBlock true no_photo_server None = [] /\
  FEED 300 = [27; 100; 255] /\ FEED (-1) = [27; 100; 0].
Proof. repeat split. Qed.

(** ** The sections of a composed stream *)

Lemma starts_with_length (sep s : jsstring) :
  starts_with sep s = true -> (length sep <= length s)%nat.
Proof.
  revert s. induction sep as [|a sep IH]; intros s H; [cbn; lia|].
  destruct s as [|b s]; [discriminate|]. cbn in H.
  apply andb_prop in H as [_ H]. specialize (IH s H). cbn. lia.
Qed.

Lemma starts_with_longer (sep u s : jsstring) :
  (length sep <= length u)%nat -> starts_with sep (u ++ s) = starts_with sep u.
Proof.
  revert u. induction sep as [|a sep IH]; intros u Hlen; [reflexivity|].
  destruct u as [|b u]; [cbn in Hlen; lia|]. cbn.
  rewrite IH by (cbn in Hlen; lia). reflexivity.
Qed.

Lemma starts_with_across (sep u s : jsstring) :
  starts_with sep (u ++ s) = true -> (length u <= length sep)%nat ->
  starts_with (drop (length u) sep) s = true.
Proof.
  revert sep. induction u as [|b u IH]; intros sep H Hlen; [exact H|].
  destruct sep as [|a sep]; [cbn in Hlen; lia|]. cbn in H.
  apply andb_prop in H as [_ H]. cbn. apply IH; [exact H | cbn in Hlen; lia].
Qed.

(** The break has no proper suffix that is also a prefix of it. *)
Lemma SECTION_BREAK_unbordered (k : nat) (rest : jsstring) :
  (1 <= k <= 12)%nat -> starts_with (drop k SECTION_BREAK) (SECTION_BREAK ++ rest) = false.
Proof.
  intros Hk. rewrite starts_with_longer by (rewrite length_drop; cbn; lia).
  do 13 (destruct k as [|k]; [first [lia | reflexivity]|]). lia.
Qed.

Lemma split_go_scan (sep u s piece : jsstring) :
  (forall j, (j < length u)%nat -> starts_with sep (drop j u ++ s) = false) ->
  split_go sep (u ++ s) 0 piece = split_go sep s 0 (piece ++ u).
Proof.
  revert piece. induction u as [|c u IH]; intros piece H; [now rewrite app_nil_r|].
  change ((c :: u) ++ s) with (c :: (u ++ s)).
  rewrite split_go_other by exact (H 0%nat ltac:(cbn; lia)).
  rewrite IH.
  - now rewrite <- app_assoc.
  - intros j Hj. exact (H (S j) ltac:(cbn; lia)).
Qed.

Lemma marker_free_scan (p s : jsstring) :
  ~ occurs_in SECTION_BREAK p ->
  s = [] \/ (exists rest, s = SECTION_BREAK ++ rest) ->
  forall j, (j < length p)%nat -> starts_with SECTION_BREAK (drop j p ++ s) = false.
Proof.
  intros Hfree Hs j Hj.
  destruct (starts_with SECTION_BREAK (drop j p ++ s)) eqn:E; [exfalso | reflexivity].
  assert (Hu : (length (drop j p) = length p - j)%nat) by apply length_drop.
  destruct (le_lt_dec (length SECTION_BREAK) (length (drop j p))) as [Hlong|Hshort].
  - rewrite starts_with_longer in E by exact Hlong.
    apply starts_with_inv in E. apply Hfree.
    exists (take j p), (drop (length SECTION_BREAK) (drop j p)).
    rewrite <- E. symmetry. apply take_drop.
  - destruct Hs as [-> | [rest ->]].
    + apply starts_with_length in E. rewrite app_nil_r in E. lia.
    + apply starts_with_across in E; [|lia].
      rewrite SECTION_BREAK_unbordered in E; [discriminate|].
      change (length SECTION_BREAK) with 13%nat in Hshort. lia.
Qed.

Lemma js_split_joined (pieces : list jsstring) :
  pieces <> [] ->
  Forall (fun p => ~ occurs_in SECTION_BREAK p) pieces ->
  js_split (js_join pieces SECTION_BREAK) SECTION_BREAK = pieces.
Proof.
  intros Hne Hfree. unfold js_split.
  induction Hfree as [|p rest Hp Hrest IH]; [congruence|]. clear Hne.
  destruct rest as [|q rest'].
  - cbn [js_join]. rewrite split_go_scan by (apply marker_free_scan; auto).
    reflexivity.
  - rewrite js_join_cons by discriminate.
    rewrite split_go_scan by (apply marker_free_scan; eauto).
    rewrite split_go_found by exact SECTION_BREAK_nonempty.
    cbn [app]. f_equal. apply IH. discriminate.
Qed.

(** X19: pieces joined by section breaks are split into the same pieces
    again when none of them contains the text of the break: there is one
    break less than pieces, and the sections that are sent are the pieces
    that are not empty, in their order. *)
Theorem split_of_joined_sections (pieces : list jsstring) :
  pieces <> [] ->
  Forall (fun p => ~ occurs_in SECTION_BREAK p) pieces ->
  js_split (js_join pieces SECTION_BREAK) SECTION_BREAK = pieces /\
  section_breaks (js_join pieces SECTION_BREAK) = js_length pieces - 1 /\
  sectionsOf (js_join pieces SECTION_BREAK) = filter (fun s => 0 < js_length s) pieces.
Proof.
  intros Hne Hfree. pose proof (js_split_joined pieces Hne Hfree) as Hsplit.
  unfold section_breaks, sectionsOf. rewrite Hsplit. auto.
Qed.

Lemma split_of_joined_sections_witness :
  [str "<< A >>"; []; str "B<<<"] <> [] /\
  js_split (js_join [str "<< A >>"; []; str "B<<<"] SECTION_BREAK) SECTION_BREAK
  = [str "<< A >>"; []; str "B<<<"] /\
  sectionsOf (js_join [str "<< A >>"; []; str "B<<<"] SECTION_BREAK)
  = [str "<< A >>"; str "B<<<"].
Proof.
  assert (H : Forall (fun p => ~ occurs_in SECTION_BREAK p) [str "<< A >>"; []; str "B<<<"]).
  { repeat (apply Forall_cons; split;
      [intros (before & after & H); apply (f_equal length) in H;
       rewrite !length_app in H; cbn in H; lia |]).
    apply Forall_nil_2. }
  split; [discriminate|].
  destruct (split_of_joined_sections [str "<< A >>"; []; str "B<<<"] ltac:(discriminate) H)
    as (H1 & _ & H2).
  split; [exact H1 | exact H2].
Defined.

(** ** The sections of a receipt *)

Lemma occurs_in_b_spec (sep s : jsstring) :
  occurs_in sep s -> occurs_in_b sep s = true.
Proof.
  intros (before & after & ->).
  induction before as [|c before IH].
  - replace (occurs_in_b sep ([] ++ sep ++ after))
      with (starts_with sep (sep ++ after)
            || match sep ++ after with [] => false | _ :: rest => occurs_in_b sep rest end)
      by (cbn [app]; destruct (sep ++ after); reflexivity).
    now rewrite starts_with_app.
  - change ((c :: before) ++ sep ++ after) with (c :: (before ++ sep ++ after)).
    cbn [occurs_in_b]. rewrite IH. apply orb_true_r.
Qed.

Lemma js_join_empty (lines : list jsstring) : js_join lines [] = concat lines.
Proof.
  induction lines as [|l rest IH]; [reflexivity|].
  destruct rest as [|l' rest']; [cbn; reflexivity|].
  rewrite js_join_cons by discriminate. cbn [concat app] in *. now rewrite IH.
Qed.

(** The characters of parts with a break pushed between two of them are
    the characters of the parts joined by the break. *)
Lemma concat_parts_with_breaks (p0 p1 p2 p3 p4 p5 p6 p7 p8 : list jsstring) :
  concat (p0 ++ [SECTION_BREAK] ++ p1 ++ [SECTION_BREAK] ++ p2 ++ [SECTION_BREAK]
          ++ p3 ++ [SECTION_BREAK] ++ p4 ++ [SECTION_BREAK] ++ p5 ++ [SECTION_BREAK]
          ++ p6 ++ [SECTION_BREAK] ++ p7 ++ [SECTION_BREAK] ++ p8)
  = js_join (map (fun part => concat part) [p0; p1; p2; p3; p4; p5; p6; p7; p8]) SECTION_BREAK.
Proof.
  cbn [map js_join]. rewrite !concat_app. cbn [concat]. rewrite !app_nil_r.
  rewrite <- ?app_assoc. reflexivity.
Qed.

Lemma filter_keep (pieces : list jsstring) (p : jsstring) :
  0 < js_length p ->
  filter (fun s => 0 < js_length s) (p :: pieces)
  = p :: filter (fun s => 0 < js_length s) pieces.
Proof. intros H. rewrite filter_cons. now rewrite decide_True. Qed.

Lemma part_nonempty (c : Z) (fragment : jsstring) (part : list jsstring) :
  0 < js_length (concat ((c :: fragment) :: part)).
Proof. cbn [concat app]. unfold js_length. cbn [length]. lia. Qed.

Lemma part_starts (fragment : jsstring) (part : list jsstring) :
  0 < js_length fragment -> 0 < js_length (concat (fragment :: part)).
Proof. intros H. cbn [concat]. rewrite js_length_app. unfold js_length in *. lia. Qed.

Lemma headerPart_nonempty (jimpModule logo_exists : bool)
    (jimp_prepare_logo : Z -> option Bitmap) :
  0 < js_length (concat (headerPart jimpModule logo_exists jimp_prepare_logo)).
Proof. unfold headerPart. cbn [app]. apply part_starts. reflexivity. Qed.

Lemma titlePart_nonempty {table : UnicodeCase} (texts : ActivityTexts) :
  0 < js_length (concat (titlePart texts)).
Proof. unfold titlePart. apply part_starts. reflexivity. Qed.

Lemma placePart_nonempty {table : UnicodeCase} (texts : ActivityTexts) (localeDate : jsstring) :
  0 < js_length (concat (placePart texts localeDate)).
Proof. unfold placePart. cbv zeta. apply part_starts. reflexivity. Qed.

Lemma statsPart_nonempty {table : UnicodeCase} (activity : Activity) (part : list jsstring) :
  statsPart activity = Some part -> 0 < js_length (concat part).
Proof.
  unfold statsPart. cbv zeta.
  destruct (statLine activity); [|discriminate]. cbn [mbind option_bind].
  destruct (paceLine activity); [|discriminate]. cbn [mbind option_bind].
  destruct (heartRateLine activity); [|discriminate]. cbn [mbind option_bind].
  destruct (elevationLine activity); [|discriminate]. cbn [mbind option_bind].
  destruct (totalsLine activity); [|discriminate]. cbn [mbind option_bind].
  intros [= <-]. apply part_starts. reflexivity.
Qed.

(** The statistics are printed whenever the four numbers are. *)
Lemma statsPart_defined {table : UnicodeCase} (activity : Activity) (d p h g : jsstring) :
  distanceText activity = Some d -> paceStr activity = Some p ->
  heartRate activity = Some h -> elevationGain activity = Some g ->
  exists stats, statsPart activity = Some stats.
Proof.
  intros Hd Hp Hh Hg.
  unfold statsPart, statLine, paceLine, heartRateLine, elevationLine, totalsLine.
  rewrite Hd, Hp, Hh, Hg. cbn [mbind option_bind]. eexists. reflexivity.
Qed.

Lemma routePart_nonempty {Png : Type} (sharpModule jimpModule : bool)
    (sharp_render : SvgDoc -> option Png) (jimp_prepare : Png -> Z -> option Bitmap)
    (route : option (list (RoutePoint float))) :
  0 < js_length (concat (routePart sharpModule jimpModule sharp_render jimp_prepare route)).
Proof. unfold routePart. cbn [app]. apply part_starts. reflexivity. Qed.

Lemma photosBlock_nonempty (jimpModule : bool) (fetch_bitmap : jsstring -> option Bitmap)
    (photos : option (list Photo)) :
  match photos with
  | Some (_ :: _) => 0 < js_length (concat (photosBlock jimpModule fetch_bitmap photos))
  | _ => concat (photosBlock jimpModule fetch_bitmap photos) = []
  end.
Proof.
  destruct photos as [[|first others]|]; [reflexivity | | reflexivity].
  unfold photosBlock. cbv zeta. cbn [app]. apply part_starts. reflexivity.
Qed.

Lemma fixed_parts_nonempty (texts : ActivityTexts) :
  0 < js_length (concat gratuityPart) /\ 0 < js_length (concat (qrPart texts))
  /\ 0 < js_length (concat footerPart).
Proof. repeat split; apply part_starts; reflexivity. Qed.

(** X21: a receipt is sent in eight sections, or in nine when there are
    photos.  For every name, place and date, also with characters outside
    ASCII, whatever the case table of the runtime is, and for every
    activity whose four statistics are printed (the number formatting is
    modelled for distances below 10^21 miles and for whole numbers below
    2^53): when no part of the receipt contains the text of the section
    break, the composed stream has eight breaks and its sections are its
    nine parts in their order, without the photo part when there is no
    photo. *)
Theorem receipt_sections {Png : Type} {table : UnicodeCase} (sharpModule jimpModule : bool)
    (sharp_render : SvgDoc -> option Png) (jimp_prepare : Png -> Z -> option Bitmap)
    (logo_exists : bool) (jimp_prepare_logo : Z -> option Bitmap)
    (fetch_bitmap : jsstring -> option Bitmap)
    (activity : Activity) (texts : ActivityTexts) (localeDate : jsstring)
    (route : option (list (RoutePoint float))) (photos : option (list Photo))
    (stats : list jsstring) :
  let parts :=
    [headerPart jimpModule logo_exists jimp_prepare_logo; titlePart texts;
     placePart texts localeDate; stats;
     routePart sharpModule jimpModule sharp_render jimp_prepare route;
     photosBlock jimpModule fetch_bitmap photos; gratuityPart; qrPart texts; footerPart] in
  statsPart activity = Some stats ->
  Forall (fun part => ~ occurs_in SECTION_BREAK (concat part)) parts ->
  receiptParts sharpModule jimpModule sharp_render jimp_prepare logo_exists jimp_prepare_logo
    fetch_bitmap activity texts localeDate route photos = Some parts /\
  exists lines,
    receiptLines sharpModule jimpModule sharp_render jimp_prepare logo_exists jimp_prepare_logo
      fetch_bitmap activity texts localeDate route photos = Some lines /\
    section_breaks (js_join lines []) = 8 /\
    sectionsOf (js_join lines [])
    = filter (fun s => 0 < js_length s) (map (fun part => concat part) parts) /\
    js_length (sectionsOf (js_join lines []))
    = match photos with Some (_ :: _) => 9 | _ => 8 end.
Proof.
  intros parts Hstats Hfree. unfold receiptParts, receiptLines. rewrite Hstats.
  cbn [mbind option_bind]. split; [reflexivity|].
  eexists. split; [reflexivity|].
  rewrite js_join_empty, concat_parts_with_breaks.
  unfold section_breaks, sectionsOf.
  rewrite js_split_joined; [| discriminate | apply Forall_fmap; exact Hfree].
  split; [reflexivity|]. split; [reflexivity|]. clear Hfree. unfold parts. cbn [map].
  destruct (fixed_parts_nonempty texts) as (Hg & Hq & Hf).
  pose proof (photosBlock_nonempty jimpModule fetch_bitmap photos) as Hphotos.
  rewrite (filter_keep _ _ (headerPart_nonempty jimpModule logo_exists jimp_prepare_logo)).
  rewrite (filter_keep _ _ (titlePart_nonempty texts)).
  rewrite (filter_keep _ _ (placePart_nonempty texts localeDate)).
  rewrite (filter_keep _ _ (statsPart_nonempty _ _ Hstats)).
  rewrite (filter_keep _ _ (routePart_nonempty sharpModule jimpModule sharp_render
                              jimp_prepare route)).
  destruct photos as [[|first others]|].
  - rewrite Hphotos, filter_cons, decide_False by (unfold js_length; cbn [length]; lia).
    rewrite (filter_keep _ _ Hg), (filter_keep _ _ Hq), (filter_keep _ _ Hf). reflexivity.
  - rewrite (filter_keep _ _ Hphotos).
    rewrite (filter_keep _ _ Hg), (filter_keep _ _ Hq), (filter_keep _ _ Hf). reflexivity.
  - rewrite Hphotos, filter_cons, decide_False by (unfold js_length; cbn [length]; lia).
    rewrite (filter_keep _ _ Hg), (filter_keep _ _ Hq), (filter_keep _ _ Hf). reflexivity.
Qed.

Lemma receipt_sections_witness :
  exists lines,
    receiptLines (table := sample_case) false false no_rasterizer keep_bitmap false no_logo
      no_photo_server sample_activity accented_texts (str "Mon, Jan 1, 2024, 7:00 AM EST")
      None None
    = Some lines /\
    js_length (sectionsOf (js_join lines [])) = 8.
Proof.
  destruct (statsPart (table := sample_case) sample_activity) as [stats|] eqn:Estats;
    [|vm_compute in Estats; discriminate Estats].
  assert (Hfree : Forall (fun part => ~ occurs_in SECTION_BREAK (concat part))
            [headerPart false false no_logo; titlePart (table := sample_case) accented_texts;
             placePart (table := sample_case) accented_texts
               (str "Mon, Jan 1, 2024, 7:00 AM EST");
             stats; routePart false false no_rasterizer keep_bitmap None;
             photosBlock false no_photo_server None; gratuityPart; qrPart accented_texts;
             footerPart]).
  { vm_compute in Estats. injection Estats as <-.
    repeat (apply Forall_cons; split;
      [intros H; apply occurs_in_b_spec in H; vm_compute in H; discriminate H |]).
    apply Forall_nil_2. }
  destruct (receipt_sections (table := sample_case) false false no_rasterizer keep_bitmap
              false no_logo no_photo_server sample_activity accented_texts
              (str "Mon, Jan 1, 2024, 7:00 AM EST") None None stats Estats Hfree)
    as (_ & lines & H1 & _ & _ & H3).
  exists lines. split; assumption.
Defined.

(** Upper case: ASCII letters by the rule, the others by the table. *)
Example toUpper_samples {table : UnicodeCase} :
  toUpper (str "Morning Run 5k, 7:00 am!") = str "MORNING RUN 5K, 7:00 AM!" /\
  toUpper (str "Caf" ++ [233] ++ str " run " ++ [55356; 57283])
  = str "CAF" ++ unicode_upper [233] ++ str " RUN " ++ unicode_upper [55356; 57283] /\
  toUpper [55356] = unicode_upper [55356] /\
  toUpper (table := sample_case) (str "Caf" ++ [233]) = str "CAF" ++ [201].
Proof. repeat split; cbn; rewrite ?app_nil_r; reflexivity. Qed.

Example receipt_sample {table : UnicodeCase} :
  option_map (fun lines => take 9 (sectionsOf (js_join lines [])))
    (receiptLines false false no_rasterizer keep_bitmap false no_logo no_photo_server
       sample_activity sample_texts (str "Mon, Jan 1, 2024, 7:00 AM EST") None None)
  = Some
      [[27; 64; 27; 50; 27; 97; 0; 27; 77; 0; 27; 33; 0; 27; 100; 2];
       [27; 97; 1; 27; 69; 1] ++ str "MORNING RUN" ++ [10; 27; 69; 0; 27; 100; 1];
       [27; 97; 1] ++ str "USA" ++ [10; 27; 100; 1; 27; 97; 1]
         ++ str "MON, JAN 1, 2024, 7:00 AM EST" ++ [10; 27; 100; 1];
       [27; 97; 1] ++ str "------------------------------------------------" ++ [10; 27; 97; 0; 27; 100; 1; 27; 69; 1]
         ++ str "   COUNT TYPE                        NO. MILES" ++ [27; 69; 0; 10; 27; 100; 1]
         ++ str "       1 RUN                              1.00" ++ [10]
         ++ str "         PACE: 6:30 MIN/MI" ++ [10]
         ++ str "         AVG HEART RATE: 153 BPM" ++ [10]
         ++ str "         ELEVATION GAIN: 328 FT" ++ [10; 27; 100; 1; 27; 97; 1]
         ++ str "------------------------------------------------" ++ [10; 27; 97; 0; 27; 100; 1; 27; 69; 1]
         ++ str "         TOTAL MILES                      1.00" ++ [27; 69; 0; 10; 27; 100; 1; 27; 97; 2]
         ++ str "(STRAVA TAX INCL.)" ++ [10; 27; 97; 0; 27; 100; 2];
       [27; 97; 1; 27; 69; 1] ++ str "RUN ROUTE" ++ [10; 27; 69; 0; 27; 100; 1; 27; 97; 1]
         ++ str "[Route visualization]" ++ [10; 27; 100; 2];
       [27; 97; 1; 27; 69; 1] ++ str "SUGGESTED GRATUITY" ++ [27; 69; 0; 10; 27; 100; 1; 27; 97; 0]
         ++ str "          [ ] GIVE SOME KUDOS" ++ [10]
         ++ str "          [ ] SHARE WITH A FRIEND" ++ [10]
         ++ str "          [ ] FOLLOW & TAG @_RE_PETE" ++ [10; 27; 100; 2];
       [27; 97; 1] ++ str "VIEW ON STRAVA" ++ [10; 27; 100; 1]
         ++ buildEpsonQR (str "https://www.strava.com/activities/7") 5 (str "1")
         ++ [27; 97; 0; 27; 100; 1; 27; 97; 1; 27; 100; 2];
       [27; 97; 1] ++ str "<< ATHLETE COPY >>" ++ [10; 27; 100; 2; 27; 100; 2; 27; 64; 29; 86; 66; 3]].
Proof. vm_compute. reflexivity. Qed.

(** ** The drawing stays inside the canvas *)

(** X20: the drawing of a route stays on the canvas.  In binary64, for a
    route whose coordinates are at most 1e300 in magnitude and whose padded
    box has a positive extent in both directions, every projected point has
    0 <= x <= 400 and 0 <= y <= 300. *)
Theorem route_stays_inside_canvas (first : RoutePoint float) (rest : list (RoutePoint float)) :
  let route := first :: rest in
  let box := paddedBox (boundingBox first route) in
  Forall (fun p => point_in_range p = true) route ->
  (0 <? maxLat box - minLat box)%float = true ->
  (0 <? maxLng box - minLng box)%float = true ->
  forall xy, xy ∈ routePath route ->
    (0 <=? xy.1)%float = true /\ (xy.1 <=? 400)%float = true /\
    (0 <=? xy.2)%float = true /\ (xy.2 <=? 300)%float = true.
Proof.
  intros route box Hall Hlat Hlng xy Hxy.
  destruct (paddedBox_facts first rest Hall)
    as ((Fl & Fh & Fd & _) & (Gl & Gh & Gd & _)).
  fold route in Fl, Fh, Fd, Gl, Gh, Gd. fold box in Fl, Fh, Fd, Gl, Gh, Gd.
  apply (flt_exact 0 _ eq_refl Fd) in Hlat. apply (flt_exact 0 _ eq_refl Gd) in Hlng.
  rewrite exact_zero in Hlat, Hlng.
  unfold routePath, routeBox in Hxy. cbn [route] in Hxy. fold route in Hxy. fold box in Hxy.
  apply list_elem_of_fmap in Hxy as (point & -> & Hpoint).
  destruct (point_in_padded_box first rest point Hall Hpoint) as (Flat & Flng & P1 & P2 & P3 & P4).
  fold route in P1, P2, P3, P4. fold box in P1, P2, P3, P4.
  destruct (axis_fraction _ _ (lat point) Fl Fh Flat Fd Hlat P1 P2) as (_ & _ & Fty & Lty & Uty).
  destruct (axis_fraction _ _ (lng point) Gl Gh Flng Gd Hlng P3 P4) as (_ & _ & Ftx & Ltx & Utx).
  destruct (scale_to_width _ Ftx Ltx Utx) as (Fx & Lx & Ux).
  destruct (flip_over_height _ Fty Lty Uty) as (Fy & Ly & Uy).
  destruct exact_constants as (_ & E400 & E300 & W & H).
  unfold project_x, project_y. cbn [fst snd].
  rewrite W, H.
  repeat split.
  - apply (fle_exact 0 _ eq_refl Fx). rewrite exact_zero. exact Lx.
  - apply (fle_exact _ 400 Fx eq_refl). rewrite E400. exact Ux.
  - apply (fle_exact 0 _ eq_refl Fy). rewrite exact_zero. exact Ly.
  - apply (fle_exact _ 300 Fy eq_refl). rewrite E300. exact Uy.
Qed.

Lemma route_stays_inside_canvas_witness :
  Forall (fun p => point_in_range p = true)
    [mkPoint 40%float (-74)%float; mkPoint 41%float (-72)%float] /\
  (0 <=? 33.333333333333727)%float = true /\ (33.333333333333727 <=? 400)%float = true /\
  (0 <=? 257.14285714285671)%float = true /\ (257.14285714285671 <=? 300)%float = true.
Proof.
  assert (Hall : Forall (fun p => point_in_range p = true)
                   [mkPoint 40%float (-74)%float; mkPoint 41%float (-72)%float])
    by (repeat constructor).
  split; [exact Hall|].
  exact (route_stays_inside_canvas (mkPoint 40%float (-74)%float) [mkPoint 41%float (-72)%float]
           Hall eq_refl eq_refl (33.333333333333727%float, 257.14285714285671%float)
           ltac:(apply list_elem_of_here)).
Defined.
